(** * swipe-clean: the photo detection pipeline

    A shallow embedding of [src/utils/photoDetection.js] and of the image
    hashing utilities it imports ([simpleHash], [generateImageSignature],
    [extractFileName]), followed by the properties of the pipeline.

    - [JS]: the values, numbers and string operations of JavaScript the
      code relies on.
    - [Regex]: the three replacements of the file-name normalisation.
    - [Photo], [ImageHashing], [Detection]: the records and the functions
      of the source, as functions on values.
    - [Store]: [detectDuplicatesAndSimilar] once more, on a store of
      objects, to follow allocation and assignment.
    - [Spec], [Samples]: definitions used to state the properties, and
      sample inputs.

    Conventions of the embedding.
    - A JavaScript string is a [string]: a sequence of code units, here
      the code units 0..255 (Latin-1 file names).
    - A numeric property of a photo is a [jsval]: absent ([JUndefined]),
      [JNaN], or an integer.  The arithmetic the pipeline performs on the
      metadata (differences, [x / 1000], [x / 60000], [x * 0.1],
      [size / pixels]) is only ever compared against a constant or
      rounded to an integer, and on integers inside the double-exact
      range those comparisons and roundings coincide with the exact ones;
      they are written on [Z], scaled where the source has a fraction.
    - The two progress formulas divide and multiply doubles before
      rounding, and there the double rounding is visible (1150/2000*100
      is 57.499...); they are computed on binary64 floats.
    - [Date.now()] is a clock reading supplied per loop iteration. *)

From Stdlib Require Import ZArith Ascii String List Bool Lia DecimalString.
From Stdlib Require Import Floats Uint63 QArith Qminmax.
From stdpp Require Import gmap strings list fin_maps.

Local Open Scope Z_scope.

(** ** JavaScript values and numbers *)

Module JS.

Inductive jsval : Type :=
| JUndefined
| JNaN
| JInt (z : Z).

#[global] Instance jsval_eq_dec : EqDecision jsval.
Proof. solve_decision. Defined.

(** [ToNumber]: [undefined] becomes [NaN] ([None]). *)
Definition toNumber (v : jsval) : option Z :=
  match v with
  | JInt z => Some z
  | JUndefined | JNaN => None
  end.

(** [a === b] on these values: [NaN] differs from itself. *)
Definition strict_eq (a b : jsval) : bool :=
  match a, b with
  | JUndefined, JUndefined => true
  | JInt x, JInt y => x =? y
  | _, _ => false
  end.

(** [a - b]. *)
Definition sub (a b : jsval) : jsval :=
  match toNumber a, toNumber b with
  | Some x, Some y => JInt (x - y)
  | _, _ => JNaN
  end.

(** [a * b]. *)
Definition mul (a b : jsval) : jsval :=
  match toNumber a, toNumber b with
  | Some x, Some y => JInt (x * y)
  | _, _ => JNaN
  end.

(** [Math.abs(a)]. *)
Definition abs (a : jsval) : jsval :=
  match toNumber a with
  | Some x => JInt (Z.abs x)
  | None => JNaN
  end.

(** [a < k] and [a > k] against an integer constant: false on [NaN]. *)
Definition lt_const (a : jsval) (k : Z) : bool :=
  match toNumber a with
  | Some x => x <? k
  | None => false
  end.

Definition gt_const (a : jsval) (k : Z) : bool :=
  match toNumber a with
  | Some x => k <? x
  | None => false
  end.

(** [Math.floor(a / d)] for a positive integer constant [d]. *)
Definition floor_div (a : jsval) (d : Z) : jsval :=
  match toNumber a with
  | Some x => JInt (x / d)
  | None => JNaN
  end.

(** [Math.round(a / d)] for a positive integer constant [d]: the nearest
    integer, ties towards plus infinity. *)
Definition round_div (a : jsval) (d : Z) : jsval :=
  match toNumber a with
  | Some x => JInt ((2 * x + d) / (2 * d))
  | None => JNaN
  end.

(** Decimal text of an integer, as [Number.prototype.toString] gives it. *)
Definition string_of_Z (z : Z) : string :=
  NilZero.string_of_int (Z.to_int z).

(** The text of an array element under [Array.prototype.join]:
    [undefined] is the empty string. *)
Definition join_text (v : jsval) : string :=
  match v with
  | JUndefined => EmptyString
  | JNaN => "NaN"%string
  | JInt z => string_of_Z z
  end.

(** [parts.join(sep)]. *)
Fixpoint join (sep : string) (parts : list string) : string :=
  match parts with
  | [] => EmptyString
  | [p] => p
  | p :: rest => String.append p (String.append sep (join sep rest))
  end.

(** [ToInt32]: wrap to the signed 32-bit range. *)
Definition to_int32 (z : Z) : Z := (z + 2 ^ 31) mod 2 ^ 32 - 2 ^ 31.

(** [a << k] and [a & b] on 32-bit integers. *)
Definition shl32 (a k : Z) : Z := to_int32 (Z.shiftl (to_int32 a) k).
Definition and32 (a b : Z) : Z := Z.land (to_int32 a) (to_int32 b).

(** [str.charCodeAt(i)] of one code unit. *)
Definition charCode (c : ascii) : Z := Z.of_N (N_of_ascii c).

(** One digit of [toString(36)]. *)
Definition digit36 (d : Z) : ascii :=
  if d <? 10 then ascii_of_N (Z.to_N (48 + d))
  else ascii_of_N (Z.to_N (97 + (d - 10))).

Fixpoint toString36_digits (fuel : nat) (n : Z) (acc : string) : string :=
  match fuel with
  | O => acc
  | S fuel' =>
      let acc' := String (digit36 (n mod 36)) acc in
      if n / 36 =? 0 then acc' else toString36_digits fuel' (n / 36) acc'
  end.

(** [n.toString(36)] for a non-negative integer [n]. *)
Definition toString36 (n : Z) : string :=
  toString36_digits (S (Z.to_nat (Z.log2 n))) n EmptyString.

(** Binary64 numbers, for the progress arithmetic. *)
Definition float_of_Z (z : Z) : float := PrimFloat.of_uint63 (Uint63.of_Z z).

(** [Math.round(f)] of a finite double: floor of [f + 1/2], exactly. *)
Definition math_round (f : float) : Z :=
  match Prim2SF f with
  | S754_finite s m e =>
      let n := if s then Z.neg m else Z.pos m in
      if 0 <=? e then n * 2 ^ e
      else (2 * n + 2 ^ (- e)) / 2 ^ (- e + 1)
  | _ => 0
  end.

(** White space ([\s]) and decimal digits ([\d], [[0-9]]) below 256. *)
Definition is_space (c : ascii) : bool :=
  let n := charCode c in
  ((9 <=? n) && (n <=? 13)) || (n =? 32) || (n =? 160).

Definition is_digit (c : ascii) : bool :=
  let n := charCode c in (48 <=? n) && (n <=? 57).

(** [String.prototype.toLowerCase] on one code unit below 256. *)
Definition lower_char (c : ascii) : ascii :=
  let n := charCode c in
  if ((65 <=? n) && (n <=? 90))
     || ((192 <=? n) && (n <=? 214))
     || ((216 <=? n) && (n <=? 222))
  then ascii_of_N (Z.to_N (n + 32))
  else c.

Fixpoint toLowerCase (s : string) : string :=
  match s with
  | EmptyString => EmptyString
  | String c t => String (lower_char c) (toLowerCase t)
  end.

(** [str.split('/')]. *)
Fixpoint split_slash (s : string) : list string :=
  match s with
  | EmptyString => [EmptyString]
  | String c t =>
      if Ascii.eqb c "/"%char then EmptyString :: split_slash t
      else match split_slash t with
           | [] => [String c EmptyString]
           | h :: r => String c h :: r
           end
  end.

End JS.

(** ** Regular expressions of the file-name normalisation

    The three replacements applied to a file name, in the order of the
    source:  [.replace(/\s*\([0-9]+\)\s*/g, '')], [.replace(/-copy/i, '')]
    and [.replace(/-\d+$/i, '')]. *)

Module Regex.
Import JS.

(** Length of the longest prefix of [s] whose characters satisfy [f],
    and what follows it. *)
Fixpoint span (f : ascii -> bool) (s : string) : nat * string :=
  match s with
  | EmptyString => (O, EmptyString)
  | String c t =>
      if f c then let '(n, r) := span f t in (S n, r) else (O, s)
  end.

(** A match of [\s*\([0-9]+\)\s*] anchored at the start of [s]: its
    length.  Both [\s*] and [[0-9]+] are greedy, and what follows each of
    them cannot be matched by it, so no backtracking shortens them. *)
Definition match_counter (s : string) : option nat :=
  let '(n1, r1) := span is_space s in
  match r1 with
  | String "("%char r2 =>
      let '(n2, r3) := span is_digit r2 in
      match n2, r3 with
      | S _, String ")"%char r4 =>
          let '(n3, _) := span is_space r4 in
          Some (n1 + 1 + n2 + 1 + n3)%nat
      | _, _ => None
      end
  | _ => None
  end.

(** The global replacement: scan from the left, drop every match and
    resume after it.  [skip] counts the characters of the current match
    still to drop. *)
Fixpoint remove_counters_from (skip : nat) (s : string) : string :=
  match s with
  | EmptyString => EmptyString
  | String c t =>
      match skip with
      | S k => remove_counters_from k t
      | O =>
          match match_counter s with
          | Some (S k) => remove_counters_from k t
          | _ => String c (remove_counters_from O t)
          end
      end
  end.

Definition remove_counters (s : string) : string := remove_counters_from O s.

(** [/-copy/i] anchored at the start of [s]: what follows the match. *)
Definition match_copy (s : string) : option string :=
  match s with
  | String "-"%char (String c (String o (String p (String y r)))) =>
      if Ascii.eqb (lower_char c) "c"%char && Ascii.eqb (lower_char o) "o"%char
         && Ascii.eqb (lower_char p) "p"%char && Ascii.eqb (lower_char y) "y"%char
      then Some r else None
  | _ => None
  end.

(** Without the [g] flag only the leftmost match is replaced. *)
Fixpoint remove_first_copy (s : string) : string :=
  match s with
  | EmptyString => EmptyString
  | String c t =>
      match match_copy s with
      | Some r => r
      | None => String c (remove_first_copy t)
      end
  end.

(** [/-\d+$/] anchored at the start of [s]: a dash, then digits up to the
    end of the string. *)
Definition match_trailing_number (s : string) : bool :=
  match s with
  | String "-"%char r =>
      let '(n, rest) := span is_digit r in
      match n, rest with
      | S _, EmptyString => true
      | _, _ => false
      end
  | _ => false
  end.

Fixpoint remove_trailing_number (s : string) : string :=
  match s with
  | EmptyString => EmptyString
  | String c t =>
      if match_trailing_number s then EmptyString
      else String c (remove_trailing_number t)
  end.

End Regex.

(** ** The photo records *)

Module Photo.

(** [{id, uri, width, height, size, creationTime}], as the caller builds
    it: [id] and [uri] are strings, the four numeric properties may be
    missing. *)
Record t : Type := mk {
  id : string;
  uri : string;
  width : JS.jsval;
  height : JS.jsval;
  size : JS.jsval;
  creationTime : JS.jsval;
}.

End Photo.

(** ** Image hashing utilities *)

Module ImageHashing.
Import JS Regex.

(** One turn of the loop of [simpleHash]:
    [hash = ((hash << 5) - hash) + char; hash = hash & hash]. *)
Definition simpleHash_step (hash : Z) (c : ascii) : Z :=
  let char := charCode c in
  let hash1 := (shl32 hash 5 - hash) + char in
  and32 hash1 hash1.

Fixpoint simpleHash_loop (hash : Z) (str : string) : Z :=
  match str with
  | EmptyString => hash
  | String c rest => simpleHash_loop (simpleHash_step hash c) rest
  end.

Definition simpleHash (str : string) : string :=
  toString36 (Z.abs (simpleHash_loop 0 str)).

(** [parts[parts.length - 1] || '']. *)
Definition extractFileName (uri : string) : string :=
  List.last (split_slash uri) EmptyString.

(** The chain of replacements and [toLowerCase] that both
    [generateImageSignature] and the pipeline apply to a file name. *)
Definition filenameBase (uri : string) : string :=
  toLowerCase
    (remove_trailing_number
       (remove_first_copy (remove_counters (extractFileName uri)))).

Definition timeRounded (photo : Photo.t) : jsval :=
  floor_div (Photo.creationTime photo) 60000.

Definition signatureString (photo : Photo.t) : string :=
  join "|"
    [ join_text (Photo.width photo);
      join_text (Photo.height photo);
      join_text (round_div (Photo.size photo) 1000);
      join_text (timeRounded photo);
      filenameBase (Photo.uri photo) ].

Definition generateImageSignature (photo : Photo.t) : string :=
  simpleHash (signatureString photo).

End ImageHashing.


(** ** The detection pipeline *)

Module Detection.
Import JS ImageHashing.

Local Open Scope nat_scope.

Inductive PhotoCategory : Type :=
| DUPLICATE
| SIMILAR
| SCREENSHOT
| LOW_QUALITY
| BURST
| OLD_UNUSED.

#[global] Instance PhotoCategory_eq_dec : EqDecision PhotoCategory.
Proof. solve_decision. Defined.

Definition TIME_THRESHOLD : Z := 60000.
Definition batchSize : nat := 50.
Definition checkRange : nat := 25.

(** An element of [photosWithSignatures]: [{...photo, signature}]. *)
Module Signed.
Record t : Type := mk {
  photo : Photo.t;
  signature : string;
}.
Definition id (p : t) : string := Photo.id (photo p).
Definition uri (p : t) : string := Photo.uri (photo p).
Definition width (p : t) : jsval := Photo.width (photo p).
Definition height (p : t) : jsval := Photo.height (photo p).
Definition size (p : t) : jsval := Photo.size (photo p).
Definition creationTime (p : t) : jsval := Photo.creationTime (photo p).
End Signed.

(** An element of the returned array: the spread of the signed photo
    (which by then may carry [similarCount]) and the four properties the
    pipeline sets. *)
Module Categorized.
Record t : Type := mk {
  photo : Photo.t;
  signature : string;
  similarCount : option nat;
  categories : list PhotoCategory;
  isDuplicate : bool;
  duplicateIds : list string;
  duplicateCount : nat;
}.
Definition id (p : t) : string := Photo.id (photo p).
End Categorized.

(** *** Phase A: signatures, in batches *)

(** The body of the [try]: [generateImageSignature] reads [photo.uri] as
    a string and does arithmetic on the numeric properties, none of which
    throws on a record of type [Photo.t]; the [catch] branch needs a
    [uri] that is not a string. *)
Definition withSignature (photo : Photo.t) : Signed.t :=
  Signed.mk photo (generateImageSignature photo).

(** [Math.round((batchEnd / total) * 100)], on doubles. *)
Definition batchProgress (batchEnd total : nat) : Z :=
  math_round
    (PrimFloat.mul
       (PrimFloat.div (float_of_Z (Z.of_nat batchEnd)) (float_of_Z (Z.of_nat total)))
       (float_of_Z 100)).

(** The inner loop, [for (let i = batchStart; i < batchEnd; i++)]. *)
Definition signBatch (photos : list Photo.t) (batchStart batchEnd : nat)
    (photosWithSignatures : list Signed.t) : list Signed.t :=
  foldl
    (fun acc i =>
       match photos !! i with
       | Some photo => acc ++ [withSignature photo]
       | None => acc
       end)
    photosWithSignatures
    (seq batchStart (batchEnd - batchStart)).

(** The outer loop, [for (batchStart = 0; batchStart < photos.length;
    batchStart += batchSize)].  [fuel] bounds the number of turns;
    [length photos] turns are always enough. *)
Fixpoint signatureLoop (fuel : nat) (photos : list Photo.t) (onProgress : bool)
    (batchStart : nat) (photosWithSignatures : list Signed.t) (trace : list Z)
  : list Signed.t * list Z :=
  match fuel with
  | O => (photosWithSignatures, trace)
  | S fuel' =>
      if length photos <=? batchStart then (photosWithSignatures, trace)
      else
        let total := length photos in
        let batchEnd := Nat.min (batchStart + batchSize) (length photos) in
        let photosWithSignatures' :=
          signBatch photos batchStart batchEnd photosWithSignatures in
        let trace' :=
          if onProgress then trace ++ [batchProgress batchEnd total] else trace in
        signatureLoop fuel' photos onProgress (batchStart + batchSize)
          photosWithSignatures' trace'
  end.

Definition signaturePhase (photos : list Photo.t) (onProgress : bool)
  : list Signed.t * list Z :=
  signatureLoop (length photos) photos onProgress 0 [] [].

(** *** Phase B: the signature map *)

(** [if (!signatureMap.has(sig)) signatureMap.set(sig, []);
     signatureMap.get(sig).push({ photo, index: i })]. *)
Definition addToSignatureMap (signatureMap : gmap string (list (Signed.t * nat)))
    (photo : Signed.t) (i : nat) : gmap string (list (Signed.t * nat)) :=
  let signatureMap1 :=
    match signatureMap !! Signed.signature photo with
    | None => <[Signed.signature photo := []]> signatureMap
    | Some _ => signatureMap
    end in
  match signatureMap1 !! Signed.signature photo with
  | Some entries =>
      <[Signed.signature photo := entries ++ [(photo, i)]]> signatureMap1
  | None => signatureMap1
  end.

Fixpoint groupLoop (i : nat) (rest : list Signed.t)
    (signatureMap : gmap string (list (Signed.t * nat)))
  : gmap string (list (Signed.t * nat)) :=
  match rest with
  | [] => signatureMap
  | photo :: rest' => groupLoop (S i) rest' (addToSignatureMap signatureMap photo i)
  end.

Definition groupBySignature (photosWithSignatures : list Signed.t)
  : gmap string (list (Signed.t * nat)) :=
  groupLoop 0 photosWithSignatures ∅.

(** *** Phase C: categorisation of one photo *)

(** [for (const { photo: otherPhoto, index: otherIndex } of sameSignaturePhotos)]. *)
Definition signaturePass (index : nat) (sameSignaturePhotos : list (Signed.t * nat))
  : list Signed.t * gset string :=
  foldl
    (fun (acc : list Signed.t * gset string) (entry : Signed.t * nat) =>
       let '(duplicates, duplicateIds) := acc in
       let '(otherPhoto, otherIndex) := entry in
       if otherIndex =? index then (duplicates, duplicateIds)
       else (duplicates ++ [otherPhoto], {[ Signed.id otherPhoto ]} ∪ duplicateIds))
    ([], ∅)
    sameSignaturePhotos.

(** [for (let i = 0; i < photosWithSignatures.length && duplicates.length < 20; i++)],
    from position [i] on, [rest] being the photos at [i], [i+1], ... *)
Fixpoint filenamePass (index : nat) (base : string) (i : nat) (rest : list Signed.t)
    (duplicates : list Signed.t) (duplicateIds : gset string)
  : list Signed.t * gset string :=
  match rest with
  | [] => (duplicates, duplicateIds)
  | otherPhoto :: rest' =>
      if 20 <=? length duplicates then (duplicates, duplicateIds)
      else if (i =? index) || bool_decide (Signed.id otherPhoto ∈ duplicateIds)
      then filenamePass index base (S i) rest' duplicates duplicateIds
      else
        let otherFilenameBase := filenameBase (Signed.uri otherPhoto) in
        if String.eqb base otherFilenameBase && (0 <? String.length base)
        then filenamePass index base (S i) rest'
               (duplicates ++ [otherPhoto])
               ({[ Signed.id otherPhoto ]} ∪ duplicateIds)
        else filenamePass index base (S i) rest' duplicates duplicateIds
  end.

(** [Math.abs(photo.size - otherPhoto.size) < Math.max(photo.size * 0.1, 10000)],
    both sides multiplied by ten. *)
Definition similarSize (photo otherPhoto : Signed.t) : bool :=
  match toNumber (JS.abs (JS.sub (Signed.size photo) (Signed.size otherPhoto))),
        toNumber (Signed.size photo) with
  | Some d, Some s => (10 * d <? Z.max s (10 * 10000))%Z
  | _, _ => false
  end.

Definition timeDiff (photo otherPhoto : Signed.t) : jsval :=
  JS.abs (JS.sub (Signed.creationTime photo) (Signed.creationTime otherPhoto)).

(** [for (let i = start; i < end; i++)] of the similarity scan. *)
Definition similarPass (photosWithSignatures : list Signed.t) (index : nat)
    (photo : Signed.t) (duplicateIds : gset string) : list Signed.t :=
  let start := Nat.max 0 (index - checkRange) in
  let end_ := Nat.min (length photosWithSignatures) (index + checkRange) in
  foldl
    (fun (similar : list Signed.t) (i : nat) =>
       match photosWithSignatures !! i with
       | None => similar
       | Some otherPhoto =>
           if (i =? index) || bool_decide (Signed.id otherPhoto ∈ duplicateIds)
           then similar
           else if negb (strict_eq (Signed.width photo) (Signed.width otherPhoto))
                   || negb (strict_eq (Signed.height photo) (Signed.height otherPhoto))
           then similar
           else if similarSize photo otherPhoto
                   && lt_const (timeDiff photo otherPhoto) TIME_THRESHOLD
                   && (length similar <? 5)
           then similar ++ [otherPhoto]
           else similar
       end)
    []
    (seq start (end_ - start)).

Definition commonScreenshotSizes : list (Z * Z) :=
  [ (1080, 1920); (1242, 2208); (750, 1334); (1440, 2560);
    (1080, 2340); (1170, 2532); (1179, 2556); (1284, 2778) ]%Z.

Definition isSquare (photo : Signed.t) : bool :=
  lt_const (JS.abs (JS.sub (Signed.width photo) (Signed.height photo))) 10.

Definition isScreenshot (photo : Signed.t) : bool :=
  isSquare photo
  || existsb
       (fun sz : Z * Z =>
          lt_const (JS.abs (JS.sub (Signed.width photo) (JInt (fst sz)))) 50
          && lt_const (JS.abs (JS.sub (Signed.height photo) (JInt (snd sz)))) 50)
       commonScreenshotSizes.

Definition pixels (photo : Signed.t) : jsval :=
  JS.mul (Signed.width photo) (Signed.height photo).

(** [bytesPerPixel < 0.1] where [bytesPerPixel = photo.size / pixels] and
    [pixels > 0], multiplied through by [10 * pixels]. *)
Definition bytesPerPixelBelowTenth (photo : Signed.t) : bool :=
  match toNumber (Signed.size photo), toNumber (pixels photo) with
  | Some s, Some px => (10 * s <? px)%Z
  | _, _ => false
  end.

Definition isLowQuality (photo : Signed.t) : bool :=
  if gt_const (pixels photo) 0
  then lt_const (Signed.size photo) 50000
       || (gt_const (pixels photo) 1000000 && bytesPerPixelBelowTenth photo)
  else false.

(** [daysSinceCreation > 365] where
    [daysSinceCreation = (now - photo.creationTime) / (1000 * 60 * 60 * 24)]. *)
Definition isOldUnused (now : Z) (photo : Signed.t) : bool :=
  gt_const (JS.sub (JInt now) (Signed.creationTime photo))
    (365 * (1000 * 60 * 60 * 24)).

(** [[...new Set(categories)]]: first occurrences, in order. *)
Fixpoint uniqueCategories (seen : list PhotoCategory) (cs : list PhotoCategory)
  : list PhotoCategory :=
  match cs with
  | [] => []
  | c :: rest =>
      if bool_decide (c ∈ seen) then uniqueCategories seen rest
      else c :: uniqueCategories (c :: seen) rest
  end.

(** The duplicates of the photo at [index]: the signature pass, then the
    file-name pass when it found fewer than ten. *)
Definition findDuplicates (photosWithSignatures : list Signed.t)
    (signatureMap : gmap string (list (Signed.t * nat)))
    (index : nat) (photo : Signed.t) : list Signed.t * gset string :=
  let sameSignaturePhotos := default [] (signatureMap !! Signed.signature photo) in
  let '(duplicates, duplicateIds) := signaturePass index sameSignaturePhotos in
  if length duplicates <? 10
  then filenamePass index (filenameBase (Signed.uri photo)) 0 photosWithSignatures
         duplicates duplicateIds
  else (duplicates, duplicateIds).

(** One turn of the second pass: the record pushed on [categorized]. *)
Definition categorize (now : Z) (photosWithSignatures : list Signed.t)
    (signatureMap : gmap string (list (Signed.t * nat)))
    (index : nat) (photo : Signed.t) : Categorized.t :=
  let '(duplicates, duplicateIds) :=
    findDuplicates photosWithSignatures signatureMap index photo in
  let similar :=
    if length duplicates =? 0
    then similarPass photosWithSignatures index photo duplicateIds
    else [] in
  let categories1 := if 0 <? length duplicates then [DUPLICATE] else [] in
  let categories2 :=
    if 0 <? length similar
    then categories1 ++ [if 2 <? length similar then BURST else SIMILAR]
    else categories1 in
  let similarCount := if 0 <? length similar then Some (length similar) else None in
  let categories3 :=
    if isScreenshot photo then categories2 ++ [SCREENSHOT] else categories2 in
  let categories4 :=
    if isLowQuality photo then categories3 ++ [LOW_QUALITY] else categories3 in
  let categories5 :=
    if isOldUnused now photo then categories4 ++ [OLD_UNUSED] else categories4 in
  Categorized.mk (Signed.photo photo) (Signed.signature photo) similarCount
    (uniqueCategories [] categories5)
    (0 <? length duplicates)
    (map Signed.id duplicates)
    (length duplicates).

(** [Math.round(50 + ((index + 1) / length) * 45)], on doubles. *)
Definition categorizationProgress (index len : nat) : Z :=
  math_round
    (PrimFloat.add (float_of_Z 50)
       (PrimFloat.mul
          (PrimFloat.div (float_of_Z (Z.of_nat (index + 1))) (float_of_Z (Z.of_nat len)))
          (float_of_Z 45))).

(** The second pass, from position [index] on; [clock index] is what
    [Date.now()] returns in turn [index]. *)
Fixpoint categorizeLoop (clock : nat -> Z) (onProgress : bool)
    (photosWithSignatures : list Signed.t)
    (signatureMap : gmap string (list (Signed.t * nat)))
    (index : nat) (rest : list Signed.t)
    (categorized : list Categorized.t) (trace : list Z)
  : list Categorized.t * list Z :=
  match rest with
  | [] => (categorized, trace)
  | photo :: rest' =>
      let categorized' :=
        categorized
        ++ [categorize (clock index) photosWithSignatures signatureMap index photo] in
      let trace' :=
        if onProgress
           && ((index mod 25 =? 0) || (index =? length photosWithSignatures - 1))
        then trace ++ [categorizationProgress index (length photosWithSignatures)]
        else trace in
      categorizeLoop clock onProgress photosWithSignatures signatureMap
        (S index) rest' categorized' trace'
  end.

(** [detectDuplicatesAndSimilar(photos, onProgress)]: the array it
    resolves to and the values it passed to [onProgress], in order.
    [photos = None] is a null or undefined argument; [onProgress] tells
    whether a callback was supplied. *)
Definition detectDuplicatesAndSimilar (clock : nat -> Z)
    (photos : option (list Photo.t)) (onProgress : bool)
  : list Categorized.t * list Z :=
  match photos with
  | None => ([], [])
  | Some photos =>
      if length photos =? 0 then ([], [])
      else
        let '(photosWithSignatures, trace1) := signaturePhase photos onProgress in
        let signatureMap := groupBySignature photosWithSignatures in
        let trace2 := if onProgress then trace1 ++ [50%Z] else trace1 in
        let '(categorized, trace3) :=
          categorizeLoop clock onProgress photosWithSignatures signatureMap
            0 photosWithSignatures [] trace2 in
        let trace4 := if onProgress then trace3 ++ [100%Z] else trace3 in
        (categorized, trace4)
  end.

(** *** Duplicate groups *)

(** The inner [forEach] over [photo.duplicateIds]. *)
Definition collectGroup (categorizedPhotos : list Categorized.t)
    (photo : Categorized.t) (processed : gset string)
  : list Categorized.t * gset string :=
  foldl
    (fun (acc : list Categorized.t * gset string) (dupId : string) =>
       let '(group, processed) := acc in
       match List.find (fun p => String.eqb (Categorized.id p) dupId) categorizedPhotos with
       | Some dupPhoto =>
           if bool_decide (dupId ∈ processed) then (group, processed)
           else (group ++ [dupPhoto], {[ dupId ]} ∪ processed)
       | None => (group, processed)
       end)
    ([photo], processed)
    (Categorized.duplicateIds photo).

(** [getDuplicateGroups(categorizedPhotos)]; [duplicateIds] is an array
    on every record of type [Categorized.t], so [if (photo.duplicateIds)]
    is taken. *)
Definition getDuplicateGroups (categorizedPhotos : list Categorized.t)
  : list (list Categorized.t) :=
  let duplicates := List.filter Categorized.isDuplicate categorizedPhotos in
  fst
    (foldl
       (fun (acc : list (list Categorized.t) * gset string) (photo : Categorized.t) =>
          let '(groups, processed) := acc in
          if bool_decide (Categorized.id photo ∈ processed) then (groups, processed)
          else
            let '(group, processed1) := collectGroup categorizedPhotos photo processed in
            if 1 <? length group
            then (groups ++ [group], {[ Categorized.id photo ]} ∪ processed1)
            else (groups, processed1))
       ([], ∅)
       duplicates).

End Detection.


(** ** The pipeline on a store of objects

    The same function with the objects it touches laid out in a store,
    to follow what it allocates and what it assigns to.  A cell is an
    object or an array of references; the arrays the function creates
    for its own use ([photosWithSignatures], [duplicates], [similar],
    [categorized]) are kept as lists of references, and [categorized] is
    placed in the store when it is returned. *)

Module Store.
Import JS ImageHashing Detection.

Local Open Scope nat_scope.

Abbreviation loc := nat (only parsing).

(** An object: the six properties of a photo and, present or not, the
    properties the pipeline adds. *)
Record object : Type := mkObject {
  photo : Photo.t;
  signature : option string;
  similarCount : option nat;
  categories : option (list PhotoCategory);
  isDuplicate : option bool;
  duplicateIds : option (list string);
  duplicateCount : option nat;
}.

Inductive cell : Type :=
| Obj (o : object)
| Arr (elems : list nat).

Abbreviation store := (list cell) (only parsing).

Definition readObject (h : store) (l : loc) : option object :=
  match h !! l with
  | Some (Obj o) => Some o
  | _ => None
  end.

Definition readArray (h : store) (l : loc) : option (list nat) :=
  match h !! l with
  | Some (Arr elems) => Some elems
  | _ => None
  end.

(** A new cell gets the next free address. *)
Definition alloc (h : store) (c : cell) : store * loc := (h ++ [c], length h).

Definition writeObject (h : store) (l : loc) (o : object) : store :=
  <[l := Obj o]> h.

(** What the second pass reads of an element of [photosWithSignatures]. *)
Definition signedView (o : object) : Signed.t :=
  Signed.mk (photo o) (default EmptyString (signature o)).

Definition readSigned (h : store) (l : loc) : option Signed.t :=
  signedView <$> readObject h l.

(** [{...photo, signature}]: a new object with the properties of [o] and
    its signature. *)
Definition withSignature (o : object) : object :=
  mkObject (photo o) (Some (generateImageSignature (photo o)))
    (similarCount o) (categories o) (isDuplicate o)
    (duplicateIds o) (duplicateCount o).

(** [photosWithSignatures.push({...photo, signature})] for every element
    of [photos], in order. *)
Fixpoint signAll (h : store) (elems : list nat) (photosWithSignatures : list nat)
  : option (store * list nat) :=
  match elems with
  | [] => Some (h, photosWithSignatures)
  | l :: rest =>
      match readObject h l with
      | None => None
      | Some o =>
          let '(h1, l1) := alloc h (Obj (withSignature o)) in
          signAll h1 rest (photosWithSignatures ++ [l1])
      end
  end.

(** The assignments [photo.duplicateCount = ...], [photo.duplicateIds = ...]
    and [photo.similarCount = ...] of one turn. *)
Definition annotate (o : object) (out : Categorized.t) : object :=
  let o1 :=
    if Categorized.isDuplicate out
    then mkObject (photo o) (signature o) (similarCount o) (categories o)
           (isDuplicate o)
           (Some (Categorized.duplicateIds out))
           (Some (Categorized.duplicateCount out))
    else o in
  match Categorized.similarCount out with
  | Some n =>
      mkObject (photo o1) (signature o1) (Some n) (categories o1)
        (isDuplicate o1) (duplicateIds o1) (duplicateCount o1)
  | None => o1
  end.

(** [{...photo, categories, isDuplicate, duplicateIds, duplicateCount}]. *)
Definition outputObject (o : object) (out : Categorized.t) : object :=
  mkObject (photo o) (signature o) (similarCount o)
    (Some (Categorized.categories out))
    (Some (Categorized.isDuplicate out))
    (Some (Categorized.duplicateIds out))
    (Some (Categorized.duplicateCount out)).

(** One turn of the second pass on the element at [l].  The signature
    map holds references to the elements of [photosWithSignatures]; what
    a turn reads through them, and through [photosWithSignatures]
    itself, are the photo properties and the signature, so both are
    read off the store as it is when the turn starts. *)
Definition categorizeAt (now : Z) (photosWithSignatures : list nat)
    (index : nat) (l : loc) (h : store) : option (store * loc) :=
  match mapM (readSigned h) photosWithSignatures, readObject h l with
  | Some signed, Some o =>
      let out :=
        categorize now signed (groupBySignature signed) index (signedView o) in
      let o' := annotate o out in
      let h1 := writeObject h l o' in
      Some (alloc h1 (Obj (outputObject o' out)))
  | _, _ => None
  end.

Fixpoint categorizeAll (clock : nat -> Z) (photosWithSignatures : list nat)
    (index : nat) (rest : list nat) (h : store) (categorized : list nat)
  : option (store * list nat) :=
  match rest with
  | [] => Some (h, categorized)
  | l :: rest' =>
      match categorizeAt (clock index) photosWithSignatures index l h with
      | None => None
      | Some (h1, lo) =>
          categorizeAll clock photosWithSignatures (S index) rest' h1
            (categorized ++ [lo])
      end
  end.

(** [detectDuplicatesAndSimilar(photos)] on the store [h]: [None] when a
    reference does not lead to a cell of the expected kind, otherwise the
    final store and the address of the returned array. *)
Definition detectDuplicatesAndSimilar (clock : nat -> Z) (h : store)
    (photos : option nat) : option (store * loc) :=
  match photos with
  | None => Some (alloc h (Arr []))
  | Some a =>
      match readArray h a with
      | None => None
      | Some elems =>
          if length elems =? 0 then Some (alloc h (Arr []))
          else
            match signAll h elems [] with
            | None => None
            | Some (h1, photosWithSignatures) =>
                match categorizeAll clock photosWithSignatures 0
                        photosWithSignatures h1 [] with
                | None => None
                | Some (h2, categorized) => Some (alloc h2 (Arr categorized))
                end
            end
      end
  end.

(** The argument is well formed in [h]: an array whose elements are
    addresses of objects. *)
Definition wellFormed (h : store) (a : loc) : Prop :=
  exists elems, readArray h a = Some elems
                /\ Forall (fun l => is_Some (readObject h l)) elems.

(** An input object as the pipeline's caller builds it: the six photo
    properties and nothing else. *)
Definition plain (p : Photo.t) : object :=
  mkObject p None None None None None None.

(** The object a returned record stands for. *)
Definition ofCategorized (c : Categorized.t) : object :=
  mkObject (Categorized.photo c) (Some (Categorized.signature c))
    (Categorized.similarCount c)
    (Some (Categorized.categories c))
    (Some (Categorized.isDuplicate c))
    (Some (Categorized.duplicateIds c))
    (Some (Categorized.duplicateCount c)).

(** The state of the store when turn [k] of the second pass starts, for
    an input of plain [photos]: the elements of [photosWithSignatures]
    sit at [base], [base + 1], ...; each has its photo and signature, and
    those not yet visited have no [similarCount]. *)
Definition signedAt (photos : list Photo.t) (base k : nat) (h : store) : Prop :=
  base + length photos <= length h
  /\ forall j p, photos !! j = Some p ->
       exists o, readObject h (base + j) = Some o
                 /\ photo o = p
                 /\ signature o = Some (generateImageSignature p)
                 /\ (k <= j -> similarCount o = None).

End Store.


(** ** Reference definitions for the statements *)

Module Spec.
Import JS ImageHashing Detection.

Local Open Scope nat_scope.

(** What the batches report, from [batchStart] on: one value per batch. *)
Fixpoint batchReports (fuel : nat) (total batchStart : nat) : list Z :=
  match fuel with
  | O => []
  | S fuel' =>
      if total <=? batchStart then []
      else batchProgress (Nat.min (batchStart + batchSize) total) total
           :: batchReports fuel' total (batchStart + batchSize)
  end.


(** The rolling hash in the words of the specification:
    [h <- h * 31 + charCode], wrapped to 32 bits after every step. *)
Fixpoint rollingHash (h : Z) (str : string) : Z :=
  match str with
  | EmptyString => h
  | String c rest => rollingHash (to_int32 (h * 31 + charCode c)%Z) rest
  end.


(** Reading a base-36 numeral: digits [0-9] then [a-z]. *)
Definition digitValue36 (c : ascii) : Z :=
  let n := charCode c in
  if (n <? 58)%Z then (n - 48)%Z else (n - 97 + 10)%Z.

Fixpoint value36_from (v : Z) (s : string) : Z :=
  match s with
  | EmptyString => v
  | String c rest => value36_from (v * 36 + digitValue36 c)%Z rest
  end.

Definition value36 (s : string) : Z := value36_from 0 s.

(** The photos of [rest], numbered from [i], that carry signature [s]. *)
Definition entriesWith (s : string) (i : nat) (rest : list Signed.t)
  : list (Signed.t * nat) :=
  filter (fun e : Signed.t * nat => Signed.signature e.1 = s)
    (imap (fun k p => (p, i + k)) rest).

(** The set of ids follows the list of duplicates. *)
Definition idsOf (duplicates : list Signed.t) (duplicateIds : gset string) : Prop :=
  forall x, x ∈ duplicateIds <-> x ∈ map Signed.id duplicates.

(** How many returned records carry the signature of [o] ([o] itself
    included when it is one of them). *)
Definition sameSignatureCount (out : list Categorized.t) (o : Categorized.t) : nat :=
  length
    (filter (fun o' => Categorized.signature o' = Categorized.signature o) out).

(** The duplicates of the photo at [index] found through the signature
    map: the other photos with its signature, in order. *)
Definition signatureDuplicates (pws : list Signed.t) (index : nat)
    (photo : Signed.t) : list Signed.t :=
  map fst
    (filter (fun e : Signed.t * nat => e.2 <> index)
       (entriesWith (Signed.signature photo) 0 pws)).

#[global] Instance Qlt_decision (x y : Q) : Decision (x < y)%Q :=
  match Qlt_le_dec x y with
  | left H => left H
  | right H => right (Qle_not_lt _ _ H)
  end.

(** A neighbour [q] of [p] that counts as similar, in the words of the
    specification: same width and height, sizes closer than
    max(0.1 * size of p, 10000) bytes, creation times closer than
    60000 ms. *)
Definition similarNeighbour (p q : Photo.t) : bool :=
  strict_eq (Photo.width p) (Photo.width q)
  && strict_eq (Photo.height p) (Photo.height q)
  && match Photo.size p, Photo.size q with
     | JInt s1, JInt s2 =>
         bool_decide
           (inject_Z (Z.abs (s1 - s2))
            < Qmax ((1 # 10) * inject_Z s1) (inject_Z 10000))%Q
     | _, _ => false
     end
  && match Photo.creationTime p, Photo.creationTime q with
     | JInt t1, JInt t2 => (Z.abs (t1 - t2) <? 60000)%Z
     | _, _ => false
     end.

Definition similarAt (photos : list Photo.t) (index j : nat) : bool :=
  match photos !! index, photos !! j with
  | Some p, Some q => similarNeighbour p q
  | _, _ => false
  end.

(** The number of similar neighbours of the photo at [index]: the
    positions [j] other than [index], at most [before] places before it
    and at most [after] places after it, whose photo is similar. *)
Definition neighbourCount (before after : nat) (photos : list Photo.t)
    (index : nat) : nat :=
  length
    (filter
       (fun j => j <> index /\ index <= j + before /\ j <= index + after
                 /\ similarAt photos index j = true)
       (seq 0 (length photos))).

(** No photo id occurs in two groups of the list. *)
Definition groupsDisjoint (groups : list (list Categorized.t)) : Prop :=
  forall i j g1 g2 x,
    groups !! i = Some g1 -> groups !! j = Some g2 ->
    x ∈ map Categorized.id g1 -> x ∈ map Categorized.id g2 -> i = j.

(** A sequence of reported values never goes down. *)
Definition nonDecreasing (values : list Z) : Prop :=
  forall i a b, values !! i = Some a -> values !! S i = Some b -> (a <= b)%Z.



End Spec.

(** ** Sample inputs *)

Module Samples.
Import JS Detection.

Definition clock (_ : nat) : Z := 1700000000000%Z.

Definition img1 : Photo.t :=
  Photo.mk "a1" "file:///DCIM/IMG_001.jpg"
    (JInt 1080) (JInt 1920) (JInt 500000) (JInt 1700000000000).

Definition img1copy : Photo.t :=
  Photo.mk "a2" "file:///DCIM/IMG_001 (1).jpg"
    (JInt 1080) (JInt 1920) (JInt 500400) (JInt 1700000003000).

Definition large : Photo.t :=
  Photo.mk "a3" "file:///DCIM/pano.jpg"
    (JInt 2000) (JInt 2000) (JInt 300000) (JInt 1700000000000).

(** No dimensions known: the caller stores zero for both. *)
Definition flat : Photo.t :=
  Photo.mk "a4" "file:///DCIM/thumb.jpg"
    (JInt 0) (JInt 0) (JInt 100) (JInt 1700000000000).

(** A record without [size]. *)
Definition sizeless : Photo.t :=
  Photo.mk "a5" "file:///DCIM/raw.jpg"
    (JInt 100) (JInt 200) JUndefined (JInt 1700000000000).

(** Another photo and its copy. *)
Definition img2 : Photo.t :=
  Photo.mk "b1" "file:///DCIM/IMG_002.jpg"
    (JInt 3000) (JInt 4000) (JInt 2500000) (JInt 1700000900000).

Definition img2copy : Photo.t :=
  Photo.mk "b2" "file:///DCIM/IMG_002-copy.jpg"
    (JInt 3000) (JInt 4000) (JInt 2500000) (JInt 1700000900000).

Definition album : list Photo.t := [img1; img2; img1copy; img2copy].

(** Twelve files with the same normalised name: number 0 to 10 agree on
    every quantised property, number 11 has another size. *)
Definition crowdPhoto (k : nat) : Photo.t :=
  Photo.mk
    (String.append "c" (string_of_Z (Z.of_nat k)))
    (String.append "file:///DCIM/a ("
       (String.append (string_of_Z (Z.of_nat k)) ").jpg"))
    (JInt 800) (JInt 600)
    (JInt (if (k =? 11)%nat then 999000 else 120000))
    (JInt 1700000000000).

Definition crowd : list Photo.t := map crowdPhoto (seq 0 12).

(** Twenty-six photos with different names.  Number 0 and number 25
    have the same dimensions and size and were taken 25 seconds apart;
    the photos between them all have other widths. *)
Definition stripPhoto (k : nat) : Photo.t :=
  Photo.mk
    (String.append "s" (string_of_Z (Z.of_nat k)))
    (String.append "file:///DCIM/p"
       (String.append (string_of_Z (Z.of_nat k)) ".jpg"))
    (JInt (if (k =? 25)%nat then 640 else 640 + Z.of_nat k))
    (JInt 480)
    (JInt 200000)
    (JInt (1700000000000 + 1000 * Z.of_nat k)).

Definition strip : list Photo.t := map stripPhoto (seq 0 26).

End Samples.

(** ** The remaining image hashing utilities *)

Module Similarity.
Import JS Regex ImageHashing.

Local Open Scope nat_scope.

(** The loop of [calculateSimilarity]:
    [for (let i = 0; i < minLength; i++) if (sig1[i] !== sig2[i]) distance++]. *)
Definition hammingLoop (sig1 sig2 : string) (minLength : nat) : nat :=
  foldl
    (fun distance i =>
       if bool_decide (String.get i sig1 = String.get i sig2)
       then distance else S distance)
    0
    (seq 0 minLength).

(** [calculateSimilarity(sig1, sig2)]: the quotient
    [distance / Math.max(sig1.length, sig2.length)], as a rational. *)
Definition calculateSimilarity (sig1 sig2 : string) : Q :=
  if String.eqb sig1 sig2 then 0%Q
  else
    let minLength := Nat.min (String.length sig1) (String.length sig2) in
    let distance := hammingLoop sig1 sig2 minLength in
    (inject_Z (Z.of_nat distance)
     / inject_Z (Z.of_nat (Nat.max (String.length sig1) (String.length sig2))))%Q.

(** The three replacements without [toLowerCase], as
    [areLikelyDuplicatesByFilename] applies them to a file name. *)
Definition nameBase (name : string) : string :=
  remove_trailing_number (remove_first_copy (remove_counters name)).

(** [areLikelyDuplicatesByFilename(uri1, uri2)]:
    [base1 === base2 && name1 !== name2]. *)
Definition areLikelyDuplicatesByFilename (uri1 uri2 : string) : bool :=
  let name1 := extractFileName uri1 in
  let name2 := extractFileName uri2 in
  String.eqb (nameBase name1) (nameBase name2) && negb (String.eqb name1 name2).

End Similarity.

(** ** Grouping by category *)

Module Grouping.
Import JS Detection.

Local Open Scope nat_scope.

(** The values of the [PhotoCategory] object: the label texts. *)
Definition categoryName (c : PhotoCategory) : string :=
  match c with
  | DUPLICATE => "duplicate"
  | SIMILAR => "similar"
  | SCREENSHOT => "screenshot"
  | LOW_QUALITY => "low_quality"
  | BURST => "burst"
  | OLD_UNUSED => "old_unused"
  end.

(** The object [grouped] as it is created: six keys, six empty arrays. *)
Definition emptyGroups : gmap string (list Categorized.t) :=
  <[categoryName OLD_UNUSED := []]>
    (<[categoryName BURST := []]>
       (<[categoryName LOW_QUALITY := []]>
          (<[categoryName SCREENSHOT := []]>
             (<[categoryName SIMILAR := []]>
                (<[categoryName DUPLICATE := []]> ∅))))).

(** [if (grouped[category]) grouped[category].push(photo)]. *)
Definition pushToGroup (photo : Categorized.t)
    (grouped : gmap string (list Categorized.t)) (category : PhotoCategory)
  : gmap string (list Categorized.t) :=
  match grouped !! categoryName category with
  | Some members => <[categoryName category := members ++ [photo]]> grouped
  | None => grouped
  end.

(** [groupPhotosByCategory(categorizedPhotos)]. *)
Definition groupPhotosByCategory (categorizedPhotos : list Categorized.t)
  : gmap string (list Categorized.t) :=
  foldl
    (fun grouped photo =>
       foldl (pushToGroup photo) grouped (Categorized.categories photo))
    emptyGroups
    categorizedPhotos.

End Grouping.

(** ** The caller's photo records *)

Module Caller.
Import JS.

(** A media-library asset as [loadPhotos] of the swipe screen reads it. *)
Record asset : Type := mkAsset {
  assetId : string;
  assetUri : string;
  assetWidth : jsval;
  assetHeight : jsval;
  fileSize : jsval;
  assetCreationTime : jsval;
}.

(** [x || 0] on a numeric property: [undefined], [NaN] and [0] are falsy. *)
Definition orZero (v : jsval) : jsval :=
  match v with
  | JInt z => if (z =? 0)%Z then JInt 0 else JInt z
  | JUndefined | JNaN => JInt 0
  end.

(** [allAssets.map(asset => ({ id, uri, width: asset.width || 0,
    height: asset.height || 0, size: asset.fileSize || 0,
    creationTime: asset.creationTime * 1000 }))], on one asset. *)
Definition toPhotoData (a : asset) : Photo.t :=
  Photo.mk (assetId a) (assetUri a)
    (orZero (assetWidth a)) (orZero (assetHeight a)) (orZero (fileSize a))
    (JS.mul (assetCreationTime a) (JInt 1000)).

(** [p.categories?.includes(c)]: [categories] is an array on every
    record the pipeline returns. *)
Definition includes (c : Detection.PhotoCategory) (p : Detection.Categorized.t)
  : bool :=
  bool_decide (c ∈ Detection.Categorized.categories p).

(** The cleanup modes that filter [processedPhotos] and keep its order:
    ['screenshots'], ['duplicates'] and ['lowquality']. *)
Definition screenshotsMode (processedPhotos : list Detection.Categorized.t)
  : list Detection.Categorized.t :=
  List.filter (includes Detection.SCREENSHOT) processedPhotos.

Definition duplicatesMode (processedPhotos : list Detection.Categorized.t)
  : list Detection.Categorized.t :=
  List.filter
    (fun p => Detection.Categorized.isDuplicate p
              || includes Detection.DUPLICATE p
              || includes Detection.SIMILAR p)
    processedPhotos.

Definition lowQualityMode (processedPhotos : list Detection.Categorized.t)
  : list Detection.Categorized.t :=
  List.filter (includes Detection.LOW_QUALITY) processedPhotos.

End Caller.

(** ** Storage utilities

    [AsyncStorage] keeps one item per key, the JSON text of an array.
    The model keeps the array itself: [JSON.parse (JSON.stringify l)] is
    taken to be [l], and the functions below read nothing of an entry
    but its [id] and the numbers of a session.  An item that was never
    written is [None]; [getItem] then gives [null] and the reader
    returns [[]].  Each call of [getItem] or [setItem] may be rejected;
    the outcome of each call is an argument. *)

Module Storage.
Import JS Detection.

Local Open Scope nat_scope.

Inductive outcome : Type :=
| Resolved
| Rejected.

(** [{...photo, deletedAt: Date.now()}]. *)
Record deletedPhoto : Type := mkDeleted {
  deleted_photo : Categorized.t;
  deletedAt : Z;
}.

(** The statistics of a cleanup session, as the review screen builds
    them, and the stored [{...stats, timestamp: Date.now()}]. *)
Record stats : Type := mkStats {
  deleted : jsval;
  kept : jsval;
  favorited : jsval;
  storageCleared : jsval;
}.

Record session : Type := mkSession {
  session_stats : stats;
  timestamp : Z;
}.

(** The three items the functions use. *)
Record items : Type := mkItems {
  deletedPhotos : option (list deletedPhoto);
  favoritePhotos : option (list Categorized.t);
  cleanupHistory : option (list session);
}.

(** [data ? JSON.parse(data) : []] inside [try], [return []] in [catch]. *)
Definition readItem {A} (read : outcome) (item : option (list A)) : list A :=
  match read with
  | Rejected => []
  | Resolved => default [] item
  end.

Definition getDeletedPhotos (read : outcome) (st : items) : list deletedPhoto :=
  readItem read (deletedPhotos st).

Definition getFavoritePhotos (read : outcome) (st : items) : list Categorized.t :=
  readItem read (favoritePhotos st).

Definition getCleanupHistory (read : outcome) (st : items) : list session :=
  readItem read (cleanupHistory st).

(** [saveDeletedPhoto(photo)]; [now] is the reading of [Date.now()].  A
    rejected [setItem] is caught and logged. *)
Definition saveDeletedPhoto (read write : outcome) (now : Z)
    (photo : Categorized.t) (st : items) : items :=
  let deleted := getDeletedPhotos read st in
  let deleted' := deleted ++ [mkDeleted photo now] in
  match write with
  | Resolved => mkItems (Some deleted') (favoritePhotos st) (cleanupHistory st)
  | Rejected => st
  end.

(** [restorePhoto(photoId)]: [true] when the write went through. *)
Definition restorePhoto (read write : outcome) (photoId : string) (st : items)
  : bool * items :=
  let deleted := getDeletedPhotos read st in
  let filtered :=
    List.filter
      (fun p => negb (String.eqb (Categorized.id (deleted_photo p)) photoId))
      deleted in
  match write with
  | Resolved => (true, mkItems (Some filtered) (favoritePhotos st) (cleanupHistory st))
  | Rejected => (false, st)
  end.

(** [saveFavoritePhoto(photo)]. *)
Definition saveFavoritePhoto (read write : outcome) (photo : Categorized.t)
    (st : items) : items :=
  let favorites := getFavoritePhotos read st in
  match List.find
          (fun p => String.eqb (Categorized.id p) (Categorized.id photo))
          favorites with
  | Some _ => st
  | None =>
      match write with
      | Resolved =>
          mkItems (deletedPhotos st) (Some (favorites ++ [photo])) (cleanupHistory st)
      | Rejected => st
      end
  end.

(** [history.slice(-50)]: the last fifty elements. *)
Definition lastFifty {A} (l : list A) : list A := drop (length l - 50) l.

(** [saveCleanupSession(stats)]. *)
Definition saveCleanupSession (read write : outcome) (now : Z) (s : stats)
    (st : items) : items :=
  let history := getCleanupHistory read st in
  let recent := lastFifty (history ++ [mkSession s now]) in
  match write with
  | Resolved => mkItems (deletedPhotos st) (favoritePhotos st) (Some recent)
  | Rejected => st
  end.



Definition getMarkedDeletionCount (read : outcome) (st : items) : nat :=
  length (getDeletedPhotos read st).

End Storage.

(** ** More sample inputs *)

Module Samples2.
Import JS Detection Storage.

Definition out_album : list Categorized.t :=
  fst (detectDuplicatesAndSimilar Samples.clock (Some Samples.album) false).

Definition fav1 : Categorized.t :=
  Categorized.mk Samples.img1 "64wxna" None [SCREENSHOT] false [] 0.

Definition fav2 : Categorized.t :=
  Categorized.mk Samples.img2 "x" None [] false [] 0.

Definition session1 : stats := mkStats (JInt 3) (JInt 0) (JInt 0) (JInt 4500000).

Definition noItems : items := mkItems None None None.

End Samples2.

(** ** Reference definitions for the further statements *)

Module Spec2.
Import JS ImageHashing Detection.

Local Open Scope nat_scope.

(** The number of positions, up to the end of the shorter string, where
    two strings differ. *)
Fixpoint hamming (s1 s2 : string) : nat :=
  match s1, s2 with
  | String c1 r1, String c2 r2 =>
      (if bool_decide (c1 = c2) then 0 else 1) + hamming r1 r2
  | _, _ => 0
  end.

(** The string contains no [/]. *)
Fixpoint noSlash (s : string) : bool :=
  match s with
  | EmptyString => true
  | String c r => negb (Ascii.eqb c "/"%char) && noSlash r
  end.

(** A digit of a base-36 numeral: [0-9] or [a-z]. *)
Definition isBase36Digit (c : ascii) : bool :=
  let n := charCode c in
  (((48 <=? n) && (n <=? 57)) || ((97 <=? n) && (n <=? 122)))%Z.

Fixpoint allChars (f : ascii -> bool) (s : string) : bool :=
  match s with
  | EmptyString => true
  | String c r => f c && allChars f r
  end.

(** A group of duplicates of the list [l]: a record of [l] with
    [isDuplicate] set, followed by at least one record of [l] whose id
    it lists. *)
Definition duplicateGroup (l g : list Categorized.t) : Prop :=
  match g with
  | head :: rest =>
      rest <> []
      /\ head ∈ l
      /\ Categorized.isDuplicate head = true
      /\ Forall
           (fun m => m ∈ l
                     /\ Categorized.id m ∈ Categorized.duplicateIds head)
           rest
  | [] => False
  end.

(** The ids of the stored deleted photos and of the stored favorites,
    as a reader that succeeds sees them. *)
Definition deletedIds (st : Storage.items) : list string :=
  map (fun d => Categorized.id (Storage.deleted_photo d))
    (Storage.getDeletedPhotos Storage.Resolved st).

Definition favoriteIds (st : Storage.items) : list string :=
  map Categorized.id (Storage.getFavoritePhotos Storage.Resolved st).

End Spec2.

(** * Properties *)

Import JS Regex ImageHashing Detection Spec.

(** Closed decidable facts about the sample inputs, by evaluation. *)
Ltac by_evaluation :=
  lazymatch goal with
  | |- ?P => refine (@bool_decide_unpack P _ _); vm_compute; exact I
  end.

(** ** The model on small inputs *)

Section Examples.

Example simpleHash_hello : simpleHash "hello world" = "to5x38"%string.
Proof. reflexivity. Qed.

Example simpleHash_empty : simpleHash "" = "0"%string.
Proof. reflexivity. Qed.

Example toString36_min_int : toString36 (Z.abs (- 2 ^ 31)) = "zik0zk"%string.
Proof. reflexivity. Qed.

Example signatureString_img1 :
  signatureString Samples.img1 = "1080|1920|500|28333333|img_001.jpg"%string.
Proof. reflexivity. Qed.

Example signatureString_sizeless :
  signatureString Samples.sizeless = "100|200|NaN|28333333|raw.jpg"%string.
Proof. reflexivity. Qed.

Example remove_counters_all :
  remove_counters "IMG(1)  (22) x (3).JPG" = "IMGx.JPG"%string.
Proof. reflexivity. Qed.

Example remove_first_copy_once :
  remove_first_copy "a-Copy-copy.jpg" = "a-copy.jpg"%string.
Proof. reflexivity. Qed.

Example remove_trailing_number_end_only :
  remove_trailing_number "scan-12-7" = "scan-12"%string
  /\ remove_trailing_number "scan-12.jpg" = "scan-12.jpg"%string.
Proof. split; reflexivity. Qed.

Example round_div_ties :
  round_div (JInt 1499) 1000 = JInt 1 /\ round_div (JInt 1500) 1000 = JInt 2
  /\ round_div (JInt (-1500)) 1000 = JInt (-1).
Proof. repeat split; reflexivity. Qed.

(** The double rounding of the progress formula: 1150/2000*100 is
    57.49999999999999 in binary64. *)
Example batchProgress_double_rounding :
  batchProgress 1150 2000 = 57%Z /\ batchProgress 50 2000 = 3%Z
  /\ batchProgress 7 7 = 100%Z.
Proof. repeat split; vm_compute; reflexivity. Qed.

Example categories_album :
  map Categorized.categories
    (fst (detectDuplicatesAndSimilar Samples.clock (Some Samples.album) false))
  = [[DUPLICATE; SCREENSHOT]; [DUPLICATE]; [DUPLICATE; SCREENSHOT]; [DUPLICATE]].
Proof. vm_compute. reflexivity. Qed.

Example trace_album :
  snd (detectDuplicatesAndSimilar Samples.clock (Some Samples.album) true)
  = [100; 50; 61; 95; 100]%Z.
Proof. vm_compute. reflexivity. Qed.

Example groups_album :
  map (map Categorized.id)
    (getDuplicateGroups
       (fst (detectDuplicatesAndSimilar Samples.clock (Some Samples.album) false)))
  = [["a1"; "a2"]; ["b1"; "b2"]]%string.
Proof. vm_compute. reflexivity. Qed.

End Examples.

Section SignaturePhase.

Local Open Scope nat_scope.

Lemma signBatch_spec photos n : forall batchStart acc,
  batchStart + n <= length photos ->
  signBatch photos batchStart (batchStart + n) acc
  = acc ++ map withSignature (take n (drop batchStart photos)).
Proof.
  unfold signBatch. intros a acc H.
  replace (a + n - a) with n by lia.
  revert a acc H. induction n as [|n IH]; intros a acc H; simpl.
  - by rewrite app_nil_r.
  - destruct (lookup_lt_is_Some_2 photos a) as [x Hx]; [lia|].
    rewrite Hx. rewrite IH by lia.
    rewrite (drop_S _ _ _ Hx). simpl. by rewrite <- app_assoc.
Qed.

Lemma signatureLoop_spec photos onProgress : forall fuel batchStart acc trace,
  length photos <= batchStart + fuel ->
  acc = map withSignature (take batchStart photos) ->
  signatureLoop fuel photos onProgress batchStart acc trace
  = (map withSignature photos,
     if onProgress then trace ++ batchReports fuel (length photos) batchStart
     else trace).
Proof.
  induction fuel as [|fuel IH]; intros a acc trace Hfuel Hacc; simpl.
  - rewrite take_ge in Hacc by lia. subst acc.
    destruct onProgress; by rewrite ?app_nil_r.
  - destruct (length photos <=? a) eqn:E.
    + apply Nat.leb_le in E. rewrite take_ge in Hacc by lia. subst acc.
      destruct onProgress; by rewrite ?app_nil_r.
    + apply Nat.leb_gt in E.
      rewrite IH.
      * destruct onProgress; [|done]. by rewrite <- app_assoc.
      * unfold batchSize. lia.
      * subst acc.
        assert (Hmin : Nat.min (a + batchSize) (length photos)
                       = a + (Nat.min (a + batchSize) (length photos) - a)) by lia.
        rewrite Hmin at 1. rewrite signBatch_spec by lia.
        rewrite <- map_app. f_equal.
        destruct (Nat.le_gt_cases (a + batchSize) (length photos)) as [Hle|Hgt].
        -- replace (Nat.min (a + batchSize) (length photos) - a) with batchSize by lia.
           by rewrite take_take_drop.
        -- rewrite (take_ge photos (a + batchSize)) by lia.
           rewrite (take_ge (drop a photos)).
           ++ by rewrite take_drop.
           ++ rewrite length_drop. lia.
Qed.

Lemma signaturePhase_spec photos onProgress :
  signaturePhase photos onProgress
  = (map withSignature photos,
     if onProgress then batchReports (length photos) (length photos) 0 else []).
Proof.
  unfold signaturePhase. rewrite signatureLoop_spec; [|lia|done].
  by destruct onProgress.
Qed.

End SignaturePhase.

Section CategorizationLoop.

Local Open Scope nat_scope.

Variable clock : nat -> Z.

Lemma categorizeLoop_output onProgress pws sm : forall rest index categorized trace,
  fst (categorizeLoop clock onProgress pws sm index rest categorized trace)
  = categorized
    ++ imap (fun k photo => categorize (clock (index + k)) pws sm (index + k) photo) rest.
Proof.
  induction rest as [|photo rest IH]; intros index categorized trace; simpl.
  - by rewrite app_nil_r.
  - rewrite IH. rewrite <- app_assoc. simpl. rewrite Nat.add_0_r.
    do 2 f_equal. apply imap_ext. intros k x _. simpl.
    by replace (index + S k) with (S (index + k)) by lia.
Qed.

Lemma categorizeLoop_trace onProgress pws sm : forall rest index categorized trace,
  exists more,
    snd (categorizeLoop clock onProgress pws sm index rest categorized trace)
    = trace ++ more.
Proof.
  induction rest as [|photo rest IH]; intros index categorized trace; simpl.
  - exists []. by rewrite app_nil_r.
  - destruct (onProgress && _).
    + destruct (IH (S index)
                  (categorized ++ [categorize (clock index) pws sm index photo])
                  (trace ++ [categorizationProgress index (length pws)]))
        as [more ->].
      eexists. by rewrite <- app_assoc.
    + apply IH.
Qed.

(** The values passed to the callback over a run on a non-empty input:
    the reports of the signature phase, 50, the reports of the second
    pass, 100. *)
Lemma detect_trace photos :
  photos <> [] ->
  exists more,
    snd (detectDuplicatesAndSimilar clock (Some photos) true)
    = batchReports (length photos) (length photos) 0 ++ [50%Z] ++ more ++ [100%Z].
Proof.
  intros Hne. unfold detectDuplicatesAndSimilar.
  destruct photos as [|p0 photos']; [done|].
  set (photos := p0 :: photos').
  change (length photos =? 0) with false. cbv iota.
  rewrite signaturePhase_spec.
  set (pws := map withSignature photos).
  destruct (categorizeLoop_trace true pws (groupBySignature pws) pws 0 []
              (batchReports (length photos) (length photos) 0 ++ [50%Z]))
    as [more Hmore].
  destruct (categorizeLoop _ _ _ _ _ _ _ _) as [categorized trace3].
  simpl in Hmore. subst trace3. simpl. exists more.
  by rewrite <- !app_assoc.
Qed.

(** The records the pipeline returns, one per input photo. *)
Lemma detect_output photos onProgress :
  fst (detectDuplicatesAndSimilar clock (Some photos) onProgress)
  = imap
      (fun i p =>
         categorize (clock i) (map withSignature photos)
           (groupBySignature (map withSignature photos)) i (withSignature p))
      photos.
Proof.
  unfold detectDuplicatesAndSimilar.
  destruct photos as [|p0 photos']; [done|].
  set (photos := p0 :: photos').
  change (length photos =? 0) with false. cbv iota.
  rewrite signaturePhase_spec.
  set (pws := map withSignature photos).
  set (sm := groupBySignature pws).
  pose proof (categorizeLoop_output onProgress pws sm pws 0 []
                (if onProgress
                 then (if onProgress
                       then batchReports (length photos) (length photos) 0
                       else []) ++ [50%Z]
                 else if onProgress
                      then batchReports (length photos) (length photos) 0
                      else [])) as H.
  destruct (categorizeLoop _ _ _ _ _ _ _ _) as [categorized trace3].
  simpl in H. simpl. rewrite H. unfold pws. rewrite imap_fmap. done.
Qed.

Lemma detect_lookup photos onProgress i :
  fst (detectDuplicatesAndSimilar clock (Some photos) onProgress) !! i
  = (fun p =>
       categorize (clock i) (map withSignature photos)
         (groupBySignature (map withSignature photos)) i (withSignature p))
    <$> photos !! i.
Proof. rewrite detect_output. by rewrite list_lookup_imap. Qed.

Lemma categorize_photo now pws sm index photo :
  Categorized.photo (categorize now pws sm index photo) = Signed.photo photo.
Proof. unfold categorize. by destruct (findDuplicates _ _ _ _). Qed.

Lemma categorize_signature now pws sm index photo :
  Categorized.signature (categorize now pws sm index photo) = Signed.signature photo.
Proof. unfold categorize. by destruct (findDuplicates _ _ _ _). Qed.

Lemma detect_photos photos onProgress :
  map Categorized.photo
    (fst (detectDuplicatesAndSimilar clock (Some photos) onProgress))
  = photos.
Proof.
  apply list_eq. intros i. rewrite list_lookup_fmap, detect_lookup.
  destruct (photos !! i); simpl; [|done]. by rewrite categorize_photo.
Qed.

Lemma detect_signatures photos onProgress :
  map Categorized.signature
    (fst (detectDuplicatesAndSimilar clock (Some photos) onProgress))
  = map generateImageSignature photos.
Proof.
  apply list_eq. intros i. rewrite !list_lookup_fmap, detect_lookup.
  destruct (photos !! i); simpl; [|done]. by rewrite categorize_signature.
Qed.

End CategorizationLoop.

Section Categories.

Local Open Scope nat_scope.

Lemma uniqueCategories_elem c : forall cs seen,
  c ∈ uniqueCategories seen cs <-> c ∈ cs /\ c ∉ seen.
Proof.
  induction cs as [|c' cs IH]; intros seen; simpl.
  - set_solver.
  - case_bool_decide as Hin.
    + rewrite IH. set_solver.
    + rewrite elem_of_cons, IH. 
      destruct (decide (c = c')) as [->|Hne]; set_solver.
Qed.

Lemma uniqueCategories_NoDup : forall cs seen, NoDup (uniqueCategories seen cs).
Proof.
  induction cs as [|c cs IH]; intros seen; simpl.
  - constructor.
  - case_bool_decide as Hin; [apply IH|].
    constructor; [|apply IH].
    rewrite uniqueCategories_elem. set_solver.
Qed.

Lemma categorize_NoDup now pws sm index photo :
  NoDup (Categorized.categories (categorize now pws sm index photo)).
Proof.
  unfold categorize. destruct (findDuplicates _ _ _ _). simpl.
  apply uniqueCategories_NoDup.
Qed.

(** Each of the three independent rules decides its own label. *)
Lemma categorize_independent now pws sm index photo :
  let cs := Categorized.categories (categorize now pws sm index photo) in
  (SCREENSHOT ∈ cs <-> isScreenshot photo = true)
  /\ (LOW_QUALITY ∈ cs <-> isLowQuality photo = true)
  /\ (OLD_UNUSED ∈ cs <-> isOldUnused now photo = true).
Proof.
  unfold categorize. destruct (findDuplicates _ _ _ _) as [duplicates ids]. simpl.
  set (similar := if length duplicates =? 0 then _ else _). clearbody similar.
  rewrite !uniqueCategories_elem.
  destruct (0 <? length duplicates), (0 <? length similar), (2 <? length similar),
    (isScreenshot photo), (isLowQuality photo), (isOldUnused now photo);
    simpl; repeat split; intros; try done; try set_solver.
Qed.

Lemma isLowQuality_spec photo :
  isLowQuality photo = true
  <-> exists w h s : Z,
        Signed.width photo = JInt w /\ Signed.height photo = JInt h
        /\ Signed.size photo = JInt s
        /\ (0 < w * h)%Z
        /\ ((s < 50000)%Z \/ ((1000000 < w * h)%Z /\ (10 * s < w * h)%Z)).
Proof.
  unfold isLowQuality, bytesPerPixelBelowTenth, pixels, gt_const, lt_const, JS.mul.
  destruct (Signed.width photo) as [| |w], (Signed.height photo) as [| |h];
    simpl; try (split; [done | naive_solver]).
  destruct (Z.ltb_spec 0 (w * h)).
  - destruct (Signed.size photo) as [| |s]; simpl.
    + rewrite andb_false_r. split; [done | naive_solver].
    + rewrite andb_false_r. split; [done | naive_solver].
    + rewrite orb_true_iff, andb_true_iff, !Z.ltb_lt.
      split.
      * intros Hs. exists w, h, s. repeat split; try done.
      * intros (w'&h'&s'&[= <-]&[= <-]&[= <-]&_&Hs). done.
  - split; [done|]. intros (w'&h'&s'&[= <-]&[= <-]&_&Hpos&_). lia.
Qed.

(** The scaled comparison is the comparison of the quotient with 0.1. *)
Lemma bytesPerPixel_ratio (s px : Z) :
  (0 < px)%Z ->
  (10 * s < px)%Z <-> (inject_Z s / inject_Z px < 1 # 10)%Q.
Proof.
  intros Hpx. destruct px as [|p|p]; try lia.
  unfold Qlt, Qdiv, Qmult, Qinv, inject_Z. simpl. lia.
Qed.

End Categories.

Section Output.

Local Open Scope nat_scope.

(** C2. For every input list the pipeline returns one record per input
    photo, in the input order: the i-th record carries the six
    properties of the i-th photo and its signature; an empty or null
    argument gives the empty array. *)
Theorem output_follows_input (clock : nat -> Z) (photos : list Photo.t)
    (onProgress : bool) :
  let out := fst (detectDuplicatesAndSimilar clock (Some photos) onProgress) in
  length out = length photos
  /\ map Categorized.photo out = photos
  /\ map Categorized.signature out = map generateImageSignature photos
  /\ fst (detectDuplicatesAndSimilar clock (Some []) onProgress) = []
  /\ fst (detectDuplicatesAndSimilar clock None onProgress) = [].
Proof.
  cbv zeta. repeat split.
  - rewrite detect_output. by rewrite length_imap.
  - apply detect_photos.
  - apply detect_signatures.
Qed.

(** C7, as stated, fails on a photo without pixels: its size is below
    50000 bytes and it is not labelled. *)
Lemma low_quality_needs_pixels :
  exists o,
    fst (detectDuplicatesAndSimilar Samples.clock (Some [Samples.flat]) true) !! 0
    = Some o
    /\ Photo.size (Categorized.photo o) = JInt 100
    /\ (100 < 50000)%Z
    /\ LOW_QUALITY ∉ Categorized.categories o.
Proof.
  eexists. split; [vm_compute; reflexivity|].
  split; [reflexivity|]. split; [lia|].
  simpl. rewrite !elem_of_cons, elem_of_nil. naive_solver.
Qed.

(** C7, amended. A returned record is labelled LOW_QUALITY exactly when
    its width, height and size are numbers, width*height is positive,
    and either size < 50000 or width*height > 1000000 with
    size/(width*height) < 0.1; a 2000 x 2000 photo of 300000 bytes is
    labelled. *)
Theorem low_quality_rule (clock : nat -> Z) (photos : list Photo.t)
    (onProgress : bool) (i : nat) (o : Categorized.t) :
  fst (detectDuplicatesAndSimilar clock (Some photos) onProgress) !! i = Some o ->
  (LOW_QUALITY ∈ Categorized.categories o
   <-> exists w h s : Z,
         Photo.width (Categorized.photo o) = JInt w
         /\ Photo.height (Categorized.photo o) = JInt h
         /\ Photo.size (Categorized.photo o) = JInt s
         /\ (0 < w * h)%Z
         /\ ((s < 50000)%Z
             \/ ((1000000 < w * h)%Z
                 /\ (inject_Z s / inject_Z (w * h) < 1 # 10)%Q)))
  /\ (Photo.width (Categorized.photo o) = JInt 2000 ->
      Photo.height (Categorized.photo o) = JInt 2000 ->
      Photo.size (Categorized.photo o) = JInt 300000 ->
      LOW_QUALITY ∈ Categorized.categories o).
Proof.
  rewrite detect_lookup. intros Ho.
  destruct (photos !! i) as [p|]; [|done]. injection Ho as <-.
  rewrite categorize_photo.
  destruct (categorize_independent (clock i) (map withSignature photos)
              (groupBySignature (map withSignature photos)) i (withSignature p))
    as (_ & HLQ & _).
  cbv zeta in HLQ. rewrite HLQ, isLowQuality_spec. simpl.
  assert (Hiff : forall w h s : Z, (0 < w * h)%Z ->
            ((s < 50000)%Z \/ ((1000000 < w * h)%Z /\ (10 * s < w * h)%Z))
            <-> ((s < 50000)%Z
                 \/ ((1000000 < w * h)%Z
                     /\ (inject_Z s / inject_Z (w * h) < 1 # 10)%Q))).
  { intros w h s Hpos. by rewrite (bytesPerPixel_ratio s (w * h) Hpos). }
  split.
  - split; intros (w & h & s & Hw & Hh & Hs & Hpos & Hrule);
      exists w, h, s; repeat split; try done; by apply (Hiff w h s Hpos).
  - intros Hw Hh Hs. exists 2000%Z, 2000%Z, 300000%Z.
    repeat split; try done. right. lia.
Qed.

Lemma low_quality_rule_witness :
  exists o,
    fst (detectDuplicatesAndSimilar Samples.clock (Some [Samples.large]) true) !! 0
    = Some o
    /\ LOW_QUALITY ∈ Categorized.categories o.
Proof.
  eexists. split; [vm_compute; reflexivity|].
  apply (low_quality_rule Samples.clock [Samples.large] true 0);
    vm_compute; reflexivity.
Defined.

End Output.

Section AbsentFields.

Local Open Scope nat_scope.

Lemma toString36_digits_nonempty : forall fuel n acc,
  acc <> EmptyString -> toString36_digits fuel n acc <> EmptyString.
Proof.
  induction fuel as [|fuel IH]; intros n acc Hacc; simpl; [done|].
  destruct (n / 36 =? 0)%Z; [done|]. by apply IH.
Qed.








End AbsentFields.

Section Progress.

Local Open Scope nat_scope.

(** C1, on a one-photo input with a callback: the signature phase
    reports 100, the grouping checkpoint then reports 50, so the values
    are not non-decreasing.  On every non-empty input the last value is
    100; on an empty or null input the callback is never called. *)
Theorem progress_drops_after_signature_phase (clock : nat -> Z) :
  (forall p : Photo.t,
      snd (detectDuplicatesAndSimilar clock (Some [p]) true)
      = [100; 50; 95; 100]%Z
      /\ ~ nonDecreasing (snd (detectDuplicatesAndSimilar clock (Some [p]) true)))
  /\ (forall photos : list Photo.t,
         photos <> [] ->
         last (snd (detectDuplicatesAndSimilar clock (Some photos) true))
         = Some 100%Z)
  /\ snd (detectDuplicatesAndSimilar clock (Some []) true) = []
  /\ snd (detectDuplicatesAndSimilar clock None true) = [].
Proof.
  split; [|split; [|done]].
  - intros p.
    assert (H : snd (detectDuplicatesAndSimilar clock (Some [p]) true)
                = [100; 50; 95; 100]%Z).
    { unfold detectDuplicatesAndSimilar. rewrite signaturePhase_spec. reflexivity. }
    rewrite H. split; [done|].
    intros Hmono. specialize (Hmono 0 100%Z 50%Z eq_refl eq_refl). lia.
  - intros photos Hne. destruct (detect_trace clock photos Hne) as [more ->].
    rewrite !app_assoc. apply last_snoc.
Qed.

Lemma progress_drops_after_signature_phase_witness :
  last (snd (detectDuplicatesAndSimilar Samples.clock (Some Samples.album) true))
  = Some 100%Z.
Proof.
  apply (proj1 (proj2 (progress_drops_after_signature_phase Samples.clock))).
  discriminate.
Defined.

Lemma batchReports_closed total : forall fuel k,
  total <= 50 * k + fuel ->
  batchReports fuel total (50 * k)
  = map (fun j => batchProgress (Nat.min (50 * (j + 1)) total) total)
      (seq k ((total + 49) / 50 - k)).
Proof.
  induction fuel as [|fuel IH]; intros k Hfuel; cbn [batchReports].
  - replace ((total + 49) / 50 - k) with 0; [done|].
    symmetry. apply Nat.sub_0_le. apply Nat.lt_succ_r.
      apply Nat.Div0.div_lt_upper_bound. lia.
  - destruct (total <=? 50 * k) eqn:E.
    + apply Nat.leb_le in E.
      replace ((total + 49) / 50 - k) with 0; [done|].
      symmetry. apply Nat.sub_0_le. apply Nat.lt_succ_r.
      apply Nat.Div0.div_lt_upper_bound. lia.
    + apply Nat.leb_gt in E.
      assert (Hk : k < (total + 49) / 50).
      { apply Nat.div_le_lower_bound; lia. }
      replace ((total + 49) / 50 - k) with (S ((total + 49) / 50 - S k)) by lia.
      cbn [seq map]. unfold batchSize. f_equal.
      * do 2 f_equal. lia.
      * replace (50 * k + 50) with (50 * S k) by lia. apply IH. lia.
Qed.

(** C5, as stated, fails.  With 2000 photos the first value reported is
    3, below a floor of 5; with one photo the signature phase reports
    100, outside a band that stops at 50. *)
Lemma signature_phase_has_no_floor :
  snd (signaturePhase (replicate 2000 Samples.img1) true) !! 0 = Some 3%Z
  /\ (3 < 5)%Z
  /\ snd (signaturePhase [Samples.img1] true) = [100%Z]
  /\ (50 < 100)%Z.
Proof.
  rewrite !signaturePhase_spec. simpl snd.
  split; [vm_compute; reflexivity|]. split; [lia|].
  split; [vm_compute; reflexivity|lia].
Qed.

(** C5, amended.  The signature phase signs the photos in consecutive
    chunks of 50 (the last one may be shorter) and, when a callback is
    supplied, reports exactly one value after each chunk: chunk number
    j, counted from 0, ends at chunkEnd = min(50 * (j + 1), total) and
    reports Math.round(chunkEnd / total * 100).  No floor is applied to
    the value.  These reports are the first values the callback of
    detectDuplicatesAndSimilar receives; the checkpoint 50 follows. *)
Theorem signature_phase_reports (clock : nat -> Z) (photos : list Photo.t) :
  let total := length photos in
  let reports :=
    map (fun j => batchProgress (Nat.min (50 * (j + 1)) total) total)
      (seq 0 ((total + 49) / 50)) in
  signaturePhase photos true = (map withSignature photos, reports)
  /\ signaturePhase photos false = (map withSignature photos, [])
  /\ (photos <> [] ->
      exists more,
        snd (detectDuplicatesAndSimilar clock (Some photos) true)
        = reports ++ [50%Z] ++ more ++ [100%Z]).
Proof.
  cbv zeta.
  assert (Hreports : batchReports (length photos) (length photos) 0
            = map (fun j => batchProgress (Nat.min (50 * (j + 1)) (length photos))
                              (length photos))
                (seq 0 ((length photos + 49) / 50))).
  { change 0 with (50 * 0) at 1.
    rewrite (batchReports_closed (length photos) (length photos) 0) by lia.
    by rewrite Nat.sub_0_r. }
  rewrite !signaturePhase_spec. split; [by rewrite Hreports|]. split; [done|].
  intros Hne. destruct (detect_trace clock photos Hne) as [more Hmore].
  exists more. by rewrite <- Hreports.
Qed.

Lemma signature_phase_reports_witness :
  exists more,
    snd (detectDuplicatesAndSimilar Samples.clock (Some [Samples.img1]) true)
    = [100%Z] ++ [50%Z] ++ more ++ [100%Z].
Proof.
  apply (proj2 (proj2 (signature_phase_reports Samples.clock [Samples.img1]))).
  discriminate.
Defined.

End Progress.

Section Signature.

Local Open Scope Z_scope.

Lemma to_int32_add_l a b : to_int32 (to_int32 a + b) = to_int32 (a + b).
Proof.
  unfold to_int32. f_equal.
  replace ((a + 2 ^ 31) mod 2 ^ 32 - 2 ^ 31 + b + 2 ^ 31)
    with ((a + 2 ^ 31) mod 2 ^ 32 + b) by lia.
  rewrite Zplus_mod_idemp_l. f_equal. lia.
Qed.

Lemma to_int32_mul_r k a : to_int32 (k * to_int32 a) = to_int32 (k * a).
Proof.
  unfold to_int32. f_equal.
  replace (k * ((a + 2 ^ 31) mod 2 ^ 32 - 2 ^ 31) + 2 ^ 31)
    with (k * ((a + 2 ^ 31) mod 2 ^ 32) + (2 ^ 31 - k * 2 ^ 31)) by lia.
  rewrite <- Zplus_mod_idemp_l, Zmult_mod_idemp_r, Zplus_mod_idemp_l.
  f_equal. lia.
Qed.

(** The shift-and-subtract step of the source is the multiply-by-31 step
    of the specification. *)
Lemma simpleHash_step_spec hash c :
  simpleHash_step hash c = to_int32 (hash * 31 + charCode c).
Proof.
  unfold simpleHash_step, and32, shl32. rewrite Z.land_diag.
  rewrite Z.shiftl_mul_pow2 by lia.
  replace (to_int32 (to_int32 hash * 2 ^ 5) - hash + charCode c)
    with (to_int32 (to_int32 hash * 2 ^ 5) + (charCode c - hash)) by lia.
  rewrite to_int32_add_l.
  rewrite (Z.mul_comm (to_int32 hash)).
  rewrite <- (to_int32_add_l (2 ^ 5 * to_int32 hash)), to_int32_mul_r.
  rewrite to_int32_add_l. f_equal. lia.
Qed.

Lemma simpleHash_loop_spec str : forall hash,
  simpleHash_loop hash str = rollingHash hash str.
Proof.
  induction str as [|c rest IH]; intros hash; simpl; [done|].
  by rewrite simpleHash_step_spec, IH.
Qed.


Lemma append_cons c a b :
  String.append (String c a) b = String c (String.append a b).
Proof. reflexivity. Qed.

Lemma append_nil_r a : String.append a EmptyString = a.
Proof. induction a as [|c a IH]; [done|]. by rewrite append_cons, IH. Qed.

Lemma append_assoc a b c :
  String.append (String.append a b) c = String.append a (String.append b c).
Proof. induction a as [|x a IH]; [done|]. by rewrite !append_cons, IH. Qed.

Lemma value36_from_app a : forall v b,
  value36_from v (String.append a b) = value36_from (value36_from v a) b.
Proof. induction a as [|c a IH]; intros v b; simpl; [done|apply IH]. Qed.

Lemma digitValue36_digit36 d : 0 <= d < 36 -> digitValue36 (digit36 d) = d.
Proof.
  intros Hd. unfold digitValue36, digit36, charCode.
  destruct (Z.ltb_spec d 10).
  - rewrite N_ascii_embedding by lia.
    destruct (Z.ltb_spec (Z.of_N (Z.to_N (48 + d))) 58); lia.
  - rewrite N_ascii_embedding by lia.
    destruct (Z.ltb_spec (Z.of_N (Z.to_N (97 + (d - 10)))) 58); lia.
Qed.

Lemma toString36_digits_value : forall fuel n acc,
  0 <= n < 2 ^ Z.of_nat fuel -> (0 < fuel)%nat ->
  exists ds, toString36_digits fuel n acc = String.append ds acc
             /\ value36 ds = n.
Proof.
  induction fuel as [|fuel IH]; intros n acc Hn Hfuel; [lia|].
  simpl. pose proof (Z.mod_pos_bound n 36 ltac:(lia)) as Hmod.
  pose proof (Z.div_mod n 36 ltac:(lia)) as Hdiv.
  destruct (Z.eqb_spec (n / 36) 0) as [Hz|Hnz].
  - exists (String (digit36 (n mod 36)) EmptyString). split; [done|].
    unfold value36. simpl. rewrite digitValue36_digit36 by lia. lia.
  - assert (Hfuel' : (0 < fuel)%nat).
    { destruct fuel; [|lia]. simpl in Hn.
      assert (n / 36 = 0) by (apply Z.div_small; lia). lia. }
    destruct (IH (n / 36) (String (digit36 (n mod 36)) acc)) as (ds & Hds & Hv);
      [|done|].
    + split; [apply Z.div_pos; lia|].
      apply Z.div_lt_upper_bound; [lia|].
      rewrite Nat2Z.inj_succ, Z.pow_succ_r in Hn by lia. lia.
    + exists (String.append ds (String (digit36 (n mod 36)) EmptyString)). split.
      * by rewrite Hds, append_assoc.
      * unfold value36 in *. rewrite value36_from_app, Hv. simpl.
        rewrite digitValue36_digit36 by lia. lia.
Qed.

(** [toString(36)] writes the base-36 numeral of its argument. *)
Lemma toString36_value n : 0 <= n -> value36 (toString36 n) = n.
Proof.
  intros Hn. unfold toString36.
  destruct (toString36_digits_value (S (Z.to_nat (Z.log2 n))) n EmptyString)
    as (ds & Hds & Hv); [|lia|].
  - split; [done|]. rewrite Nat2Z.inj_succ, Z2Nat.id by apply Z.log2_nonneg.
    destruct (Z.eq_dec n 0) as [->|Hne]; [done|].
    apply Z.log2_spec. lia.
  - by rewrite Hds, append_nil_r.
Qed.



End Signature.

Section DuplicateGroups.

Local Open Scope nat_scope.

Variable categorizedPhotos : list Categorized.t.

(** The inner loop only adds photos whose id was not processed before,
    and marks them. *)
Lemma collectGroup_spec photo processed group processed1 :
  collectGroup categorizedPhotos photo processed = (group, processed1) ->
  processed ⊆ processed1
  /\ (forall x, x ∈ map Categorized.id group ->
        x = Categorized.id photo \/ ((x ∉ processed) /\ x ∈ processed1))
  /\ (length group <= 1 -> processed1 = processed).
Proof.
  unfold collectGroup.
  set (step := fun (acc : list Categorized.t * gset string) (dupId : string) => _).
  assert (Hgen : forall ids g0 s0,
    processed ⊆ s0 ->
    (forall x, x ∈ map Categorized.id g0 ->
       x = Categorized.id photo \/ ((x ∉ processed) /\ x ∈ s0)) ->
    (1 <= length g0) ->
    (length g0 <= 1 -> s0 = processed) ->
    forall g1 s1, foldl step (g0, s0) ids = (g1, s1) ->
    processed ⊆ s1
    /\ (forall x, x ∈ map Categorized.id g1 ->
          x = Categorized.id photo \/ ((x ∉ processed) /\ x ∈ s1))
    /\ (length g1 <= 1 -> s1 = processed)).
  { induction ids as [|dupId ids IH]; intros g0 s0 Hsub Hg Hlen Hone g1 s1 Hfold.
    - simpl in Hfold. by injection Hfold as <- <-.
    - simpl in Hfold. revert Hfold.
      destruct (List.find _ categorizedPhotos) as [dupPhoto|] eqn:Hfind.
      + case_bool_decide as Hin.
        * by apply IH.
        * apply IH.
          -- set_solver.
          -- intros x. rewrite map_app, elem_of_app. intros [Hx|Hx].
             ++ destruct (Hg x Hx) as [?|[? ?]]; [by left|right]. set_solver.
             ++ apply find_some in Hfind as [_ Heq].
                apply String.eqb_eq in Heq.
                simpl in Hx. apply list_elem_of_singleton in Hx. subst x.
                rewrite Heq. right. set_solver.
          -- rewrite length_app. simpl. lia.
          -- rewrite length_app. simpl. lia.
      + by apply IH. }
  intros Hfold. eapply (Hgen _ [photo] processed); try done.
  intros x. simpl. rewrite list_elem_of_singleton. by left.
Qed.

Lemma groups_invariant : forall duplicates groups processed,
  groupsDisjoint groups ->
  (forall g x, g ∈ groups -> x ∈ map Categorized.id g -> x ∈ processed) ->
  groupsDisjoint
    (fst
       (foldl
          (fun (acc : list (list Categorized.t) * gset string) (photo : Categorized.t) =>
             let '(groups, processed) := acc in
             if bool_decide (Categorized.id photo ∈ processed) then (groups, processed)
             else
               let '(group, processed1) :=
                 collectGroup categorizedPhotos photo processed in
               if 1 <? length group
               then (groups ++ [group], {[ Categorized.id photo ]} ∪ processed1)
               else (groups, processed1))
          (groups, processed)
          duplicates)).
Proof.
  induction duplicates as [|photo duplicates IH]; intros groups processed Hdisj Hproc.
  - done.
  - simpl. case_bool_decide as Hin; [by apply IH|].
    destruct (collectGroup categorizedPhotos photo processed)
      as [group processed1] eqn:Hcollect.
    apply collectGroup_spec in Hcollect as (Hsub & Hgroup & Hone).
    destruct (1 <? length group) eqn:Hlen.
    + apply IH.
      * intros i j g1 g2 x Hi Hj Hx1 Hx2.
        assert (Hfresh : forall y, y ∈ map Categorized.id group -> y ∉ processed).
        { intros y Hy. destruct (Hgroup y Hy) as [->|[? _]]; done. }
        assert (Hold : forall k g, groups !! k = Some g ->
                  forall y, y ∈ map Categorized.id g -> y ∈ processed).
        { intros k g Hk y Hy. apply (Hproc g); [|done].
          by apply list_elem_of_lookup_2 in Hk. }
        destruct (decide (i < length groups)) as [Hi'|Hi'];
          destruct (decide (j < length groups)) as [Hj'|Hj'].
        -- rewrite lookup_app_l in Hi, Hj by done. by eapply Hdisj.
        -- rewrite lookup_app_l in Hi by done.
           rewrite lookup_app_r in Hj by lia.
           apply list_lookup_singleton_Some in Hj as [_ <-].
           exfalso. apply (Hfresh x Hx2). by eapply Hold.
        -- rewrite lookup_app_l in Hj by done.
           rewrite lookup_app_r in Hi by lia.
           apply list_lookup_singleton_Some in Hi as [_ <-].
           exfalso. apply (Hfresh x Hx1). by eapply Hold.
        -- rewrite lookup_app_r in Hi, Hj by lia.
           apply list_lookup_singleton_Some in Hi as [? _].
           apply list_lookup_singleton_Some in Hj as [? _]. lia.
      * intros g x. rewrite elem_of_app, list_elem_of_singleton.
        intros [Hg| ->] Hx.
        -- specialize (Hproc g x Hg Hx). set_solver.
        -- destruct (Hgroup x Hx) as [->|[_ ?]]; set_solver.
    + apply IH; [done|].
      intros g x Hg Hx. specialize (Hproc g x Hg Hx). set_solver.
Qed.

End DuplicateGroups.

(** C9. In the list returned by [getDuplicateGroups] no photo id belongs
    to two different groups. *)
Theorem duplicate_groups_disjoint (categorizedPhotos : list Categorized.t)
    (i j : nat) (g1 g2 : list Categorized.t) (x : string) :
  getDuplicateGroups categorizedPhotos !! i = Some g1 ->
  getDuplicateGroups categorizedPhotos !! j = Some g2 ->
  x ∈ map Categorized.id g1 ->
  x ∈ map Categorized.id g2 ->
  i = j.
Proof.
  assert (H : groupsDisjoint (getDuplicateGroups categorizedPhotos)).
  { unfold getDuplicateGroups. apply groups_invariant.
    - intros ? ? ? ? ? Hi. by rewrite lookup_nil in Hi.
    - intros g x' Hg. by apply elem_of_nil in Hg. }
  apply H.
Qed.

Lemma duplicate_groups_disjoint_witness :
  exists g1 g2,
    getDuplicateGroups
      (fst (detectDuplicatesAndSimilar Samples.clock (Some Samples.album) true))
    = [g1; g2]
    /\ map Categorized.id g1 = ["a1"; "a2"]%string
    /\ map Categorized.id g2 = ["b1"; "b2"]%string
    /\ 1%nat = 1%nat.
Proof.
  do 2 eexists. split; [vm_compute; reflexivity|].
  split; [reflexivity|]. split; [reflexivity|].
  eapply (duplicate_groups_disjoint
            (fst (detectDuplicatesAndSimilar Samples.clock (Some Samples.album) true))
            1 1 _ _ "b2"%string).
  - vm_compute. reflexivity.
  - vm_compute. reflexivity.
  - apply list_elem_of_In. simpl. auto.
  - apply list_elem_of_In. simpl. auto.
Defined.

Section SignatureMap.

Local Open Scope nat_scope.

Lemma addToSignatureMap_lookup m photo i s :
  default [] (addToSignatureMap m photo i !! s)
  = default [] (m !! s)
    ++ (if decide (Signed.signature photo = s) then [(photo, i)] else []).
Proof.
  unfold addToSignatureMap.
  destruct (m !! Signed.signature photo) as [entries|] eqn:Hm.
  - rewrite Hm. destruct (decide (Signed.signature photo = s)) as [<-|Hne].
    + by rewrite lookup_insert_eq, Hm.
    + by rewrite lookup_insert_ne, app_nil_r.
  - rewrite lookup_insert_eq.
    destruct (decide (Signed.signature photo = s)) as [<-|Hne].
    + by rewrite lookup_insert_eq, Hm.
    + by rewrite !lookup_insert_ne, app_nil_r.
Qed.

Lemma groupLoop_lookup s : forall rest i m,
  default [] (groupLoop i rest m !! s)
  = default [] (m !! s) ++ entriesWith s i rest.
Proof.
  induction rest as [|photo rest IH]; intros i m; simpl.
  - by rewrite app_nil_r.
  - rewrite IH, addToSignatureMap_lookup, <- app_assoc. f_equal.
    unfold entriesWith. simpl. rewrite filter_cons. simpl.
    rewrite Nat.add_0_r.
    assert (Himap : imap ((fun k p => (p, i + k)) ∘ S) rest
                    = imap (fun k p => (p, S i + k)) rest).
    { apply imap_ext. intros k p _. simpl. f_equal. lia. }
    rewrite Himap. by destruct (decide (Signed.signature photo = s)).
Qed.

(** What [signatureMap.get(photo.signature) || []] holds after the first
    pass: the photos with that signature, with their indices, in order. *)
Lemma groupBySignature_lookup pws s :
  default [] (groupBySignature pws !! s) = entriesWith s 0 pws.
Proof. unfold groupBySignature. by rewrite groupLoop_lookup, lookup_empty. Qed.

Lemma elem_of_entriesWith s i rest o j :
  (o, j) ∈ entriesWith s i rest
  <-> Signed.signature o = s /\ exists k, j = i + k /\ rest !! k = Some o.
Proof.
  unfold entriesWith. rewrite list_elem_of_filter. simpl.
  rewrite elem_of_lookup_imap. split.
  - intros (Hs & k & p & [= -> ->] & Hk). eauto.
  - intros (Hs & k & -> & Hk). eauto.
Qed.

End SignatureMap.

Section Duplicates.

Local Open Scope nat_scope.

Lemma signaturePass_spec index : forall same d0 s0,
  idsOf d0 s0 ->
  let r := foldl
    (fun (acc : list Signed.t * gset string) (entry : Signed.t * nat) =>
       let '(duplicates, duplicateIds) := acc in
       let '(otherPhoto, otherIndex) := entry in
       if otherIndex =? index then (duplicates, duplicateIds)
       else (duplicates ++ [otherPhoto], {[ Signed.id otherPhoto ]} ∪ duplicateIds))
    (d0, s0) same in
  fst r = d0 ++ map fst (filter (fun e : Signed.t * nat => e.2 <> index) same)
  /\ idsOf (fst r) (snd r).
Proof.
  induction same as [|[o j] same IH]; intros d0 s0 Hids; simpl.
  - by rewrite app_nil_r.
  - rewrite filter_cons. simpl. destruct (Nat.eqb_spec j index) as [->|Hne].
    + destruct (decide (index <> index)); [done|]. by apply IH.
    + destruct (decide (j <> index)); [|done].
      destruct (IH (d0 ++ [o]) ({[Signed.id o]} ∪ s0)) as [Hfst Hinv].
      * intros x. rewrite map_app, elem_of_app, elem_of_union, elem_of_singleton.
        simpl. rewrite list_elem_of_singleton. specialize (Hids x). tauto.
      * split; [|done]. rewrite Hfst. simpl. by rewrite <- app_assoc.
Qed.

Variable base : string.
Variable index : nat.

Lemma filenamePass_spec : forall rest i dups ids,
  idsOf dups ids ->
  let r := filenamePass index base i rest dups ids in
  (exists extra,
      fst r = dups ++ extra
      /\ forall o, o ∈ extra ->
           exists k, rest !! k = Some o /\ i + k <> index
                     /\ filenameBase (Signed.uri o) = base /\ base <> EmptyString)
  /\ idsOf (fst r) (snd r)
  /\ (length (fst r) < 20 ->
      forall k o, rest !! k = Some o -> i + k <> index ->
        filenameBase (Signed.uri o) = base -> base <> EmptyString ->
        Signed.id o ∈ map Signed.id (fst r)).
Proof.
  induction rest as [|other rest IH]; intros i dups ids Hids; cbn [filenamePass].
  - cbv zeta. simpl. split; [|split; [done|]].
    + exists []. split; [by rewrite app_nil_r|]. intros o Ho. by apply elem_of_nil in Ho.
    + intros _ k o Hk. by rewrite lookup_nil in Hk.
  - destruct (Nat.leb_spec 20 (length dups)) as [Hcap|Hcap].
    { cbv zeta. simpl. split; [|split; [done|]].
      - exists []. split; [by rewrite app_nil_r|].
        intros o Ho. by apply elem_of_nil in Ho.
      - lia. }
    assert (Hshift : forall k, i + S k = S i + k) by (intros; lia).
    destruct ((i =? index) || bool_decide (Signed.id other ∈ ids)) eqn:Hskip.
    { specialize (IH (S i) dups ids Hids). cbv zeta in IH |- *.
      destruct IH as ((extra & Hfst & Hextra) & Hinv & Hall).
      split; [|split; [done|]].
      - exists extra. split; [done|]. intros o Ho.
        destruct (Hextra o Ho) as (k & Hk & Hne & Hb).
        exists (S k). rewrite Hshift. by split.
      - intros Hlen [|k] o Hk Hne Hb Hnonempty.
        + simpl in Hk. injection Hk as ->.
          apply orb_true_iff in Hskip as [Heq|Hin].
          * apply Nat.eqb_eq in Heq. lia.
          * apply bool_decide_eq_true in Hin. apply Hids in Hin.
            rewrite Hfst, map_app, elem_of_app. by left.
        + rewrite Hshift in Hne. by eapply Hall. }
    destruct (String.eqb base (filenameBase (Signed.uri other))
              && (0 <? String.length base)) eqn:Hmatch.
    { assert (Hids' : idsOf (dups ++ [other]) ({[Signed.id other]} ∪ ids)).
      { intros x. rewrite map_app, elem_of_app, elem_of_union, elem_of_singleton.
        simpl. rewrite list_elem_of_singleton. specialize (Hids x). tauto. }
      specialize (IH (S i) (dups ++ [other]) ({[Signed.id other]} ∪ ids) Hids').
      cbv zeta in IH |- *.
      destruct IH as ((extra & Hfst & Hextra) & Hinv & Hall).
      apply andb_true_iff in Hmatch as [Heq Hlen0].
      apply String.eqb_eq in Heq. apply Nat.ltb_lt in Hlen0.
      apply orb_false_iff in Hskip as [Hi _]. apply Nat.eqb_neq in Hi.
      assert (Hne0 : base <> EmptyString) by (intros ->; simpl in Hlen0; lia).
      split; [|split; [done|]].
      - exists (other :: extra). split; [by rewrite Hfst, <- app_assoc|].
        intros o. rewrite elem_of_cons. intros [->|Ho].
        + exists 0. rewrite Nat.add_0_r. by repeat split.
        + destruct (Hextra o Ho) as (k & Hk & Hne & Hb).
          exists (S k). rewrite Hshift. by split.
      - intros Hlen [|k] o Hk Hne Hb Hnonempty.
        + simpl in Hk. injection Hk as ->.
          rewrite Hfst, !map_app, !elem_of_app. left. right.
          simpl. by apply list_elem_of_singleton.
        + rewrite Hshift in Hne. by eapply Hall. }
    specialize (IH (S i) dups ids Hids). cbv zeta in IH |- *.
    destruct IH as ((extra & Hfst & Hextra) & Hinv & Hall).
    split; [|split; [done|]].
    + exists extra. split; [done|]. intros o Ho.
      destruct (Hextra o Ho) as (k & Hk & Hne & Hb).
      exists (S k). rewrite Hshift. by split.
    + intros Hlen [|k] o Hk Hne Hb Hnonempty.
      * simpl in Hk. injection Hk as ->.
        apply andb_false_iff in Hmatch as [Hneq|Hlen0].
        -- apply String.eqb_neq in Hneq. congruence.
        -- apply Nat.ltb_ge in Hlen0. destruct base; [done|simpl in Hlen0; lia].
      * rewrite Hshift in Hne. by eapply Hall.
Qed.

End Duplicates.

Section FindDuplicates.

Local Open Scope nat_scope.

Lemma filter_all {A} (P : A -> Prop) `{forall x, Decision (P x)} (l : list A) :
  Forall P l -> filter P l = l.
Proof.
  induction 1 as [|x l Hx _ IH]; [done|].
  rewrite filter_cons. destruct (decide (P x)); [|done]. by rewrite IH.
Qed.

Lemma length_filter_indexed {A} (P : A -> Prop) `{forall x, Decision (P x)}
    (l : list A) : forall c,
  length (filter (fun e : A * nat => P e.1) (imap (fun k p => (p, c + k)) l))
  = length (filter P l).
Proof.
  induction l as [|x l IH]; intros c; [done|].
  simpl. rewrite !filter_cons. simpl.
  assert (Himap : imap ((fun k p => (p, c + k)) ∘ S) l
                  = imap (fun k p => (p, S c + k)) l).
  { apply imap_ext. intros k p _. simpl. f_equal. lia. }
  rewrite Himap. destruct (decide (P x)); simpl; [f_equal|]; apply (IH (S c)).
Qed.

(** Dropping position [i] from the photos that satisfy [P] removes
    exactly one of them when the photo at [i] satisfies [P]. *)
Lemma length_filter_others {A} (P : A -> Prop) `{forall x, Decision (P x)}
    (l : list A) : forall c i x,
  l !! i = Some x -> P x ->
  S (length (filter (fun e : A * nat => e.2 <> c + i)
               (filter (fun e : A * nat => P e.1)
                  (imap (fun k p => (p, c + k)) l))))
  = length (filter P l).
Proof.
  induction l as [|y l IH]; intros c i x Hi HP; [done|].
  assert (Himap : imap ((fun k p => (p, c + k)) ∘ S) l
                  = imap (fun k p => (p, S c + k)) l).
  { apply imap_ext. intros k p _. simpl. f_equal. lia. }
  simpl. rewrite Himap. rewrite (filter_cons P). rewrite (filter_cons _ (y, c + 0)).
  simpl. destruct i as [|i].
  - simpl in Hi. injection Hi as ->.
    destruct (decide (P x)); [|done].
    rewrite filter_cons. simpl. rewrite Nat.add_0_r.
    destruct (decide (c <> c)); [done|].
    rewrite filter_all.
    + simpl. f_equal. apply (length_filter_indexed P l (S c)).
    + apply Forall_forall. intros [a j] Hin.
      apply list_elem_of_filter in Hin as [_ Hin].
      apply elem_of_lookup_imap in Hin as (k & a' & [= -> ->] & _). simpl. lia.
  - simpl in Hi. replace (c + S i) with (S c + i) by lia.
    destruct (decide (P y)).
    + rewrite filter_cons. rewrite decide_True by (simpl; lia).
      simpl. f_equal. by apply (IH (S c) i x).
    + by apply (IH (S c) i x).
Qed.

Variable pws : list Signed.t.
Variable index : nat.
Variable photo : Signed.t.
Hypothesis Hphoto : pws !! index = Some photo.

Local Abbreviation signatureDuplicates := (Spec.signatureDuplicates pws index photo).

Lemma elem_of_signatureDuplicates o :
  o ∈ signatureDuplicates
  <-> exists j, j <> index /\ pws !! j = Some o
                /\ Signed.signature o = Signed.signature photo.
Proof.
  unfold Spec.signatureDuplicates. rewrite list_elem_of_fmap. split.
  - intros ([o' j] & -> & Hin). apply list_elem_of_filter in Hin as [Hne Hin].
    apply elem_of_entriesWith in Hin as (Hs & k & -> & Hk). simpl in *. eauto.
  - intros (j & Hne & Hj & Hs). exists (o, j). split; [done|].
    apply list_elem_of_filter. split; [done|].
    apply elem_of_entriesWith. eauto.
Qed.

Lemma length_signatureDuplicates :
  S (length signatureDuplicates)
  = length (filter (fun p => Signed.signature p = Signed.signature photo) pws).
Proof.
  unfold Spec.signatureDuplicates, entriesWith. rewrite length_map.
  exact (length_filter_others
           (fun p => Signed.signature p = Signed.signature photo) pws 0 index photo
           Hphoto eq_refl).
Qed.

Lemma findDuplicates_spec :
  let r := findDuplicates pws (groupBySignature pws) index photo in
  idsOf (fst r) (snd r)
  /\ (exists extra,
         fst r = signatureDuplicates ++ extra
         /\ forall o, o ∈ extra ->
              exists k, pws !! k = Some o /\ k <> index
                        /\ filenameBase (Signed.uri o) = filenameBase (Signed.uri photo)
                        /\ filenameBase (Signed.uri photo) <> EmptyString)
  /\ (length signatureDuplicates < 10 -> length (fst r) < 20 ->
      forall k o, pws !! k = Some o -> k <> index ->
        filenameBase (Signed.uri o) = filenameBase (Signed.uri photo) ->
        filenameBase (Signed.uri photo) <> EmptyString ->
        Signed.id o ∈ map Signed.id (fst r)).
Proof.
  unfold findDuplicates. rewrite groupBySignature_lookup.
  unfold signaturePass.
  destruct (signaturePass_spec index (entriesWith (Signed.signature photo) 0 pws) [] ∅)
    as [Hfst Hinv].
  { intros x. simpl. rewrite elem_of_nil. set_solver. }
  cbv zeta in Hfst, Hinv. simpl in Hfst. fold signatureDuplicates in Hfst.
  destruct (foldl _ _ _) as [d1 s1]. simpl in Hfst, Hinv. subst d1.
  destruct (Nat.ltb_spec (length signatureDuplicates) 10) as [Hlt|Hge].
  - destruct (filenamePass_spec (filenameBase (Signed.uri photo)) index pws 0
                signatureDuplicates s1 Hinv) as (Hextra & Hinv' & Hall).
    cbv zeta in Hextra, Hinv', Hall |- *.
    split; [done|]. split; [done|]. intros _. exact Hall.
  - cbv zeta. simpl. split; [done|]. split; [|lia].
    exists []. split; [by rewrite app_nil_r|].
    intros o Ho. by apply elem_of_nil in Ho.
Qed.

End FindDuplicates.

Section Symmetry.

Local Open Scope nat_scope.

Lemma categorize_duplicates now pws sm index photo :
  Categorized.duplicateIds (categorize now pws sm index photo)
  = map Signed.id (fst (findDuplicates pws sm index photo))
  /\ Categorized.duplicateCount (categorize now pws sm index photo)
     = length (fst (findDuplicates pws sm index photo)).
Proof. unfold categorize. by destruct (findDuplicates _ _ _ _). Qed.

Lemma length_filter_map {A B} (f : A -> B) (P : B -> Prop)
    `{forall y, Decision (P y)} (l : list A) :
  length (filter P (map f l)) = length (filter (fun x => P (f x)) l).
Proof.
  induction l as [|x l IH]; [done|].
  simpl. rewrite !filter_cons. destruct (decide (P (f x))); simpl; by rewrite IH.
Qed.

Lemma sameSignatureCount_signed clock photos onProgress o :
  sameSignatureCount
    (fst (detectDuplicatesAndSimilar clock (Some photos) onProgress)) o
  = length (filter (fun p => Signed.signature p = Categorized.signature o)
              (map withSignature photos)).
Proof.
  unfold sameSignatureCount.
  pose proof (detect_signatures clock photos onProgress) as Hsig.
  set (out := fst (detectDuplicatesAndSimilar clock (Some photos) onProgress)) in *.
  transitivity (length (filter (fun s => s = Categorized.signature o)
                          (map Categorized.signature out))).
  - by rewrite length_filter_map.
  - rewrite Hsig.
    replace (map generateImageSignature photos)
      with (map Signed.signature (map withSignature photos))
      by (by rewrite <- list_fmap_compose).
    by rewrite length_filter_map.
Qed.

(** C4, amended.  For an input with pairwise distinct ids and output
    records A and B of one run: if B's id is in A's duplicateIds, then
    A's id is in B's duplicateIds, provided the file-name pass of B was
    not cut by its two cost guards, that is, at most 9 other records
    carry B's signature and B has fewer than 20 duplicates. *)
Theorem duplicates_symmetric_below_caps (clock : nat -> Z) (photos : list Photo.t)
    (onProgress : bool) (a b : nat) (oA oB : Categorized.t) :
  let out := fst (detectDuplicatesAndSimilar clock (Some photos) onProgress) in
  NoDup (map Photo.id photos) ->
  out !! a = Some oA ->
  out !! b = Some oB ->
  Categorized.id oB ∈ Categorized.duplicateIds oA ->
  sameSignatureCount out oB <= 10 ->
  Categorized.duplicateCount oB < 20 ->
  Categorized.id oA ∈ Categorized.duplicateIds oB.
Proof.
  cbv zeta. intros Hnodup HA HB Hin Hsame Hcount.
  rewrite sameSignatureCount_signed in Hsame.
  rewrite detect_lookup in HA, HB.
  destruct (photos !! a) as [pa|] eqn:Hpa; [|done].
  destruct (photos !! b) as [pb|] eqn:Hpb; [|done].
  simpl in HA, HB. injection HA as <-. injection HB as <-.
  set (pws := map withSignature photos) in *.
  set (sm := groupBySignature pws) in *.
  assert (Hsa : pws !! a = Some (withSignature pa))
    by (unfold pws; by rewrite list_lookup_fmap, Hpa).
  assert (Hsb : pws !! b = Some (withSignature pb))
    by (unfold pws; by rewrite list_lookup_fmap, Hpb).
  destruct (categorize_duplicates (clock a) pws sm a (withSignature pa)) as [HidsA _].
  destruct (categorize_duplicates (clock b) pws sm b (withSignature pb))
    as [HidsB HcountB].
  rewrite HidsA in Hin. rewrite HidsB. rewrite HcountB in Hcount.
  rewrite categorize_signature in Hsame.
  unfold Categorized.id in *. rewrite !categorize_photo in *.
  destruct (findDuplicates_spec pws a (withSignature pa) Hsa)
    as (_ & (extraA & HfstA & HextraA) & _).
  destruct (findDuplicates_spec pws b (withSignature pb) Hsb)
    as (_ & (extraB & HfstB & _) & HallB).
  cbv zeta in HfstA, HfstB, HallB. fold sm in HfstA, HfstB, HallB.
  apply list_elem_of_fmap in Hin as (o & Hid & Ho).
  assert (Hrel : exists j, j <> a /\ pws !! j = Some o
                   /\ (Signed.signature o = Signed.signature (withSignature pa)
                       \/ (filenameBase (Signed.uri o)
                           = filenameBase (Signed.uri (withSignature pa))
                           /\ filenameBase (Signed.uri (withSignature pa))
                              <> EmptyString))).
  { rewrite HfstA in Ho. apply elem_of_app in Ho as [Ho|Ho].
    - apply elem_of_signatureDuplicates in Ho as (j & ? & ? & ?). eauto.
    - destruct (HextraA o Ho) as (k & ? & ? & ? & ?). eauto 10. }
  destruct Hrel as (j & Hja & Hj & Hrel).
  assert (j = b) as ->.
  { unfold pws in Hj. rewrite list_lookup_fmap in Hj.
    destruct (photos !! j) as [pj|] eqn:Hpj; [|done].
    simpl in Hj. injection Hj as <-.
    eapply (NoDup_lookup _ j b (Photo.id pj) Hnodup).
    - by rewrite list_lookup_fmap, Hpj.
    - rewrite list_lookup_fmap, Hpb. simpl. f_equal. done. }
  rewrite Hsb in Hj. injection Hj as <-.
  destruct Hrel as [Hsig|[Hbase Hnonempty]].
  - rewrite HfstB, map_app, elem_of_app. left.
    apply list_elem_of_fmap. exists (withSignature pa). split; [done|].
    apply elem_of_signatureDuplicates. exists a. by repeat split.
  - apply (HallB) with (k := a).
    + pose proof (length_signatureDuplicates pws b (withSignature pb) Hsb) as Hlen.
      simpl in Hlen, Hsame. lia.
    + done.
    + exact Hsa.
    + done.
    + by rewrite Hbase.
    + by rewrite Hbase.
Qed.

End Symmetry.

(** C4, as stated, fails.  Photo 0 of [Samples.crowd] has ten duplicates
    by signature, so its file-name pass is skipped; photo 11 reaches it
    by file name.  The id of photo 0 is in the duplicateIds of photo 11,
    and the id of photo 11 is not in the duplicateIds of photo 0. *)
Lemma duplicates_not_symmetric_beyond_caps :
  exists oA oB,
    fst (detectDuplicatesAndSimilar Samples.clock (Some Samples.crowd) true) !! 11%nat
    = Some oA
    /\ fst (detectDuplicatesAndSimilar Samples.clock (Some Samples.crowd) true) !! 0%nat
       = Some oB
    /\ NoDup (map Photo.id Samples.crowd)
    /\ Categorized.id oB ∈ Categorized.duplicateIds oA
    /\ Categorized.id oA ∉ Categorized.duplicateIds oB.
Proof.
  do 2 eexists. split; [vm_compute; reflexivity|].
  split; [vm_compute; reflexivity|].
  split; [by_evaluation|].
  split.
  - by_evaluation.
  - by_evaluation.
Qed.

Lemma duplicates_symmetric_below_caps_witness :
  exists oA oB,
    fst (detectDuplicatesAndSimilar Samples.clock (Some Samples.album) true) !! 0%nat
    = Some oA
    /\ fst (detectDuplicatesAndSimilar Samples.clock (Some Samples.album) true) !! 2%nat
       = Some oB
    /\ Categorized.id oB ∈ Categorized.duplicateIds oA
    /\ Categorized.id oA ∈ Categorized.duplicateIds oB.
Proof.
  do 2 eexists. split; [vm_compute; reflexivity|].
  split; [vm_compute; reflexivity|].
  split; [by_evaluation|].
  eapply (duplicates_symmetric_below_caps Samples.clock Samples.album true 0 2).
  - by_evaluation.
  - vm_compute. reflexivity.
  - vm_compute. reflexivity.
  - by_evaluation.
  - by_evaluation.
  - by_evaluation.
Defined.

Section Similarity.

Local Open Scope nat_scope.

Lemma filter_none {A} (P : A -> Prop) `{forall x, Decision (P x)} (l : list A) :
  Forall (fun x => ~ P x) l -> filter P l = [].
Proof.
  induction 1 as [|x l Hx _ IH]; [done|].
  rewrite filter_cons. by destruct (decide (P x)).
Qed.

Lemma filter_agree {A} (P Q : A -> Prop) `{forall x, Decision (P x)}
    `{forall x, Decision (Q x)} (l : list A) :
  Forall (fun x => P x <-> Q x) l -> filter P l = filter Q l.
Proof.
  induction 1 as [|x l Hx _ IH]; [done|].
  rewrite !filter_cons. rewrite IH.
  destruct (decide (P x)), (decide (Q x)); tauto.
Qed.

Lemma foldl_agree {A B} (f g : A -> B -> A) (l : list B) : forall a,
  (forall a x, f a x = g a x) -> foldl f a l = foldl g a l.
Proof.
  induction l as [|x l IH]; intros a Hfg; [done|].
  simpl. rewrite Hfg. by apply IH.
Qed.

(** A filter whose predicate holds only inside [a, a + n) needs to look
    only there. *)
Lemma filter_seq_window (P : nat -> Prop) `{forall x, Decision (P x)} (a n N : nat) :
  a + n <= N ->
  (forall j, P j -> a <= j < a + n) ->
  filter P (seq 0 N) = filter P (seq a n).
Proof.
  intros Hle Hwin.
  replace N with (a + (n + (N - a - n))) by lia.
  rewrite !seq_app, !filter_app. simpl.
  rewrite (filter_none P (seq 0 a)), (filter_none P (seq (a + n) _)).
  - by rewrite app_nil_r.
  - apply Forall_forall. intros j Hj HP. apply elem_of_seq in Hj.
    specialize (Hwin j HP). lia.
  - apply Forall_forall. intros j Hj HP. apply elem_of_seq in Hj.
    specialize (Hwin j HP). lia.
Qed.

(** The scaled size test is the test of the specification. *)
Lemma similarSize_spec p q :
  similarSize (withSignature p) (withSignature q)
  = match Photo.size p, Photo.size q with
    | JInt s1, JInt s2 =>
        bool_decide
          (inject_Z (Z.abs (s1 - s2))
           < Qmax ((1 # 10) * inject_Z s1) (inject_Z 10000))%Q
    | _, _ => false
    end.
Proof.
  unfold similarSize, Signed.size. simpl.
  destruct (Photo.size p) as [| |s1], (Photo.size q) as [| |s2]; try done.
  simpl. symmetry.
  destruct (Z.ltb_spec (10 * Z.abs (s1 - s2)) (Z.max s1 (10 * 10000))) as [Hlt|Hge].
  - apply bool_decide_eq_true. apply Q.max_lt_iff.
    apply Z.max_lt_iff in Hlt as [Hlt|Hlt]; [left|right];
      unfold Qlt, Qmult, inject_Z; simpl; lia.
  - apply bool_decide_eq_false. rewrite Q.max_lt_iff.
    intros [Hlt|Hlt]; unfold Qlt, Qmult, inject_Z in Hlt; simpl in Hlt; lia.
Qed.

Lemma timeDiff_spec p q :
  lt_const (timeDiff (withSignature p) (withSignature q)) TIME_THRESHOLD
  = match Photo.creationTime p, Photo.creationTime q with
    | JInt t1, JInt t2 => (Z.abs (t1 - t2) <? 60000)%Z
    | _, _ => false
    end.
Proof.
  unfold timeDiff, Signed.creationTime. simpl.
  by destruct (Photo.creationTime p), (Photo.creationTime q).
Qed.

Variable photos : list Photo.t.
Variable index : nat.
Variable p : Photo.t.
Hypothesis Hp : photos !! index = Some p.

Local Abbreviation pws := (map withSignature photos).

(** One turn of the similarity scan when no duplicate was found. *)
Lemma similarPass_step (similar : list Signed.t) (i : nat) :
  match pws !! i with
  | None => similar
  | Some otherPhoto =>
      if (i =? index) || bool_decide (Signed.id otherPhoto ∈ (∅ : gset string))
      then similar
      else if negb (strict_eq (Signed.width (withSignature p)) (Signed.width otherPhoto))
              || negb (strict_eq (Signed.height (withSignature p))
                         (Signed.height otherPhoto))
      then similar
      else if similarSize (withSignature p) otherPhoto
              && lt_const (timeDiff (withSignature p) otherPhoto) TIME_THRESHOLD
              && (length similar <? 5)
      then similar ++ [otherPhoto]
      else similar
  end
  = if bool_decide (i <> index /\ similarAt photos index i = true)
       && (length similar <? 5)
    then similar ++ (default [] ((fun o => [o]) <$> pws !! i))
    else similar.
Proof.
  unfold similarAt. rewrite Hp, list_lookup_fmap.
  destruct (photos !! i) as [q|]; simpl.
  2:{ rewrite bool_decide_eq_false_2 by (by intros [_ ?]). done. }
  rewrite orb_false_r.
  destruct (Nat.eqb_spec i index) as [->|Hne].
  { rewrite bool_decide_eq_false_2 by (by intros [? _]). done. }
  rewrite similarSize_spec, timeDiff_spec.
  unfold similarNeighbour, Signed.width, Signed.height. simpl.
  destruct (strict_eq (Photo.width p) (Photo.width q)); simpl.
  2:{ rewrite bool_decide_eq_false_2 by (by intros [_ ?]). done. }
  destruct (strict_eq (Photo.height p) (Photo.height q)); simpl.
  2:{ rewrite bool_decide_eq_false_2 by (by intros [_ ?]). done. }
  set (bs := match Photo.size p with JInt _ => _ | _ => _ end).
  set (bt := match Photo.creationTime p with JInt _ => _ | _ => _ end).
  destruct (bs && bt) eqn:Hb.
  - rewrite bool_decide_eq_true_2 by done. done.
  - rewrite bool_decide_eq_false_2; [done|]. intros [_ ?]. congruence.
Qed.

Lemma similarPass_length : forall (positions : list nat) (similar : list Signed.t),
  length similar <= 5 ->
  length
    (foldl
       (fun (similar : list Signed.t) (i : nat) =>
          if bool_decide (i <> index /\ similarAt photos index i = true)
             && (length similar <? 5)
          then similar ++ (default [] ((fun o => [o]) <$> pws !! i))
          else similar)
       similar positions)
  = Nat.min 5
      (length similar
       + length (filter (fun i => i <> index /\ similarAt photos index i = true)
                   positions)).
Proof.
  induction positions as [|i positions IH]; intros similar Hlen; cbn [foldl].
  - rewrite filter_nil. cbn [length]. lia.
  - rewrite filter_cons.
    destruct (decide (i <> index /\ similarAt photos index i = true)) as [Hq|Hq].
    + rewrite bool_decide_eq_true_2 by done. cbn [andb].
      destruct (Nat.ltb_spec (length similar) 5) as [Hlt|Hge].
      * assert (Hsome : exists o, pws !! i = Some o).
        { destruct Hq as [_ Hq]. unfold similarAt in Hq. rewrite Hp in Hq.
          rewrite list_lookup_fmap. destruct (photos !! i); [eauto|done]. }
        destruct Hsome as [o Ho]. rewrite Ho. cbn -[Nat.min].
        rewrite IH; rewrite length_app; cbn -[Nat.min]; lia.
      * rewrite IH by done. lia.
    + rewrite bool_decide_eq_false_2 by done. cbn [andb]. by rewrite IH.
Qed.

(** The scan of the source counts the similar neighbours from 25 places
    before the photo to 24 places after it, up to five. *)
Lemma similarPass_count :
  length (similarPass pws index (withSignature p) ∅)
  = Nat.min 5 (neighbourCount 25 24 photos index).
Proof.
  unfold similarPass, neighbourCount, checkRange.
  rewrite (foldl_agree _
             (fun (similar : list Signed.t) (i : nat) =>
                if bool_decide (i <> index /\ similarAt photos index i = true)
                   && (length similar <? 5)
                then similar ++ (default [] ((fun o => [o]) <$> pws !! i))
                else similar))
    by (intros similar i; apply similarPass_step).
  rewrite similarPass_length by (simpl; lia).
  simpl length. rewrite Nat.add_0_l. f_equal.
  rewrite length_map.
  assert (Hidx : index < length photos) by (by eapply lookup_lt_Some).
  set (start := 0 `max` (index - 25)).
  set (end_ := length photos `min` (index + 25)).
  rewrite (filter_seq_window _ start (end_ - start) (length photos)).
  - f_equal. apply filter_agree. apply Forall_forall. intros j Hj.
    apply elem_of_seq in Hj. unfold start, end_ in Hj. split.
    + intros [? ?]. repeat split; try done; lia.
    + intros (? & _ & _ & ?). done.
  - unfold start, end_. lia.
  - intros j (Hne & Hb & Ha & Hsim). unfold start, end_.
    assert (j < length photos).
    { unfold similarAt in Hsim. rewrite Hp in Hsim.
      destruct (photos !! j) eqn:Hj; [by eapply lookup_lt_Some|done]. }
    lia.
Qed.

End Similarity.

Section SimilarityLabels.

Local Open Scope nat_scope.

Lemma categorize_similar now pws sm index photo :
  let r := findDuplicates pws sm index photo in
  let similar :=
    if length (fst r) =? 0 then similarPass pws index photo (snd r) else [] in
  let cs := Categorized.categories (categorize now pws sm index photo) in
  (BURST ∈ cs <-> 2 < length similar)
  /\ (SIMILAR ∈ cs <-> 1 <= length similar <= 2).
Proof.
  unfold categorize. destruct (findDuplicates _ _ _ _) as [duplicates ids]. simpl.
  set (similar := if length duplicates =? 0 then _ else _). clearbody similar.
  rewrite !uniqueCategories_elem.
  destruct (Nat.ltb_spec 0 (length duplicates)), (Nat.ltb_spec 0 (length similar)),
    (Nat.ltb_spec 2 (length similar)),
    (isScreenshot photo), (isLowQuality photo), (isOldUnused now photo);
    simpl; (split; split; intros Hx; try lia; try set_solver).
Qed.

(** C6, on [Samples.strip].  The photo at position 25 is similar to the
    photo at position 0, and no other is; so photo 0 has one similar
    neighbour within 25 positions and no duplicate, and the claim labels
    it SIMILAR.  The scan stops one position short, at index + 24: photo
    0 is not labelled, while photo 25, which looks back 25 positions, is. *)
Theorem neighbour_at_distance_25_is_missed :
  exists o o',
    fst (detectDuplicatesAndSimilar Samples.clock (Some Samples.strip) true) !! 0
    = Some o
    /\ fst (detectDuplicatesAndSimilar Samples.clock (Some Samples.strip) true) !! 25
       = Some o'
    /\ neighbourCount 25 25 Samples.strip 0 = 1
    /\ neighbourCount 25 25 Samples.strip 25 = 1
    /\ Categorized.duplicateCount o = 0
    /\ Categorized.duplicateCount o' = 0
    /\ (SIMILAR ∉ Categorized.categories o)
    /\ SIMILAR ∈ Categorized.categories o'.
Proof.
  do 2 eexists. split; [vm_compute; reflexivity|].
  split; [vm_compute; reflexivity|].
  split; [vm_compute; reflexivity|].
  split; [vm_compute; reflexivity|].
  split; [reflexivity|]. split; [reflexivity|].
  split; by_evaluation.
Qed.

(** The labels the scan gives.  For a returned record without
    duplicates, count the photos from 25 positions before its index to
    24 positions after it (its own position excluded) that have its
    width and height, a size closer than max(0.1*size, 10000) bytes and
    a creation time closer than 60000 ms, and cap the count at 5: the
    record is labelled BURST exactly when the count exceeds 2 and
    SIMILAR exactly when the count is 1 or 2.  A record with a duplicate
    gets neither label, and no record gets both. *)
Lemma similarity_labels (clock : nat -> Z) (photos : list Photo.t)
    (onProgress : bool) (i : nat) (o : Categorized.t) :
  fst (detectDuplicatesAndSimilar clock (Some photos) onProgress) !! i = Some o ->
  let c := Nat.min 5 (neighbourCount 25 24 photos i) in
  (Categorized.duplicateCount o = 0 ->
   (BURST ∈ Categorized.categories o <-> 2 < c)
   /\ (SIMILAR ∈ Categorized.categories o <-> 1 <= c <= 2))
  /\ (0 < Categorized.duplicateCount o ->
      (BURST ∉ Categorized.categories o) /\ (SIMILAR ∉ Categorized.categories o))
  /\ ~ (BURST ∈ Categorized.categories o /\ SIMILAR ∈ Categorized.categories o).
Proof.
  rewrite detect_lookup. intros Ho.
  destruct (photos !! i) as [p|] eqn:Hp; [|done]. injection Ho as <-.
  set (pws := map withSignature photos).
  set (sm := groupBySignature pws).
  assert (Hsp : pws !! i = Some (withSignature p))
    by (unfold pws; by rewrite list_lookup_fmap, Hp).
  destruct (categorize_similar (clock i) pws sm i (withSignature p)) as [HB HS].
  destruct (categorize_duplicates (clock i) pws sm i (withSignature p)) as [_ Hcount].
  destruct (findDuplicates_spec pws i (withSignature p) Hsp) as (Hids & _).
  cbv zeta in HB, HS, Hids |- *. fold sm in Hids.
  rewrite HB, HS, Hcount.
  destruct (findDuplicates pws sm i (withSignature p)) as [duplicates ids].
  simpl in *.
  destruct duplicates as [|d duplicates]; simpl.
  - assert (ids = ∅) as ->.
    { apply set_eq. intros x. specialize (Hids x). simpl in Hids.
      rewrite elem_of_nil in Hids. set_solver. }
    unfold pws. rewrite (similarPass_count photos i p Hp).
    split; [done|]. split; [lia|]. lia.
  - split; [lia|]. split; [|lia]. intros _. lia.
Qed.

Lemma similarity_labels_witness :
  exists o,
    fst (detectDuplicatesAndSimilar Samples.clock (Some Samples.strip) true) !! 25
    = Some o
    /\ Categorized.duplicateCount o = 0
    /\ SIMILAR ∈ Categorized.categories o.
Proof.
  eexists. split; [vm_compute; reflexivity|]. split; [reflexivity|].
  apply (proj1 (similarity_labels Samples.clock Samples.strip true 25 _
                  ltac:(vm_compute; reflexivity))).
  - reflexivity.
  - vm_compute. lia.
Defined.

End SimilarityLabels.

Section StorePreservation.

Import Store.
Local Open Scope nat_scope.

Lemma readObject_app_l (h k : list cell) l :
  is_Some (readObject h l) -> readObject (h ++ k) l = readObject h l.
Proof.
  unfold readObject. intros [o Ho].
  destruct (h !! l) as [c|] eqn:Hl; [|done].
  by rewrite (lookup_app_l_Some _ _ _ _ Hl).
Qed.

Lemma readObject_alloc (h : list cell) c l :
  is_Some (readObject h l) -> is_Some (readObject (fst (alloc h c)) l).
Proof. intros H. simpl. by rewrite readObject_app_l. Qed.

Lemma readObject_new (h : list cell) o :
  readObject (h ++ [Obj o]) (length h) = Some o.
Proof.
  unfold readObject.
  rewrite lookup_app_r by lia. by rewrite Nat.sub_diag.
Qed.

Lemma readObject_write (h : list cell) l o l' :
  is_Some (readObject h l') -> is_Some (readObject (writeObject h l o) l').
Proof.
  unfold readObject, writeObject. intros [o' Ho'].
  destruct (h !! l') as [c|] eqn:Hl'; [|done].
  destruct (decide (l = l')) as [->|Hne].
  - rewrite list_lookup_insert_eq; [eauto|]. by eapply lookup_lt_Some.
  - rewrite list_lookup_insert_ne by done. rewrite Hl'. eauto.
Qed.

Lemma writeObject_prefix (h0 h : list cell) l o :
  length h0 <= l -> h0 `prefix_of` h -> h0 `prefix_of` writeObject h l o.
Proof.
  intros Hl [k ->]. unfold writeObject.
  exists (<[l - length h0 := Obj o]> k). by rewrite insert_app_r_alt.
Qed.

Lemma alloc_prefix (h0 h : list cell) c :
  h0 `prefix_of` h -> h0 `prefix_of` fst (alloc h c).
Proof. intros [k ->]. exists (k ++ [c]). simpl. by rewrite app_assoc. Qed.

Lemma prefix_lookup (h0 h : list cell) l c :
  h0 `prefix_of` h -> h0 !! l = Some c -> h !! l = Some c.
Proof. intros [k ->] Hl. by apply lookup_app_l_Some. Qed.

(** The first pass allocates one new object per element and writes
    nowhere else. *)
Lemma signAll_spec (h0 : list cell) : forall elems h pws,
  h0 `prefix_of` h ->
  Forall (fun l => is_Some (readObject h l)) elems ->
  Forall (fun l => length h0 <= l /\ is_Some (readObject h l)) pws ->
  exists h1 pws1,
    signAll h elems pws = Some (h1, pws1)
    /\ h0 `prefix_of` h1
    /\ length pws1 = length pws + length elems
    /\ Forall (fun l => length h0 <= l /\ is_Some (readObject h1 l)) pws1.
Proof.
  induction elems as [|l elems IH]; intros h pws Hpre Helems Hpws; simpl.
  - exists h, pws. repeat split; try done; lia.
  - apply Forall_cons in Helems as [[o Ho] Helems]. rewrite Ho.
    set (copy := Store.withSignature o).
    destruct (IH (h ++ [Obj copy]) (pws ++ [length h])) as (h1 & pws1 & Hrun & ? & Hlen & ?).
    + by apply (alloc_prefix h0 h (Obj copy)).
    + eapply Forall_impl; [exact Helems|]. intros l' Hl'. simpl.
      by rewrite readObject_app_l.
    + apply Forall_app. split.
      * eapply Forall_impl; [exact Hpws|]. intros l' [? Hl']. simpl.
        split; [done|]. by rewrite readObject_app_l.
      * apply Forall_singleton. split.
        -- destruct Hpre as [k ->]. rewrite length_app. lia.
        -- rewrite readObject_new. eauto.
    + exists h1, pws1. rewrite Hrun. repeat split; try done.
      rewrite Hlen, length_app. simpl. lia.
Qed.

(** One turn of the second pass assigns to an object of
    [photosWithSignatures] and allocates the record it pushes. *)
Lemma categorizeAt_spec (h0 : list cell) now pws index l h :
  h0 `prefix_of` h ->
  Forall (fun l => length h0 <= l /\ is_Some (readObject h l)) pws ->
  length h0 <= l -> is_Some (readObject h l) ->
  exists h1 lo,
    categorizeAt now pws index l h = Some (h1, lo)
    /\ h0 `prefix_of` h1
    /\ Forall (fun l => length h0 <= l /\ is_Some (readObject h1 l)) pws
    /\ length h0 <= lo /\ is_Some (readObject h1 lo)
    /\ (forall l', is_Some (readObject h l') -> is_Some (readObject h1 l')).
Proof.
  intros Hpre Hpws Hl [o Ho]. unfold categorizeAt.
  assert (Hsigned : is_Some (mapM (readSigned h) pws)).
  { apply mapM_is_Some. eapply Forall_impl; [exact Hpws|].
    intros l' [_ [o' Ho']]. unfold readSigned. simpl. rewrite Ho'. eauto. }
  destruct Hsigned as [signed ->]. rewrite Ho.
  set (out := categorize _ _ _ _ _).
  set (o' := annotate o out).
  eexists _, _. split; [reflexivity|].
  assert (Hkeep : forall l', is_Some (readObject h l') ->
            is_Some (readObject (fst (alloc (writeObject h l o') (Obj (outputObject o' out)))) l')).
  { intros l' Hl'. apply readObject_alloc. by apply readObject_write. }
  split; [|split; [|split; [|split]]].
  - apply alloc_prefix. by apply writeObject_prefix.
  - eapply Forall_impl; [exact Hpws|]. intros l' [? Hl']. split; [done|].
    by apply Hkeep.
  - simpl. unfold writeObject. rewrite length_insert.
    destruct Hpre as [k ->]. rewrite length_app. lia.
  - simpl. rewrite readObject_new. eauto.
  - exact Hkeep.
Qed.

Lemma categorizeAll_spec (h0 : list cell) clock pws : forall rest index h categorized,
  h0 `prefix_of` h ->
  Forall (fun l => length h0 <= l /\ is_Some (readObject h l)) pws ->
  Forall (fun l => length h0 <= l /\ is_Some (readObject h l)) rest ->
  Forall (fun l => length h0 <= l /\ is_Some (readObject h l)) categorized ->
  exists h1 categorized1,
    categorizeAll clock pws index rest h categorized = Some (h1, categorized1)
    /\ h0 `prefix_of` h1
    /\ length categorized1 = length categorized + length rest
    /\ Forall (fun l => length h0 <= l /\ is_Some (readObject h1 l)) categorized1.
Proof.
  induction rest as [|l rest IH]; intros index h categorized Hpre Hpws Hrest Hcat; simpl.
  - exists h, categorized. repeat split; try done; lia.
  - apply Forall_cons in Hrest as [[Hl Hobj] Hrest].
    destruct (categorizeAt_spec h0 (clock index) pws index l h Hpre Hpws Hl Hobj)
      as (h1 & lo & Hrun & Hpre1 & Hpws1 & Hlo & Hobjlo & Hkeep).
    rewrite Hrun.
    destruct (IH (S index) h1 (categorized ++ [lo])) as (h2 & cat2 & Hrun2 & ? & Hlen & ?);
      try done.
    + eapply Forall_impl; [exact Hrest|]. intros l' [? ?]. split; [done|].
      by apply Hkeep.
    + apply Forall_app. split.
      * eapply Forall_impl; [exact Hcat|]. intros l' [? ?]. split; [done|].
        by apply Hkeep.
      * by apply Forall_singleton.
    + exists h2, cat2. rewrite Hrun2. repeat split; try done.
      rewrite Hlen, length_app. simpl. lia.
Qed.

End StorePreservation.

Section StoreTheorem.

Import Store.
Local Open Scope nat_scope.

(** C10. Running the pipeline on a store leaves every cell that existed
    before the call as it was, in particular the input array and every
    input record; the returned array and every record in it are at
    addresses that were not in use before the call, so no returned
    record is an input record.  The call returns on every well-formed
    argument, and on a null argument. *)
Theorem input_is_never_mutated (clock : nat -> Z) (h : list cell) (a : nat) :
  wellFormed h a ->
  exists h' r elems outs,
    Store.detectDuplicatesAndSimilar clock h (Some a) = Some (h', r)
    /\ h `prefix_of` h'
    /\ (forall l c, h !! l = Some c -> h' !! l = Some c)
    /\ readArray h a = Some elems
    /\ readArray h' a = Some elems
    /\ Forall (fun l => readObject h' l = readObject h l) elems
    /\ length h <= r
    /\ readArray h' r = Some outs
    /\ length outs = length elems
    /\ Forall (fun lo => length h <= lo /\ is_Some (readObject h' lo)) outs
    /\ Store.detectDuplicatesAndSimilar clock h None = Some (h ++ [Arr []], length h).
Proof.
  intros (elems & Harr & Helems).
  assert (Hfinal : forall h2 cat2,
    h `prefix_of` h2 ->
    length cat2 = length elems ->
    Forall (fun l => length h <= l /\ is_Some (readObject h2 l)) cat2 ->
    let h' := h2 ++ [Arr cat2] in
    h `prefix_of` h'
    /\ (forall l c, h !! l = Some c -> h' !! l = Some c)
    /\ readArray h a = Some elems
    /\ readArray h' a = Some elems
    /\ Forall (fun l => readObject h' l = readObject h l) elems
    /\ length h <= length h2
    /\ readArray h' (length h2) = Some cat2
    /\ length cat2 = length elems
    /\ Forall (fun lo => length h <= lo /\ is_Some (readObject h' lo)) cat2
    /\ Some (h ++ [Arr []], length h) = Some (h ++ [Arr []], length h)).
  { intros h2 cat2 Hpre Hlen Hcat h'.
    assert (Hpre' : h `prefix_of` h') by (by apply (alloc_prefix h h2 (Arr cat2))).
    assert (Hkeep : forall l c, h !! l = Some c -> h' !! l = Some c)
      by (intros l c; by apply prefix_lookup).
    split; [done|]. split; [done|]. split; [done|]. split.
    { unfold readArray in *. destruct (h !! a) as [c|] eqn:Ha; [|done].
      by rewrite (Hkeep a c Ha). }
    split.
    { eapply Forall_impl; [exact Helems|]. intros l [o Ho].
      unfold readObject in *. destruct (h !! l) as [c|] eqn:Hl; [|done].
      by rewrite (Hkeep l c Hl). }
    split. { destruct Hpre as [k ->]. rewrite length_app. lia. }
    split. { unfold readArray, h'. rewrite lookup_app_r by lia.
             by rewrite Nat.sub_diag. }
    split; [done|]. split; [|done].
    eapply Forall_impl; [exact Hcat|]. intros lo [? ?]. split; [done|].
    unfold h'. by rewrite readObject_app_l. }
  assert (Hrun : exists h2 cat2,
    Store.detectDuplicatesAndSimilar clock h (Some a)
    = Some (h2 ++ [Arr cat2], length h2)
    /\ h `prefix_of` h2
    /\ length cat2 = length elems
    /\ Forall (fun l => length h <= l /\ is_Some (readObject h2 l)) cat2).
  { unfold Store.detectDuplicatesAndSimilar. rewrite Harr.
    destruct (Nat.eqb_spec (length elems) 0) as [Hzero|Hpos].
    - exists h, []. repeat split; try done; simpl; lia.
    - destruct (signAll_spec h elems h []) as (h1 & pws & -> & Hpre1 & Hlen1 & Hpws);
        [done|done|done|].
      destruct (categorizeAll_spec h clock pws pws 0 h1 [])
        as (h2 & cat2 & -> & Hpre2 & Hlen2 & Hcat); [done|done|done|done|].
      exists h2, cat2. repeat split; try done; simpl in *; lia. }
  destruct Hrun as (h2 & cat2 & Hrun & Hpre & Hlen & Hcat).
  exists (h2 ++ [Arr cat2]), (length h2), elems, cat2. split; [done|].
  by apply (Hfinal h2 cat2).
Qed.

Lemma input_is_never_mutated_witness :
  exists h' r,
    Store.detectDuplicatesAndSimilar Samples.clock
      [Obj (plain Samples.img1); Obj (plain Samples.img1copy); Arr [0; 1]] (Some 2)
    = Some (h', r)
    /\ [Obj (plain Samples.img1); Obj (plain Samples.img1copy); Arr [0; 1]]
       `prefix_of` h'
    /\ 3 <= r.
Proof.
  destruct (input_is_never_mutated Samples.clock
              [Obj (plain Samples.img1); Obj (plain Samples.img1copy); Arr [0; 1]] 2)
    as (h' & r & elems & outs & Hrun & Hpre & _ & _ & _ & _ & Hr & _).
  - exists [0; 1]. split; [reflexivity|].
    repeat constructor; eexists; reflexivity.
  - exists h', r. by repeat split.
Defined.

End StoreTheorem.

(** The run on a store computes the records of [Detection]: for input
    objects that carry the six photo properties only, the objects of the
    returned array are the records [Detection.detectDuplicatesAndSimilar]
    returns. *)
Section StoreRefinement.

Import Store.
Local Open Scope nat_scope.

Variable clock : nat -> Z.
Variable photos : list Photo.t.

Local Abbreviation signed := (map Detection.withSignature photos).
Local Abbreviation expected :=
  (fst (Detection.detectDuplicatesAndSimilar clock (Some photos) false)).
Local Abbreviation signedAt := (Store.signedAt photos).

Lemma signAll_exact : forall elems objs (h : list cell) pws,
  Forall2 (fun l o => readObject h l = Some o) elems objs ->
  signAll h elems pws
  = Some (h ++ map (fun o => Obj (Store.withSignature o)) objs,
          pws ++ seq (length h) (length elems)).
Proof.
  induction elems as [|l elems IH]; intros objs h pws Hobjs.
  - apply Forall2_nil_inv_l in Hobjs as ->. simpl. by rewrite !app_nil_r.
  - apply Forall2_cons_inv_l in Hobjs as (o & objs' & Ho & Hobjs & ->).
    simpl. rewrite Ho. rewrite (IH objs').
    + rewrite <- !app_assoc, length_app. simpl.
      by rewrite Nat.add_1_r.
    + eapply Forall2_impl; [exact Hobjs|]. intros l' o' Hl'. simpl.
      rewrite readObject_app_l; [done|]. rewrite Hl'. eauto.
Qed.

Lemma signedAt_read base k h :
  signedAt base k h ->
  mapM (readSigned h) (seq base (length photos)) = Some signed.
Proof.
  intros [_ Hat]. apply mapM_Some. apply Forall2_same_length_lookup_2.
  - by rewrite length_seq, length_map.
  - intros j l s Hl Hs. apply lookup_seq in Hl as [-> Hj].
    rewrite list_lookup_fmap in Hs.
    destruct (photos !! j) as [p|] eqn:Hp; [|done]. injection Hs as <-.
    destruct (Hat j p Hp) as (o & Ho & Hphoto & Hsig & _).
    unfold readSigned, signedView. rewrite Ho. simpl.
    by rewrite Hphoto, Hsig.
Qed.

Lemma annotate_fields o out :
  photo (annotate o out) = photo o
  /\ signature (annotate o out) = signature o
  /\ (similarCount o = None ->
      similarCount (annotate o out) = Categorized.similarCount out).
Proof.
  unfold annotate.
  destruct (Categorized.isDuplicate out), (Categorized.similarCount out); simpl; auto.
Qed.

Lemma categorizeAt_refines base k h p :
  signedAt base k h -> photos !! k = Some p ->
  let out :=
    categorize (clock k) signed (groupBySignature signed) k
      (Detection.withSignature p) in
  exists h1,
    categorizeAt (clock k) (seq base (length photos)) k (base + k) h
    = Some (h1, length h)
    /\ signedAt base (S k) h1
    /\ readObject h1 (length h) = Some (ofCategorized out)
    /\ (forall lo, base + length photos <= lo ->
          is_Some (readObject h lo) -> readObject h1 lo = readObject h lo).
Proof.
  intros Hat Hp out. unfold categorizeAt.
  rewrite (signedAt_read base k h Hat).
  destruct Hat as [Hlen Hat].
  destruct (Hat k p Hp) as (o & Ho & Hphoto & Hsig & Hsim).
  rewrite Ho.
  assert (Hview : signedView o = Detection.withSignature p).
  { unfold signedView, Detection.withSignature. by rewrite Hphoto, Hsig. }
  rewrite Hview. fold out.
  destruct (annotate_fields o out) as (Hp' & Hs' & Hc').
  eexists. split; [unfold alloc, writeObject; by rewrite length_insert|].
  split; [|split].
  - split; [simpl; rewrite length_app, length_insert; lia|].
    intros j q Hq. simpl.
    assert (Hj : j < length photos) by (by eapply lookup_lt_Some).
    destruct (decide (j = k)) as [->|Hne].
    + exists (annotate o out). split.
      * unfold readObject, writeObject. rewrite lookup_app_l
          by (rewrite length_insert; lia).
        rewrite list_lookup_insert_eq by lia. done.
      * rewrite Hp in Hq. injection Hq as <-.
        rewrite Hp', Hs'. repeat split; try done. lia.
    + destruct (Hat j q Hq) as (o' & Ho' & ? & ? & Hsim').
      exists o'. split.
      * unfold readObject, writeObject in *. rewrite lookup_app_l
          by (rewrite length_insert; lia).
        rewrite list_lookup_insert_ne by lia. done.
      * repeat split; try done. intros ?. apply Hsim'. lia.
  - simpl. unfold writeObject.
    replace (length h) with (length (<[base + k := Obj (annotate o out)]> h))
      by apply length_insert.
    rewrite readObject_new. f_equal.
    unfold outputObject, ofCategorized. rewrite Hp', Hs', Hc' by (apply Hsim; lia).
    unfold out. rewrite categorize_photo, categorize_signature. simpl.
    by rewrite Hphoto, Hsig.
  - intros lo Hlo Hsome. simpl. rewrite readObject_app_l.
    + unfold readObject, writeObject. rewrite list_lookup_insert_ne; [done|].
      apply lookup_lt_Some in Hp. lia.
    + by apply readObject_write.
Qed.

Lemma categorizeAll_refines base : forall m k h categorized,
  k + m = length photos ->
  signedAt base k h ->
  Forall2 (fun lo c => readObject h lo = Some (ofCategorized c))
    categorized (take k expected) ->
  Forall (fun lo => base + length photos <= lo) categorized ->
  exists h1 categorized1,
    categorizeAll clock (seq base (length photos)) k (seq (base + k) m) h categorized
    = Some (h1, categorized1)
    /\ Forall2 (fun lo c => readObject h1 lo = Some (ofCategorized c))
         categorized1 expected.
Proof.
  induction m as [|m IH]; intros k h categorized Hk Hat Hcat Hfresh.
  - simpl. exists h, categorized. split; [done|].
    rewrite take_ge in Hcat; [done|].
    rewrite detect_output, length_imap. lia.
  - simpl. destruct (lookup_lt_is_Some_2 photos k) as [p Hp]; [lia|].
    destruct (categorizeAt_refines base k h p Hat Hp)
      as (h1 & -> & Hat1 & Hnew & Hkeep).
    replace (S (base + k)) with (base + S k) by lia.
    apply (IH (S k) h1 (categorized ++ [length h])); [lia|done| |].
    + rewrite (take_S_r _ _ (categorize (clock k) signed (groupBySignature signed) k
                               (Detection.withSignature p))).
      * apply Forall2_app; [|by apply Forall2_cons].
        apply Forall2_same_length_lookup_2; [by eapply Forall2_length|].
        intros i lo c Hlo Hc.
        assert (Hread : readObject h lo = Some (ofCategorized c)).
        { by apply (Forall2_lookup_lr _ _ _ i lo c Hcat). }
        rewrite Hkeep.
        -- done.
        -- by apply (Forall_lookup_1 _ _ i lo Hfresh).
        -- rewrite Hread. eauto.
      * by rewrite detect_lookup, Hp.
    + apply Forall_app. split; [done|]. apply Forall_singleton.
      by destruct Hat.
Qed.

Lemma store_run_refines (h : list cell) (a : nat) (elems : list nat) :
  readArray h a = Some elems ->
  Forall2 (fun l p => readObject h l = Some (plain p)) elems photos ->
  exists h' r outs,
    Store.detectDuplicatesAndSimilar clock h (Some a) = Some (h', r)
    /\ readArray h' r = Some outs
    /\ Forall2 (fun lo c => readObject h' lo = Some (ofCategorized c)) outs expected.
Proof.
  intros Harr Hobjs. unfold Store.detectDuplicatesAndSimilar. rewrite Harr.
  assert (Hlen : length elems = length photos) by (by eapply Forall2_length).
  destruct (Nat.eqb_spec (length elems) 0) as [Hzero|Hpos].
  - exists (h ++ [Arr []]), (length h), []. split; [done|]. split.
    + unfold readArray. rewrite lookup_app_r by lia. by rewrite Nat.sub_diag.
    + destruct photos; [|simpl in *; lia]. constructor.
  - rewrite (signAll_exact elems (map plain photos)).
    2:{ apply Forall2_fmap_r. exact Hobjs. }
    simpl. rewrite Hlen.
    set (h1 := h ++ map (fun o => Obj (Store.withSignature o)) (map plain photos)).
    destruct (categorizeAll_refines (length h) (length photos) 0 h1 [])
      as (h2 & outs & Hrun & Hout).
    + lia.
    + split.
      * unfold h1. rewrite length_app, !length_map. lia.
      * intros j p Hp. exists (Store.withSignature (plain p)).
        split; [|by repeat split].
        unfold readObject, h1. rewrite lookup_app_r by lia.
        replace (length h + j - length h) with j by lia.
        by rewrite !list_lookup_fmap, Hp.
    + constructor.
    + constructor.
    + rewrite Nat.add_0_r in Hrun. rewrite Hrun.
      exists (h2 ++ [Arr outs]), (length h2), outs. split; [done|]. split.
      * unfold readArray. rewrite lookup_app_r by lia. by rewrite Nat.sub_diag.
      * eapply Forall2_impl; [exact Hout|]. intros lo c Hlo. simpl.
        rewrite readObject_app_l; [done|]. rewrite Hlo. eauto.
Qed.

End StoreRefinement.

(** * Further properties *)

Import Similarity Grouping Caller Storage Spec2.

Section CalculateSimilarity.

Local Open Scope nat_scope.

Lemma foldl_count_shift {B} (f : B -> bool) (l : list B) : forall acc,
  foldl (fun distance i => if f i then distance else S distance) acc l
  = acc + foldl (fun distance i => if f i then distance else S distance) 0 l.
Proof.
  induction l as [|x l IH]; intros acc; simpl; [lia|].
  rewrite IH, (IH (if f x then 0 else 1)). destruct (f x); lia.
Qed.

Lemma hammingLoop_cons c1 r1 c2 r2 n :
  hammingLoop (String c1 r1) (String c2 r2) (S n)
  = (if bool_decide (c1 = c2) then 0 else 1) + hammingLoop r1 r2 n.
Proof.
  unfold hammingLoop. rewrite <- cons_seq. cbn [foldl].
  rewrite foldl_count_shift. simpl String.get.
  rewrite <- fmap_S_seq.
  assert (Hc : bool_decide (Some c1 = Some c2) = bool_decide (c1 = c2)).
  { apply bool_decide_ext. split; [by intros [= ->]|by intros ->]. }
  rewrite Hc. f_equal.
  assert (Hshift : forall (l : list nat) acc,
    foldl (fun distance i =>
             if bool_decide (String.get i (String c1 r1) = String.get i (String c2 r2))
             then distance else S distance) acc (S <$> l)
    = foldl (fun distance i =>
               if bool_decide (String.get i r1 = String.get i r2)
               then distance else S distance) acc l).
  { induction l as [|i l IH]; intros acc; [done|]. simpl. apply IH. }
  apply Hshift.
Qed.

(** The index loop counts the differing positions of the common part. *)
Lemma hammingLoop_hamming : forall s1 s2,
  hammingLoop s1 s2 (Nat.min (String.length s1) (String.length s2)) = hamming s1 s2.
Proof.
  induction s1 as [|c1 r1 IH]; intros [|c2 r2]; try reflexivity.
  simpl String.length. rewrite <- Nat.succ_min_distr.
  rewrite hammingLoop_cons. simpl. by rewrite IH.
Qed.

Lemma hamming_comm : forall s1 s2, hamming s1 s2 = hamming s2 s1.
Proof.
  induction s1 as [|c1 r1 IH]; intros [|c2 r2]; try reflexivity.
  simpl. rewrite IH. f_equal.
  destruct (decide (c1 = c2)) as [->|Hne]; [done|].
  rewrite !bool_decide_eq_false_2; congruence.
Qed.

Lemma hamming_le : forall s1 s2,
  hamming s1 s2 <= Nat.min (String.length s1) (String.length s2).
Proof.
  induction s1 as [|c1 r1 IH]; intros [|c2 r2]; simpl; try lia.
  specialize (IH r2). destruct (bool_decide (c1 = c2)); lia.
Qed.

Lemma hamming_zero : forall s1 s2,
  hamming s1 s2 = 0 <-> String.prefix s1 s2 = true \/ String.prefix s2 s1 = true.
Proof.
  induction s1 as [|c1 r1 IH]; intros [|c2 r2]; simpl; try tauto.
  destruct (decide (c1 = c2)) as [->|Hne].
  - rewrite bool_decide_eq_true_2 by done. simpl. rewrite IH.
    destruct (ascii_dec c2 c2); [done|congruence].
  - rewrite bool_decide_eq_false_2 by done. simpl.
    destruct (ascii_dec c1 c2); [done|].
    destruct (ascii_dec c2 c1); [congruence|]. split; [lia|]. by intros [|].
Qed.

Lemma calculateSimilarity_ratio s1 s2 :
  s1 <> s2 ->
  calculateSimilarity s1 s2
  = (inject_Z (Z.of_nat (hamming s1 s2))
     / inject_Z (Z.of_nat (Nat.max (String.length s1) (String.length s2))))%Q
  /\ 0 < Nat.max (String.length s1) (String.length s2).
Proof.
  intros Hne. unfold calculateSimilarity.
  destruct (String.eqb_spec s1 s2); [done|].
  rewrite hammingLoop_hamming. split; [done|].
  destruct s1, s2; simpl; try lia. done.
Qed.

(** X1. [calculateSimilarity] is symmetric and lies between 0 and 1; it
    is 0 exactly when one signature is a prefix of the other (equal
    signatures included), not only when they are identical. *)
Theorem calculateSimilarity_properties (s1 s2 : string) :
  calculateSimilarity s1 s2 = calculateSimilarity s2 s1
  /\ (0 <= calculateSimilarity s1 s2)%Q
  /\ (calculateSimilarity s1 s2 <= 1)%Q
  /\ ((calculateSimilarity s1 s2 == 0)%Q
      <-> String.prefix s1 s2 = true \/ String.prefix s2 s1 = true).
Proof.
  destruct (decide (s1 = s2)) as [->|Hne].
  { unfold calculateSimilarity. rewrite String.eqb_refl.
    repeat split; try done. intros _. left.
    clear. induction s2 as [|c r IH]; simpl; [done|].
    destruct (ascii_dec c c); [done|congruence]. }
  destruct (calculateSimilarity_ratio s1 s2 Hne) as [H12 Hpos].
  destruct (calculateSimilarity_ratio s2 s1) as [H21 _]; [congruence|].
  rewrite H12, H21.
  pose proof (hamming_le s1 s2) as Hle.
  set (d := hamming s1 s2) in *.
  set (m := Nat.max (String.length s1) (String.length s2)) in *.
  assert (Hq : (inject_Z (Z.of_nat d) / inject_Z (Z.of_nat m)
                == Z.of_nat d # Pos.of_nat m)%Q).
  { unfold Qdiv, Qinv, Qmult, inject_Z, Qeq. simpl.
    destruct m as [|m']; [lia|]. simpl Z.of_nat. simpl.
    rewrite Pos.of_nat_succ. lia. }
  split; [|split; [|split]].
  - unfold d, m. by rewrite hamming_comm, Nat.max_comm.
  - rewrite Hq. unfold Qle. simpl. lia.
  - rewrite Hq. unfold Qle. simpl.
    assert (Z.pos (Pos.of_nat m) = Z.of_nat m).
    { destruct m; [lia|]. rewrite <- Pos.of_nat_succ. lia. }
    lia.
  - rewrite Hq. unfold Qeq. simpl. rewrite <- (hamming_zero s1 s2). fold d. lia.
Qed.

End CalculateSimilarity.

Section FileNames.

Local Open Scope nat_scope.

Lemma split_slash_nonempty s : split_slash s <> [].
Proof.
  destruct s as [|c s]; simpl; [done|].
  destruct (Ascii.eqb c "/"); [done|]. by destruct (split_slash s).
Qed.

Lemma split_slash_noSlash : forall s, noSlash s = true -> split_slash s = [s].
Proof.
  induction s as [|c s IH]; simpl; [done|].
  intros H. apply andb_true_iff in H as [Hc Hs].
  apply negb_true_iff in Hc. rewrite Hc, (IH Hs). done.
Qed.

Lemma split_slash_app b : forall a,
  split_slash (String.append a (String "/" b)) = split_slash a ++ split_slash b.
Proof.
  induction a as [|c a IH]; [done|].
  rewrite append_cons. simpl. rewrite IH.
  destruct (Ascii.eqb c "/"); [done|].
  pose proof (split_slash_nonempty a). by destruct (split_slash a).
Qed.

Lemma split_slash_parts : forall s, Forall (fun part => noSlash part = true) (split_slash s).
Proof.
  induction s as [|c s IH]; simpl; [by repeat constructor|].
  destruct (Ascii.eqb c "/") eqn:Hc; [by constructor|].
  pose proof (split_slash_nonempty s).
  destruct (split_slash s) as [|h r]; [done|].
  apply Forall_cons in IH as [Hh Hr]. constructor; [|done].
  simpl. by rewrite Hc, Hh.
Qed.

Lemma last_app_nonempty {A} (l1 l2 : list A) d :
  l2 <> [] -> List.last (l1 ++ l2) d = List.last l2 d.
Proof.
  intros Hne. induction l1 as [|x l1 IH]; [done|].
  simpl. destruct (l1 ++ l2) eqn:E; [|done].
  apply app_eq_nil in E as [_ ->]. done.
Qed.

Lemma last_Forall {A} (P : A -> Prop) (l : list A) d :
  l <> [] -> Forall P l -> P (List.last l d).
Proof.
  intros Hne H. induction H as [|x l Hx Hl IH]; [done|].
  simpl. destruct l; [done|]. by apply IH.
Qed.

Lemma extractFileName_segment (dir name : string) :
  noSlash name = true ->
  extractFileName (String.append dir (String "/" name)) = name
  /\ extractFileName name = name.
Proof.
  intros Hname. unfold extractFileName.
  rewrite split_slash_app, last_app_nonempty by apply split_slash_nonempty.
  by rewrite (split_slash_noSlash name Hname).
Qed.

(** X2. [extractFileName] returns the text after the last [/]: the
    result contains no [/], a name without [/] is recovered from any
    directory it is appended to, and a uri without [/] is its own file
    name. *)
Theorem extractFileName_last_segment (dir name : string) :
  noSlash (extractFileName dir) = true
  /\ (noSlash name = true ->
      extractFileName (String.append dir (String "/" name)) = name
      /\ extractFileName name = name).
Proof.
  split.
  - unfold extractFileName.
    apply (last_Forall (fun part => noSlash part = true));
      [apply split_slash_nonempty|apply split_slash_parts].
  - apply extractFileName_segment.
Qed.

Lemma extractFileName_last_segment_witness :
  extractFileName "file:///DCIM/Camera/IMG_001.jpg" = "IMG_001.jpg"%string.
Proof.
  apply (proj1 (proj2 (extractFileName_last_segment "file:///DCIM/Camera"
                         "IMG_001.jpg") eq_refl)).
Defined.






Lemma toLowerCase_empty s : toLowerCase s = EmptyString <-> s = EmptyString.
Proof. by destruct s. Qed.













(** X4. [areLikelyDuplicatesByFilename] is symmetric, is false for two
    uris with the same file name (so for a uri and itself), and every
    pair it accepts has equal normalised names in the pipeline. *)
Theorem areLikelyDuplicatesByFilename_properties (uri1 uri2 : string) :
  areLikelyDuplicatesByFilename uri1 uri2 = areLikelyDuplicatesByFilename uri2 uri1
  /\ (extractFileName uri1 = extractFileName uri2 ->
      areLikelyDuplicatesByFilename uri1 uri2 = false)
  /\ (areLikelyDuplicatesByFilename uri1 uri2 = true ->
      filenameBase uri1 = filenameBase uri2
      /\ extractFileName uri1 <> extractFileName uri2).
Proof.
  unfold areLikelyDuplicatesByFilename. split; [|split].
  - by rewrite (String.eqb_sym (nameBase _)), (String.eqb_sym (extractFileName uri1)).
  - intros ->. by rewrite !String.eqb_refl.
  - intros H. apply andb_true_iff in H as [Hb Hn].
    apply String.eqb_eq in Hb. apply negb_true_iff, String.eqb_neq in Hn.
    split; [|done]. unfold filenameBase. fold (nameBase (extractFileName uri1)).
    fold (nameBase (extractFileName uri2)). by rewrite Hb.
Qed.

Lemma areLikelyDuplicatesByFilename_properties_witness :
  filenameBase "a/IMG_1234.jpg" = filenameBase "a/IMG_1234 (1).jpg"
  /\ extractFileName "a/IMG_1234.jpg" <> extractFileName "a/IMG_1234 (1).jpg".
Proof.
  apply (proj2 (proj2 (areLikelyDuplicatesByFilename_properties
                         "a/IMG_1234.jpg" "a/IMG_1234 (1).jpg")) eq_refl).
Defined.

End FileNames.

Section SignatureShape.

Local Open Scope Z_scope.

Lemma to_int32_range z : - 2 ^ 31 <= to_int32 z < 2 ^ 31.
Proof.
  unfold to_int32. pose proof (Z.mod_pos_bound (z + 2 ^ 31) (2 ^ 32) ltac:(lia)). lia.
Qed.

Lemma rollingHash_range : forall str h,
  - 2 ^ 31 <= h < 2 ^ 31 -> - 2 ^ 31 <= rollingHash h str < 2 ^ 31.
Proof.
  induction str as [|c str IH]; intros h Hh; simpl; [done|].
  apply IH, to_int32_range.
Qed.

Lemma digit36_base36 d : 0 <= d < 36 -> isBase36Digit (digit36 d) = true.
Proof.
  intros Hd. unfold isBase36Digit, digit36, charCode.
  destruct (Z.ltb_spec d 10); rewrite N_ascii_embedding by lia;
    rewrite Z2N.id by lia; apply orb_true_iff; [left|right];
    apply andb_true_iff; split; apply Z.leb_le; lia.
Qed.

Lemma toString36_digits_shape : forall fuel n acc (k : nat),
  0 <= n < 36 ^ Z.of_nat k -> (1 <= k)%nat ->
  allChars isBase36Digit acc = true ->
  (String.length (toString36_digits fuel n acc) <= String.length acc + k)%nat
  /\ allChars isBase36Digit (toString36_digits fuel n acc) = true.
Proof.
  induction fuel as [|fuel IH]; intros n acc k Hn Hk Hacc; simpl.
  - split; [lia|done].
  - pose proof (Z.mod_pos_bound n 36 ltac:(lia)) as Hmod.
    assert (Hacc' : allChars isBase36Digit (String (digit36 (n mod 36)) acc) = true).
    { simpl. by rewrite digit36_base36, Hacc. }
    destruct (Z.eqb_spec (n / 36) 0) as [Hz|Hnz].
    + split; [simpl; lia|done].
    + destruct k as [|[|k]]; [lia| |].
      * exfalso. apply Hnz. apply Z.div_small. simpl in Hn. lia.
      * destruct (IH (n / 36) (String (digit36 (n mod 36)) acc) (S k)) as [Hlen Hall];
          [|lia|done|].
        -- split; [apply Z.div_pos; lia|].
           apply Z.div_lt_upper_bound; [lia|].
           rewrite (Nat2Z.inj_succ (S k)), Z.pow_succ_r in Hn by lia. lia.
        -- split; [|done]. simpl in Hlen. lia.
Qed.

(** X5. Every signature is a short base-36 numeral: [simpleHash]
    returns between one and six characters, all of them digits [0-9] or
    letters [a-z], whose value is at most 2^31. *)
Theorem simpleHash_shape (str : string) :
  (1 <= String.length (simpleHash str) <= 6)%nat
  /\ allChars isBase36Digit (simpleHash str) = true
  /\ 0 <= value36 (simpleHash str) <= 2 ^ 31.
Proof.
  unfold simpleHash. rewrite simpleHash_loop_spec.
  pose proof (rollingHash_range str 0 ltac:(lia)) as Hrange.
  set (n := Z.abs (rollingHash 0 str)).
  assert (Hn : 0 <= n <= 2 ^ 31) by lia.
  destruct (toString36_digits_shape (S (Z.to_nat (Z.log2 n))) n EmptyString 6)
    as [Hlen Hall]; [simpl; lia|lia|done|].
  fold (toString36 n) in Hlen, Hall.
  split; [|split; [done|]].
  - split; [|simpl in Hlen; lia].
    destruct (toString36 n) eqn:E; [|simpl; lia].
    exfalso. unfold toString36 in E.
    by apply (toString36_digits_nonempty (Z.to_nat (Z.log2 n)) (n / 36)
                (String (digit36 (n mod 36)) EmptyString)); [|
      simpl in E; destruct (n / 36 =? 0); [done|exact E]].
  - rewrite toString36_value by lia. lia.
Qed.

Lemma round_div_bucket (s k : Z) :
  round_div (JInt s) 1000 = JInt k <-> 1000 * k - 500 <= s < 1000 * k + 500.
Proof.
  unfold round_div. simpl.
  pose proof (Z.div_mod (2 * s + 1000) 2000 ltac:(lia)) as Hdiv.
  pose proof (Z.mod_pos_bound (2 * s + 1000) 2000 ltac:(lia)) as Hmod.
  change (2 * 1000) with 2000.
  split.
  - intros [= <-]. lia.
  - intros Hk. f_equal. lia.
Qed.

Lemma floor_div_bucket (t m : Z) :
  floor_div (JInt t) 60000 = JInt m <-> 60000 * m <= t < 60000 * m + 60000.
Proof.
  unfold floor_div. simpl.
  pose proof (Z.div_mod t 60000 ltac:(lia)) as Hdiv.
  pose proof (Z.mod_pos_bound t 60000 ltac:(lia)) as Hmod.
  split.
  - intros [= <-]. lia.
  - intros Hm. f_equal. lia.
Qed.

(** X6. The quantisation of the signature: two photos with the same
    width and height and the same normalised file name have the same
    signature whenever their sizes lie in one bucket
    [1000k - 500, 1000k + 500) and their creation times in one minute
    [60000m, 60000m + 60000). *)
Theorem signature_buckets (p q : Photo.t) (s s' t t' k m : Z) :
  Photo.width p = Photo.width q ->
  Photo.height p = Photo.height q ->
  filenameBase (Photo.uri p) = filenameBase (Photo.uri q) ->
  Photo.size p = JInt s -> Photo.size q = JInt s' ->
  Photo.creationTime p = JInt t -> Photo.creationTime q = JInt t' ->
  1000 * k - 500 <= s < 1000 * k + 500 ->
  1000 * k - 500 <= s' < 1000 * k + 500 ->
  60000 * m <= t < 60000 * m + 60000 ->
  60000 * m <= t' < 60000 * m + 60000 ->
  generateImageSignature p = generateImageSignature q.
Proof.
  intros Hw Hh Hb Hs Hs' Ht Ht' Hk Hk' Hm Hm'.
  unfold generateImageSignature, signatureString, timeRounded.
  rewrite Hw, Hh, Hb, Hs, Hs', Ht, Ht'.
  apply round_div_bucket in Hk, Hk'. apply floor_div_bucket in Hm, Hm'.
  by rewrite Hk, Hk', Hm, Hm'.
Qed.

Lemma signature_buckets_witness :
  generateImageSignature Samples.img1 = generateImageSignature Samples.img1copy.
Proof.
  apply (signature_buckets Samples.img1 Samples.img1copy
           500000 500400 1700000000000 1700000003000 500 28333333);
    try reflexivity; lia.
Defined.

End SignatureShape.

Section DetectionRecords.

Local Open Scope nat_scope.

Lemma categorize_flags now pws sm index photo :
  let o := categorize now pws sm index photo in
  Categorized.isDuplicate o = (0 <? length (fst (findDuplicates pws sm index photo)))
  /\ (DUPLICATE ∈ Categorized.categories o
      <-> 0 < length (fst (findDuplicates pws sm index photo))).
Proof.
  unfold categorize. destruct (findDuplicates _ _ _ _) as [duplicates ids]. simpl.
  split; [done|].
  set (similar := if length duplicates =? 0 then _ else _). clearbody similar.
  rewrite uniqueCategories_elem.
  destruct (Nat.ltb_spec 0 (length duplicates)), (0 <? length similar),
    (2 <? length similar),
    (isScreenshot photo), (isLowQuality photo), (isOldUnused now photo);
    simpl; (split; intros Hx; try lia; try set_solver).
Qed.

Lemma categorize_similarCount now pws sm index photo :
  let r := findDuplicates pws sm index photo in
  let similar :=
    if length (fst r) =? 0 then similarPass pws index photo (snd r) else [] in
  Categorized.similarCount (categorize now pws sm index photo)
  = if 0 <? length similar then Some (length similar) else None.
Proof. unfold categorize. by destruct (findDuplicates _ _ _ _). Qed.

Lemma categorize_id now pws sm index p :
  Categorized.id (categorize now pws sm index (withSignature p)) = Photo.id p.
Proof. unfold Categorized.id. by rewrite categorize_photo. Qed.

Variable clock : nat -> Z.
Variable photos : list Photo.t.
Variable onProgress : bool.

Local Abbreviation out :=
  (fst (detectDuplicatesAndSimilar clock (Some photos) onProgress)).
Local Abbreviation pws := (map withSignature photos).

Lemma signed_lookup i p :
  photos !! i = Some p -> pws !! i = Some (withSignature p).
Proof. intros Hp. by rewrite list_lookup_fmap, Hp. Qed.

Lemma detect_record i o :
  out !! i = Some o ->
  exists p, photos !! i = Some p
            /\ o = categorize (clock i) pws (groupBySignature pws) i (withSignature p).
Proof.
  rewrite detect_lookup. destruct (photos !! i) as [p|]; [|done].
  simpl. intros [= <-]. by exists p.
Qed.

(** X7. Two photos at different positions with the same signature are
    reported as duplicates of each other, whatever the caps of the
    file-name pass: each record lists the id of the other, has
    [isDuplicate] set and carries the label DUPLICATE. *)
Theorem equal_signatures_are_duplicates (a b : nat) (oA oB : Categorized.t) :
  out !! a = Some oA ->
  out !! b = Some oB ->
  a <> b ->
  Categorized.signature oA = Categorized.signature oB ->
  Categorized.id oB ∈ Categorized.duplicateIds oA
  /\ Categorized.id oA ∈ Categorized.duplicateIds oB
  /\ Categorized.isDuplicate oA = true
  /\ Categorized.isDuplicate oB = true
  /\ DUPLICATE ∈ Categorized.categories oA
  /\ DUPLICATE ∈ Categorized.categories oB.
Proof.
  intros HA HB Hne Hsig.
  assert (Hone : forall a b oA oB,
    out !! a = Some oA -> out !! b = Some oB -> a <> b ->
    Categorized.signature oA = Categorized.signature oB ->
    Categorized.id oB ∈ Categorized.duplicateIds oA
    /\ Categorized.isDuplicate oA = true
    /\ DUPLICATE ∈ Categorized.categories oA).
  { clear. intros a b oA oB HA HB Hne Hsig.
    apply detect_record in HA as (pa & Hpa & ->).
    apply detect_record in HB as (pb & Hpb & ->).
    rewrite !categorize_signature in Hsig. rewrite categorize_id.
    set (sm := groupBySignature pws) in *.
    destruct (categorize_duplicates (clock a) pws sm a (withSignature pa)) as [-> _].
    destruct (categorize_flags (clock a) pws sm a (withSignature pa)) as [-> ->].
    destruct (findDuplicates_spec pws a (withSignature pa) (signed_lookup a pa Hpa))
      as (_ & (extra & Hfst & _) & _).
    fold sm in Hfst.
    assert (Hin : withSignature pb ∈ signatureDuplicates pws a (withSignature pa)).
    { apply (elem_of_signatureDuplicates pws a (withSignature pa)).
      exists b. split; [done|]. split; [by apply signed_lookup|done]. }
    assert (Hin' : withSignature pb ∈ fst (findDuplicates pws sm a (withSignature pa))).
    { rewrite Hfst, elem_of_app. by left. }
    assert (Hlen : 0 < length (fst (findDuplicates pws sm a (withSignature pa)))).
    { destruct (fst (findDuplicates pws sm a (withSignature pa)));
        [by apply elem_of_nil in Hin'|simpl; lia]. }
    split; [|split; [by apply Nat.ltb_lt|done]].
    apply list_elem_of_fmap. by exists (withSignature pb). }
  destruct (Hone a b oA oB HA HB Hne Hsig) as (? & ? & ?).
  destruct (Hone b a oB oA HB HA (not_eq_sym Hne) (eq_sym Hsig)) as (? & ? & ?).
  done.
Qed.

Lemma similar_length i p :
  photos !! i = Some p ->
  let r := findDuplicates pws (groupBySignature pws) i (withSignature p) in
  length (if length (fst r) =? 0
          then similarPass pws i (withSignature p) (snd r) else [])
  = if length (fst r) =? 0 then Nat.min 5 (neighbourCount 25 24 photos i) else 0.
Proof.
  intros Hp. cbv zeta.
  destruct (findDuplicates_spec pws i (withSignature p) (signed_lookup i p Hp))
    as (Hids & _).
  cbv zeta in Hids.
  destruct (findDuplicates pws (groupBySignature pws) i (withSignature p))
    as [duplicates ids].
  simpl in *. destruct duplicates as [|d duplicates]; simpl; [|done].
  assert (ids = ∅) as ->.
  { apply set_eq. intros x. specialize (Hids x). simpl in Hids.
    rewrite elem_of_nil in Hids. set_solver. }
  apply (similarPass_count photos i p Hp).
Qed.

(** X8. Each returned record is consistent with itself:
    [duplicateCount] is the length of [duplicateIds]; [isDuplicate]
    holds exactly when the count is positive and exactly when the label
    DUPLICATE is present; no label occurs twice; [similarCount] is
    absent exactly when neither SIMILAR nor BURST is present, and when
    present it lies between 1 and 5, the record has no duplicate, and
    the label is BURST from 3 on and SIMILAR below. *)
Theorem record_invariants (i : nat) (o : Categorized.t) :
  out !! i = Some o ->
  Categorized.duplicateCount o = length (Categorized.duplicateIds o)
  /\ (Categorized.isDuplicate o = true <-> 0 < Categorized.duplicateCount o)
  /\ (DUPLICATE ∈ Categorized.categories o <-> Categorized.isDuplicate o = true)
  /\ NoDup (Categorized.categories o)
  /\ (Categorized.similarCount o = None
      <-> (SIMILAR ∉ Categorized.categories o) /\ (BURST ∉ Categorized.categories o))
  /\ (forall n, Categorized.similarCount o = Some n ->
        1 <= n <= 5
        /\ Categorized.isDuplicate o = false
        /\ (BURST ∈ Categorized.categories o <-> 2 < n)
        /\ (SIMILAR ∈ Categorized.categories o <-> n <= 2)).
Proof.
  intros Ho. apply detect_record in Ho as (p & Hp & ->).
  set (sm := groupBySignature pws).
  destruct (categorize_duplicates (clock i) pws sm i (withSignature p)) as [-> ->].
  destruct (categorize_flags (clock i) pws sm i (withSignature p)) as [-> ->].
  destruct (categorize_similar (clock i) pws sm i (withSignature p)) as [HB HS].
  cbv zeta in HB, HS. rewrite categorize_similarCount.
  pose proof (similar_length i p Hp) as Hlen. cbv zeta in Hlen. fold sm in Hlen.
  set (similar := if length _ =? 0 then _ else _) in *. clearbody similar.
  set (dups := fst (findDuplicates pws sm i (withSignature p))) in *. clearbody dups.
  split; [by rewrite length_map|].
  split; [apply Nat.ltb_lt|].
  split; [by rewrite Nat.ltb_lt|].
  split; [apply categorize_NoDup|].
  rewrite HB, HS. split.
  - destruct (Nat.ltb_spec 0 (length similar)); split; try done; lia.
  - intros n. destruct (Nat.ltb_spec 0 (length similar)); [|done].
    intros [= <-]. rewrite HB, HS.
    destruct (Nat.eqb_spec (length dups) 0) as [Hz|Hnz]; [|lia].
    rewrite Hz. split; [lia|]. split; [done|]. split; [done|]. lia.
Qed.

(** X9. Every id a record lists as a duplicate is the id of an input
    photo at another position that either has the signature of the
    record or has its normalised file name, which is then not empty. *)
Theorem duplicateIds_sound (a : nat) (oA : Categorized.t) (x : string) :
  out !! a = Some oA ->
  x ∈ Categorized.duplicateIds oA ->
  exists b p,
    b <> a /\ photos !! b = Some p /\ Photo.id p = x
    /\ (generateImageSignature p = Categorized.signature oA
        \/ (filenameBase (Photo.uri p)
            = filenameBase (Photo.uri (Categorized.photo oA))
            /\ filenameBase (Photo.uri p) <> EmptyString)).
Proof.
  intros HA Hx. apply detect_record in HA as (pa & Hpa & ->).
  rewrite categorize_signature, categorize_photo.
  set (sm := groupBySignature pws) in *.
  destruct (categorize_duplicates (clock a) pws sm a (withSignature pa)) as [Hids _].
  rewrite Hids in Hx. clear Hids.
  destruct (findDuplicates_spec pws a (withSignature pa) (signed_lookup a pa Hpa))
    as (_ & (extra & Hfst & Hextra) & _).
  fold sm in Hfst. rewrite Hfst in Hx.
  apply list_elem_of_fmap in Hx as (o & -> & Ho).
  assert (Hsigned : forall k, pws !! k = Some o ->
            exists p, photos !! k = Some p /\ o = withSignature p).
  { intros k Hk. rewrite list_lookup_fmap in Hk.
    destruct (photos !! k) as [p|]; [|done]. injection Hk as <-. by exists p. }
  apply elem_of_app in Ho as [Ho|Ho].
  - apply (elem_of_signatureDuplicates pws a (withSignature pa)) in Ho
      as (j & Hne & Hj & Hs).
    destruct (Hsigned j Hj) as (p & Hp & ->).
    exists j, p. repeat split; try done. by left.
  - destruct (Hextra o Ho) as (k & Hk & Hne & Hb & Hnonempty).
    destruct (Hsigned k Hk) as (p & Hp & ->).
    exists k, p. repeat split; try done. right. split; [done|].
    unfold Signed.uri in Hb. simpl in Hb. by rewrite Hb.
Qed.

Lemma filenamePass_NoDup index base : forall rest i dups ids,
  idsOf dups ids ->
  NoDup (map Signed.id dups) ->
  NoDup (map Signed.id (fst (filenamePass index base i rest dups ids))).
Proof.
  induction rest as [|other rest IH]; intros i dups ids Hids Hnd; cbn [filenamePass].
  - done.
  - destruct (20 <=? length dups); [done|].
    destruct ((i =? index) || bool_decide (Signed.id other ∈ ids)) eqn:Hskip;
      [by apply IH|].
    destruct (String.eqb base (filenameBase (Signed.uri other))
              && (0 <? String.length base)); [|by apply IH].
    apply orb_false_iff in Hskip as [_ Hin].
    apply bool_decide_eq_false in Hin.
    apply IH.
    + intros x. rewrite map_app, elem_of_app, elem_of_union, elem_of_singleton.
      simpl. rewrite list_elem_of_singleton. specialize (Hids x). tauto.
    + rewrite map_app. apply NoDup_app. split; [done|]. split.
      * intros x Hx. simpl. rewrite list_elem_of_singleton. intros ->.
        apply Hin. by apply Hids.
      * simpl. apply NoDup_singleton.
Qed.

Lemma signatureDuplicates_sublist (l : list Signed.t) index photo :
  signatureDuplicates l index photo `sublist_of` l.
Proof.
  unfold signatureDuplicates, entriesWith.
  transitivity (map fst (imap (fun k p => (p, 0 + k)) l)).
  - apply fmap_sublist. etrans; apply sublist_filter.
  - rewrite fmap_imap. simpl.
    rewrite (imap_const (fun p : Signed.t => p)). by rewrite list_fmap_id.
Qed.

Lemma findDuplicates_NoDup index photo :
  pws !! index = Some photo ->
  NoDup (map Signed.id pws) ->
  NoDup (map Signed.id (fst (findDuplicates pws (groupBySignature pws) index photo))).
Proof.
  intros Hphoto Hnd.
  assert (Hsig : NoDup (map Signed.id (signatureDuplicates pws index photo))).
  { eapply sublist_NoDup; [exact Hnd|].
    apply fmap_sublist, signatureDuplicates_sublist. }
  unfold findDuplicates. rewrite groupBySignature_lookup.
  unfold signaturePass.
  destruct (signaturePass_spec index (entriesWith (Signed.signature photo) 0 pws) [] ∅)
    as [Hfst Hinv].
  { intros x. simpl. rewrite elem_of_nil. set_solver. }
  cbv zeta in Hfst, Hinv. simpl in Hfst.
  fold (signatureDuplicates pws index photo) in Hfst.
  destruct (foldl _ _ _) as [d1 s1]. simpl in Hfst, Hinv. subst d1.
  destruct (length (signatureDuplicates pws index photo) <? 10); [|done].
  by apply filenamePass_NoDup.
Qed.

(** X10. On an input with pairwise distinct ids, a record never lists
    itself as its duplicate, lists no id twice, and so has fewer
    duplicates than there are input photos. *)
Theorem duplicateIds_distinct (a : nat) (oA : Categorized.t) :
  NoDup (map Photo.id photos) ->
  out !! a = Some oA ->
  (Categorized.id oA ∉ Categorized.duplicateIds oA)
  /\ NoDup (Categorized.duplicateIds oA)
  /\ Categorized.duplicateCount oA < length photos.
Proof.
  intros Hnd HA. apply detect_record in HA as (pa & Hpa & ->).
  rewrite categorize_id.
  set (sm := groupBySignature pws) in *.
  destruct (categorize_duplicates (clock a) pws sm a (withSignature pa)) as [-> ->].
  assert (Hids : map Signed.id pws = map Photo.id photos).
  { rewrite <- list_fmap_compose. done. }
  pose proof (findDuplicates_NoDup a (withSignature pa) (signed_lookup a pa Hpa)
                ltac:(by rewrite Hids)) as Hnd'.
  fold sm in Hnd'.
  destruct (findDuplicates_spec pws a (withSignature pa) (signed_lookup a pa Hpa))
    as (_ & (extra & Hfst & Hextra) & _).
  fold sm in Hfst.
  assert (Hother : forall o,
            o ∈ fst (findDuplicates pws sm a (withSignature pa)) ->
            exists k, k <> a /\ pws !! k = Some o).
  { intros o. rewrite Hfst, elem_of_app. intros [Ho|Ho].
    - apply (elem_of_signatureDuplicates pws a (withSignature pa)) in Ho
        as (j & Hne & Hj & _). eauto.
    - destruct (Hextra o Ho) as (k & Hk & Hne & _). eauto. }
  assert (Hself : Photo.id pa ∉ map Signed.id (fst (findDuplicates pws sm a (withSignature pa)))).
  { intros Hin. apply list_elem_of_fmap in Hin as (o & Hid & Ho).
    destruct (Hother o Ho) as (k & Hne & Hk).
    apply Hne. apply (NoDup_lookup (map Signed.id pws) k a (Photo.id pa)).
    - by rewrite Hids.
    - by rewrite list_lookup_fmap, Hk, Hid.
    - by rewrite list_lookup_fmap, (signed_lookup a pa Hpa). }
  split; [done|]. split; [done|].
  assert (Hsub : Photo.id pa :: map Signed.id (fst (findDuplicates pws sm a (withSignature pa)))
                 ⊆+ map Signed.id pws).
  { apply NoDup_submseteq; [by constructor|].
    intros x. rewrite elem_of_cons. intros [->|Hx].
    - apply list_elem_of_fmap. exists (withSignature pa). split; [done|].
      eapply list_elem_of_lookup_2, signed_lookup, Hpa.
    - apply list_elem_of_fmap in Hx as (o & -> & Ho).
      destruct (Hother o Ho) as (k & _ & Hk).
      apply list_elem_of_fmap. exists o. split; [done|].
      by eapply list_elem_of_lookup_2. }
  apply submseteq_length in Hsub. simpl in Hsub.
  rewrite !length_map in Hsub. lia.
Qed.

(** X11. Below the two caps of the file-name pass, photos with the
    same non-empty normalised file name are duplicates: when at most 9
    other records carry the signature of A and A has fewer than 20
    duplicates, A lists every other record with its file name and is
    labelled DUPLICATE. *)
Theorem same_name_is_duplicate (a b : nat) (oA oB : Categorized.t) :
  out !! a = Some oA ->
  out !! b = Some oB ->
  a <> b ->
  filenameBase (Photo.uri (Categorized.photo oA))
  = filenameBase (Photo.uri (Categorized.photo oB)) ->
  filenameBase (Photo.uri (Categorized.photo oA)) <> EmptyString ->
  sameSignatureCount out oA <= 10 ->
  Categorized.duplicateCount oA < 20 ->
  Categorized.id oB ∈ Categorized.duplicateIds oA
  /\ DUPLICATE ∈ Categorized.categories oA.
Proof.
  intros HA HB Hne Hname Hnonempty Hsame Hcount.
  rewrite sameSignatureCount_signed in Hsame.
  apply detect_record in HA as (pa & Hpa & ->).
  apply detect_record in HB as (pb & Hpb & ->).
  rewrite categorize_signature in Hsame.
  rewrite !categorize_photo in Hname. rewrite categorize_photo in Hnonempty.
  rewrite categorize_id.
  set (sm := groupBySignature pws) in *.
  revert Hcount.
  destruct (categorize_duplicates (clock a) pws sm a (withSignature pa)) as [-> ->].
  destruct (categorize_flags (clock a) pws sm a (withSignature pa)) as [_ ->].
  intros Hcount.
  pose proof (length_signatureDuplicates pws a (withSignature pa)
                (signed_lookup a pa Hpa)) as Hlen.
  destruct (findDuplicates_spec pws a (withSignature pa) (signed_lookup a pa Hpa))
    as (_ & _ & Hall).
  fold sm in Hall.
  assert (Hin : Signed.id (withSignature pb)
                ∈ map Signed.id (fst (findDuplicates pws sm a (withSignature pa)))).
  { apply (Hall ltac:(lia) Hcount b (withSignature pb));
      [by apply signed_lookup|done|done|done]. }
  split; [exact Hin|].
  destruct (fst (findDuplicates pws sm a (withSignature pa)));
    [by apply elem_of_nil in Hin|simpl; lia].
Qed.

(** X12. The value of [similarCount]: a record has [similarCount = n]
    exactly when it has no duplicate and [n], which is positive, is the
    number of similar photos from 25 positions before it to 24 positions
    after it, capped at 5. *)
Theorem similarCount_counts_neighbours (i : nat) (o : Categorized.t) (n : nat) :
  out !! i = Some o ->
  Categorized.similarCount o = Some n
  <-> Categorized.duplicateCount o = 0
      /\ 0 < n
      /\ n = Nat.min 5 (neighbourCount 25 24 photos i).
Proof.
  intros Ho. apply detect_record in Ho as (p & Hp & ->).
  set (sm := groupBySignature pws).
  destruct (categorize_duplicates (clock i) pws sm i (withSignature p)) as [_ ->].
  rewrite categorize_similarCount.
  pose proof (similar_length i p Hp) as Hlen. cbv zeta in Hlen. fold sm in Hlen.
  set (similar := if length _ =? 0 then _ else _) in *. clearbody similar.
  destruct (Nat.eqb_spec (length (fst (findDuplicates pws sm i (withSignature p)))) 0)
    as [Hz|Hnz].
  - rewrite Hz. destruct (Nat.ltb_spec 0 (length similar)).
    + split.
      * intros [= <-]. split; [done|]. split; [done|]. exact Hlen.
      * intros (_ & _ & ->). by rewrite Hlen.
    + split; [done|]. intros (_ & Hpos & ->). rewrite Hlen in *. lia.
  - rewrite Hlen. simpl. split; [done|]. intros (? & _). lia.
Qed.

(** X13. The screenshot rule on a record with numeric width [w] and
    height [h]: the label SCREENSHOT is present exactly when
    [|w - h| < 10] or some listed device size is within 50 of both. *)
Theorem screenshot_rule (i : nat) (o : Categorized.t) (w h : Z) :
  out !! i = Some o ->
  Photo.width (Categorized.photo o) = JInt w ->
  Photo.height (Categorized.photo o) = JInt h ->
  SCREENSHOT ∈ Categorized.categories o
  <-> (Z.abs (w - h) < 10)%Z
      \/ Exists (fun sz : Z * Z =>
                   (Z.abs (w - fst sz) < 50)%Z /\ (Z.abs (h - snd sz) < 50)%Z)
           commonScreenshotSizes.
Proof.
  intros Ho. apply detect_record in Ho as (p & Hp & ->).
  rewrite categorize_photo. cbn [withSignature Signed.photo]. intros Hw Hh.
  destruct (categorize_independent (clock i) pws (groupBySignature pws) i
              (withSignature p)) as (-> & _ & _).
  unfold isScreenshot, isSquare, Signed.width, Signed.height.
  cbn [withSignature Signed.photo].
  rewrite Hw, Hh. rewrite orb_true_iff, existsb_exists.
  unfold lt_const, JS.abs, JS.sub. cbn [toNumber]. rewrite Z.ltb_lt.
  apply or_iff_compat_l. rewrite Exists_exists. split.
  - intros (sz & Hin & Hsz). exists sz. split; [by apply list_elem_of_In|].
    apply andb_true_iff in Hsz as [H1 H2]. by apply Z.ltb_lt in H1, H2.
  - intros (sz & Hin & H1 & H2). exists sz. split; [by apply list_elem_of_In|].
    apply andb_true_iff. by split; apply Z.ltb_lt.
Qed.

(** X14. The age rule: a record with numeric creation time [t] is
    labelled OLD_UNUSED exactly when the clock, read in its own turn of
    the second pass, is more than 365 days (31 536 000 000 ms) past [t];
    a record whose creation time is not a number never is. *)
Theorem old_unused_rule (i : nat) (o : Categorized.t) :
  out !! i = Some o ->
  (forall t, Photo.creationTime (Categorized.photo o) = JInt t ->
     (OLD_UNUSED ∈ Categorized.categories o <-> (31536000000 < clock i - t)%Z))
  /\ (toNumber (Photo.creationTime (Categorized.photo o)) = None ->
      OLD_UNUSED ∉ Categorized.categories o).
Proof.
  intros Ho. apply detect_record in Ho as (p & Hp & ->).
  rewrite categorize_photo. cbn [withSignature Signed.photo].
  destruct (categorize_independent (clock i) pws (groupBySignature pws) i
              (withSignature p)) as (_ & _ & Hold).
  cbv zeta in Hold.
  split; [intros t Ht|intros Ht]; rewrite Hold;
    unfold isOldUnused, Signed.creationTime, gt_const, JS.sub;
    cbn [withSignature Signed.photo toNumber]; rewrite Ht.
  - cbn [toNumber]. by rewrite Z.ltb_lt.
  - done.
Qed.

End DetectionRecords.

Lemma equal_signatures_are_duplicates_witness :
  exists oA oB,
    fst (detectDuplicatesAndSimilar Samples.clock (Some Samples.album) true) !! 0%nat
    = Some oA
    /\ fst (detectDuplicatesAndSimilar Samples.clock (Some Samples.album) true) !! 2%nat
       = Some oB
    /\ Categorized.id oB ∈ Categorized.duplicateIds oA
    /\ DUPLICATE ∈ Categorized.categories oB.
Proof.
  eexists _, _. split; [vm_compute; reflexivity|]. split; [vm_compute; reflexivity|].
  destruct (equal_signatures_are_duplicates Samples.clock Samples.album true
              0%nat 2%nat _ _
              ltac:(vm_compute; reflexivity) ltac:(vm_compute; reflexivity)
              ltac:(lia) ltac:(vm_compute; reflexivity))
    as (H1 & _ & _ & _ & _ & H6).
  split; [exact H1 | exact H6].
Defined.

Lemma record_invariants_witness :
  exists o,
    fst (detectDuplicatesAndSimilar Samples.clock (Some Samples.album) true) !! 0%nat
    = Some o
    /\ Categorized.duplicateCount o = length (Categorized.duplicateIds o)
    /\ (DUPLICATE ∈ Categorized.categories o <-> Categorized.isDuplicate o = true).
Proof.
  eexists. split; [vm_compute; reflexivity|].
  destruct (record_invariants Samples.clock Samples.album true 0%nat _
              ltac:(vm_compute; reflexivity)) as (H1 & _ & H3 & _).
  split; [exact H1 | exact H3].
Defined.

Lemma duplicateIds_sound_witness :
  exists oA,
    fst (detectDuplicatesAndSimilar Samples.clock (Some Samples.album) true) !! 0%nat
    = Some oA
    /\ exists b p,
         b <> 0%nat /\ Samples.album !! b = Some p /\ Photo.id p = "a2"%string
         /\ (generateImageSignature p = Categorized.signature oA
             \/ (filenameBase (Photo.uri p)
                 = filenameBase (Photo.uri (Categorized.photo oA))
                 /\ filenameBase (Photo.uri p) <> EmptyString)).
Proof.
  eexists. split; [vm_compute; reflexivity|].
  apply (duplicateIds_sound Samples.clock Samples.album true 0%nat _ "a2"%string
           ltac:(vm_compute; reflexivity)).
  by_evaluation.
Defined.

Lemma duplicateIds_distinct_witness :
  exists oA,
    fst (detectDuplicatesAndSimilar Samples.clock (Some Samples.album) true) !! 0%nat
    = Some oA
    /\ (Categorized.id oA ∉ Categorized.duplicateIds oA)
    /\ NoDup (Categorized.duplicateIds oA)
    /\ (Categorized.duplicateCount oA < length Samples.album)%nat.
Proof.
  eexists. split; [vm_compute; reflexivity|].
  apply (duplicateIds_distinct Samples.clock Samples.album true 0%nat _).
  - by_evaluation.
  - vm_compute; reflexivity.
Defined.

Lemma same_name_is_duplicate_witness :
  exists oA oB,
    fst (detectDuplicatesAndSimilar Samples.clock (Some Samples.crowd) false) !! 11%nat
    = Some oA
    /\ fst (detectDuplicatesAndSimilar Samples.clock (Some Samples.crowd) false) !! 0%nat
       = Some oB
    /\ Categorized.signature oA <> Categorized.signature oB
    /\ Categorized.id oB ∈ Categorized.duplicateIds oA
    /\ DUPLICATE ∈ Categorized.categories oA.
Proof.
  eexists _, _. split; [vm_compute; reflexivity|]. split; [vm_compute; reflexivity|].
  split; [by_evaluation|].
  apply (same_name_is_duplicate Samples.clock Samples.crowd false 11%nat 0%nat _ _
           ltac:(vm_compute; reflexivity) ltac:(vm_compute; reflexivity)).
  - lia.
  - vm_compute; reflexivity.
  - by_evaluation.
  - vm_compute; lia.
  - vm_compute; lia.
Defined.

Lemma similarCount_counts_neighbours_witness :
  exists o,
    fst (detectDuplicatesAndSimilar Samples.clock (Some Samples.strip) true) !! 25%nat
    = Some o
    /\ Categorized.similarCount o = Some 1%nat.
Proof.
  eexists. split; [vm_compute; reflexivity|].
  apply (similarCount_counts_neighbours Samples.clock Samples.strip true 25%nat _ 1%nat
           ltac:(vm_compute; reflexivity)).
  split; [reflexivity|]. split; [lia|]. vm_compute; reflexivity.
Defined.

Lemma screenshot_rule_witness :
  exists o,
    fst (detectDuplicatesAndSimilar Samples.clock (Some Samples.album) true) !! 0%nat
    = Some o
    /\ SCREENSHOT ∈ Categorized.categories o.
Proof.
  eexists. split; [vm_compute; reflexivity|].
  apply (screenshot_rule Samples.clock Samples.album true 0%nat _ 1080 1920
           ltac:(vm_compute; reflexivity) eq_refl eq_refl).
  right. apply Exists_cons_hd. simpl. lia.
Defined.

Lemma old_unused_rule_witness :
  exists o,
    fst (detectDuplicatesAndSimilar Samples.clock
           (Some [Photo.mk "o1" "file:///DCIM/old.jpg"
                    (JInt 4000) (JInt 3000) (JInt 2500000) (JInt 1600000000000)])
           true) !! 0%nat
    = Some o
    /\ OLD_UNUSED ∈ Categorized.categories o.
Proof.
  eexists. split; [vm_compute; reflexivity|].
  destruct (old_unused_rule Samples.clock
              [Photo.mk "o1" "file:///DCIM/old.jpg"
                 (JInt 4000) (JInt 3000) (JInt 2500000) (JInt 1600000000000)]
              true 0%nat _ ltac:(vm_compute; reflexivity)) as [Hold _].
  apply (Hold 1600000000000%Z eq_refl). vm_compute. reflexivity.
Defined.

Section GroupsByCategory.

Local Open Scope nat_scope.

Lemma categoryName_inj c c' : categoryName c = categoryName c' -> c = c'.
Proof. by destruct c, c'. Qed.

Lemma pushToGroup_lookup photo grouped category key :
  pushToGroup photo grouped category !! key
  = if decide (key = categoryName category)
    then (fun members => members ++ [photo]) <$> grouped !! key
    else grouped !! key.
Proof.
  unfold pushToGroup. destruct (decide _) as [->|Hne].
  - destruct (grouped !! categoryName category) eqn:E.
    + by rewrite lookup_insert_eq.
    + by rewrite E.
  - destruct (grouped !! categoryName category); [|done].
    by rewrite lookup_insert_ne.
Qed.

Lemma pushAll_lookup photo key : forall cs grouped,
  foldl (pushToGroup photo) grouped cs !! key
  = (fun members =>
       members ++ ((fun _ => photo) <$> filter (fun c => key = categoryName c) cs))
    <$> grouped !! key.
Proof.
  induction cs as [|c cs IH]; intros grouped; simpl.
  - destruct (grouped !! key); simpl; [|done]. by rewrite app_nil_r.
  - rewrite IH, pushToGroup_lookup, filter_cons.
    destruct (decide (key = categoryName c)); [|done].
    destruct (grouped !! key); simpl; [|done]. by rewrite <- app_assoc.
Qed.

Lemma groupLoop_by_category key : forall l grouped,
  foldl
    (fun grouped photo =>
       foldl (pushToGroup photo) grouped (Categorized.categories photo))
    grouped l !! key
  = (fun members =>
       members
       ++ (l ≫= fun photo =>
             (fun _ => photo)
             <$> filter (fun c => key = categoryName c) (Categorized.categories photo)))
    <$> grouped !! key.
Proof.
  induction l as [|photo l IH]; intros grouped; simpl.
  - destruct (grouped !! key); simpl; [|done]. by rewrite app_nil_r.
  - rewrite IH, pushAll_lookup.
    destruct (grouped !! key); simpl; [|done]. by rewrite <- app_assoc.
Qed.

Lemma emptyGroups_category c : emptyGroups !! categoryName c = Some [].
Proof. destruct c; vm_compute; reflexivity. Qed.

Lemma emptyGroups_other key :
  (forall c, key <> categoryName c) -> emptyGroups !! key = None.
Proof.
  intros Hkey. unfold emptyGroups.
  rewrite !lookup_insert_ne, lookup_empty; [done|..];
    intros <-; by eapply Hkey.
Qed.

Lemma once_if_member (c : PhotoCategory) (cs : list PhotoCategory) :
  NoDup cs ->
  filter (fun c' => categoryName c = categoryName c') cs
  = if decide (c ∈ cs) then [c] else [].
Proof.
  induction 1 as [|c' cs Hnotin Hnd IH]; [done|].
  rewrite filter_cons, IH.
  destruct (decide (categoryName c = categoryName c')) as [Heq|Hne].
  - apply categoryName_inj in Heq as <-.
    destruct (decide (c ∈ cs)); [done|].
    destruct (decide (c ∈ c :: cs)); [done|set_solver].
  - destruct (decide (c ∈ cs)), (decide (c ∈ c' :: cs)); try done.
    + set_solver.
    + apply elem_of_cons in e as [->|?]; done.
Qed.

Lemma grouped_lookup (l : list Categorized.t) (c : PhotoCategory) :
  Forall (fun p => NoDup (Categorized.categories p)) l ->
  groupPhotosByCategory l !! categoryName c
  = Some (filter (fun p => c ∈ Categorized.categories p) l).
Proof.
  intros Hnd. unfold groupPhotosByCategory.
  rewrite groupLoop_by_category, emptyGroups_category. simpl. f_equal.
  induction Hnd as [|p l Hp Hl IH]; [done|].
  rewrite bind_cons, filter_cons, IH, (once_if_member c _ Hp).
  by destruct (decide (c ∈ Categorized.categories p)).
Qed.

(** X15. [groupPhotosByCategory] on records that carry no label
    twice: the object returned has exactly the six category keys, and
    the array under each key holds, in input order, the records that
    carry the label.  With no record at all the six arrays are empty. *)
Theorem groups_by_category (categorizedPhotos : list Categorized.t) :
  Forall (fun p => NoDup (Categorized.categories p)) categorizedPhotos ->
  (forall c,
     groupPhotosByCategory categorizedPhotos !! categoryName c
     = Some (filter (fun p => c ∈ Categorized.categories p) categorizedPhotos))
  /\ (forall key, (forall c, key <> categoryName c) ->
        groupPhotosByCategory categorizedPhotos !! key = None).
Proof.
  intros Hnd. split.
  - intros c. by apply grouped_lookup.
  - intros key Hkey. unfold groupPhotosByCategory.
    by rewrite groupLoop_by_category, emptyGroups_other.
Qed.

Lemma groups_by_category_witness :
  groupPhotosByCategory Samples2.out_album !! categoryName SCREENSHOT
  = Some (filter (fun p => SCREENSHOT ∈ Categorized.categories p) Samples2.out_album).
Proof.
  apply (proj1 (groups_by_category Samples2.out_album ltac:(by_evaluation))).
Defined.

(** X16. Grouping what the pipeline returns: under each label stands
    the sub-list of the returned records with that label; the array
    under ["duplicate"] is the sub-list of the records with
    [isDuplicate] set; and no record stands both under ["similar"] and
    under ["burst"], or both under ["duplicate"] and under one of
    these two. *)
Theorem groups_of_detected (clock : nat -> Z) (photos : list Photo.t)
    (onProgress : bool) :
  let out := fst (detectDuplicatesAndSimilar clock (Some photos) onProgress) in
  let grouped := groupPhotosByCategory out in
  (forall c,
     grouped !! categoryName c
     = Some (filter (fun o => c ∈ Categorized.categories o) out))
  /\ grouped !! categoryName DUPLICATE
     = Some (filter (fun o => Categorized.isDuplicate o = true) out)
  /\ (forall o similar burst duplicate,
        grouped !! categoryName SIMILAR = Some similar ->
        grouped !! categoryName BURST = Some burst ->
        grouped !! categoryName DUPLICATE = Some duplicate ->
        ~ (o ∈ similar /\ o ∈ burst)
        /\ ~ (o ∈ duplicate /\ (o ∈ similar \/ o ∈ burst))).
Proof.
  cbv zeta.
  set (out := fst (detectDuplicatesAndSimilar clock (Some photos) onProgress)).
  assert (Hrec : forall o, o ∈ out ->
            NoDup (Categorized.categories o)
            /\ (DUPLICATE ∈ Categorized.categories o
                <-> Categorized.isDuplicate o = true)
            /\ ~ (SIMILAR ∈ Categorized.categories o
                  /\ BURST ∈ Categorized.categories o)
            /\ ~ (DUPLICATE ∈ Categorized.categories o
                  /\ (SIMILAR ∈ Categorized.categories o
                      \/ BURST ∈ Categorized.categories o))).
  { intros o Ho. apply list_elem_of_lookup_1 in Ho as [i Hi].
    apply detect_record in Hi as (p & Hp & ->).
    set (pws := map withSignature photos).
    set (sm := groupBySignature pws).
    destruct (categorize_flags (clock i) pws sm i (withSignature p)) as [-> ->].
    destruct (categorize_similar (clock i) pws sm i (withSignature p)) as [-> ->].
    split; [apply categorize_NoDup|].
    split; [by rewrite Nat.ltb_lt|].
    destruct (length (fst (findDuplicates pws sm i (withSignature p)))) as [|n];
      simpl; split; lia. }
  assert (Hgroups : forall c,
            groupPhotosByCategory out !! categoryName c
            = Some (filter (fun o => c ∈ Categorized.categories o) out)).
  { intros c. apply grouped_lookup. apply Forall_forall.
    intros o Ho. by apply Hrec. }
  split; [exact Hgroups|]. split.
  - rewrite Hgroups. f_equal. apply filter_agree.
    apply Forall_forall. intros o Ho. by apply Hrec.
  - intros o similar burst duplicate. rewrite !Hgroups.
    intros [= <-] [= <-] [= <-]. rewrite !list_elem_of_filter.
    split.
    + intros [[HS Ho] [HB _]]. destruct (Hrec o Ho) as (_ & _ & Hno & _). tauto.
    + intros [[HD Ho] Hsb]. destruct (Hrec o Ho) as (_ & _ & _ & Hno).
      apply Hno. split; [done|]. tauto.
Qed.

End GroupsByCategory.

Lemma groups_of_detected_witness :
  ~ (Samples2.fav1
       ∈ filter (fun o => SIMILAR ∈ Categorized.categories o) Samples2.out_album
     /\ Samples2.fav1
          ∈ filter (fun o => BURST ∈ Categorized.categories o) Samples2.out_album).
Proof.
  destruct (groups_of_detected Samples.clock Samples.album false) as (Hc & _ & Hno).
  exact (proj1 (Hno Samples2.fav1 _ _ _ (Hc SIMILAR) (Hc BURST) (Hc DUPLICATE))).
Defined.

Section DuplicateGroupStructure.

Local Open Scope nat_scope.

Variable l : list Categorized.t.

Lemma collectGroup_members photo processed :
  exists rest,
    fst (collectGroup l photo processed) = photo :: rest
    /\ Forall
         (fun m => m ∈ l /\ Categorized.id m ∈ Categorized.duplicateIds photo)
         rest.
Proof.
  unfold collectGroup.
  set (step := fun (acc : list Categorized.t * gset string) (dupId : string) => _).
  assert (Hgen : forall ids rest0 s0,
    Forall
      (fun m => m ∈ l /\ Categorized.id m ∈ Categorized.duplicateIds photo) rest0 ->
    Forall (fun x => x ∈ Categorized.duplicateIds photo) ids ->
    exists rest,
      fst (foldl step (photo :: rest0, s0) ids) = photo :: rest
      /\ Forall
           (fun m => m ∈ l /\ Categorized.id m ∈ Categorized.duplicateIds photo)
           rest).
  { induction ids as [|dupId ids IH]; intros rest0 s0 Hrest Hids.
    - simpl. eauto.
    - apply Forall_cons in Hids as [Hd Hids]. simpl.
      destruct (List.find _ l) as [dupPhoto|] eqn:Hfind.
      + case_bool_decide.
        * by apply IH.
        * apply (IH (rest0 ++ [dupPhoto])); [|done].
          apply Forall_app. split; [done|]. apply Forall_singleton.
          apply find_some in Hfind as [Hin Heq]. apply String.eqb_eq in Heq.
          split; [by apply list_elem_of_In | by rewrite Heq].
      + by apply IH. }
  apply (Hgen _ [] processed); [constructor|]. by apply Forall_forall.
Qed.

Lemma groups_members : forall duplicates groups processed,
  Forall (fun p => p ∈ l /\ Categorized.isDuplicate p = true) duplicates ->
  Forall (duplicateGroup l) groups ->
  Forall (duplicateGroup l)
    (fst
       (foldl
          (fun (acc : list (list Categorized.t) * gset string) (photo : Categorized.t) =>
             let '(groups, processed) := acc in
             if bool_decide (Categorized.id photo ∈ processed) then (groups, processed)
             else
               let '(group, processed1) := collectGroup l photo processed in
               if 1 <? length group
               then (groups ++ [group], {[ Categorized.id photo ]} ∪ processed1)
               else (groups, processed1))
          (groups, processed)
          duplicates)).
Proof.
  induction duplicates as [|photo duplicates IH]; intros groups processed Hdup Hgroups.
  - done.
  - apply Forall_cons in Hdup as [[Hin Hflag] Hdup]. simpl.
    case_bool_decide; [by apply IH|].
    destruct (collectGroup_members photo processed) as (rest & Hfst & Hrest).
    destruct (collectGroup l photo processed) as [group processed1].
    simpl in Hfst. subst group.
    destruct (1 <? length (photo :: rest)) eqn:Hlen; [|by apply IH].
    apply IH; [done|]. apply Forall_app. split; [done|].
    apply Forall_singleton. simpl. split; [|done].
    apply Nat.ltb_lt in Hlen. destruct rest; [simpl in Hlen; lia|done].
Qed.

End DuplicateGroupStructure.

(** X17. The shape of the groups of [getDuplicateGroups]: every group
    has at least two members; its first member is a record of the list
    with [isDuplicate] set, and every other member is a record of the
    list whose id the first member lists in [duplicateIds]. *)
Theorem duplicate_groups_structure (categorizedPhotos : list Categorized.t) :
  Forall (duplicateGroup categorizedPhotos) (getDuplicateGroups categorizedPhotos).
Proof.
  unfold getDuplicateGroups. apply groups_members; [|constructor].
  apply Forall_forall. intros p Hp. apply list_elem_of_In, filter_In in Hp as [Hin Hflag].
  split; [by apply list_elem_of_In|done].
Qed.

Section CallerRecords.

Local Open Scope nat_scope.

Variable clock : nat -> Z.
Variable assets : list asset.
Variable onProgress : bool.

Local Abbreviation processedPhotos :=
  (fst (detectDuplicatesAndSimilar clock (Some (map toPhotoData assets)) onProgress)).

Lemma orZero_number v : exists z, orZero v = JInt z.
Proof. destruct v as [| |z]; simpl; eauto. destruct (z =? 0)%Z; eauto. Qed.

Lemma orZero_missing v : toNumber v = None -> orZero v = JInt 0.
Proof. by destruct v. Qed.

Lemma orZero_nonzero z : z <> 0%Z -> orZero (JInt z) = JInt z.
Proof. intros Hz. simpl. by destruct (Z.eqb_spec z 0). Qed.

(** X18. What the defaults of the swipe screen lead to.  Every record
    the pipeline returns for the mapped assets has numeric width, height
    and size.  An asset without width and without height becomes a 0 x 0
    record: it is labelled SCREENSHOT and never LOW_QUALITY.  An asset
    with a positive pixel count and no file size becomes a record of
    size 0 and is labelled LOW_QUALITY.  An asset without creation time
    is never labelled OLD_UNUSED. *)
Theorem defaults_of_missing_asset_properties (i : nat) (a : asset)
    (o : Categorized.t) :
  assets !! i = Some a ->
  processedPhotos !! i = Some o ->
  (exists w h s,
      Photo.width (Categorized.photo o) = JInt w
      /\ Photo.height (Categorized.photo o) = JInt h
      /\ Photo.size (Categorized.photo o) = JInt s)
  /\ (toNumber (assetWidth a) = None -> toNumber (assetHeight a) = None ->
      SCREENSHOT ∈ Categorized.categories o
      /\ LOW_QUALITY ∉ Categorized.categories o)
  /\ (forall w h, assetWidth a = JInt w -> assetHeight a = JInt h ->
        (0 < w * h)%Z -> toNumber (fileSize a) = None ->
        LOW_QUALITY ∈ Categorized.categories o)
  /\ (toNumber (assetCreationTime a) = None ->
      OLD_UNUSED ∉ Categorized.categories o).
Proof.
  intros Ha Ho. apply detect_record in Ho as (p & Hp & ->).
  rewrite list_lookup_fmap, Ha in Hp. injection Hp as <-.
  rewrite categorize_photo. cbn [withSignature Signed.photo toPhotoData Photo.width
    Photo.height Photo.size].
  set (pws := map withSignature (map toPhotoData assets)).
  destruct (categorize_independent (clock i) pws (groupBySignature pws) i
              (withSignature (toPhotoData a))) as (HS & HL & HO).
  cbv zeta in HS, HL, HO.
  split; [|split; [|split]].
  - destruct (orZero_number (assetWidth a)) as [w ->].
    destruct (orZero_number (assetHeight a)) as [h ->].
    destruct (orZero_number (fileSize a)) as [s ->]. by exists w, h, s.
  - intros Hw Hh. rewrite HS, HL. split.
    + unfold isScreenshot, isSquare, Signed.width, Signed.height.
      cbn [withSignature Signed.photo toPhotoData Photo.width Photo.height].
      by rewrite (orZero_missing _ Hw), (orZero_missing _ Hh).
    + rewrite isLowQuality_spec. unfold Signed.width, Signed.height.
      cbn [withSignature Signed.photo toPhotoData Photo.width Photo.height].
      rewrite (orZero_missing _ Hw), (orZero_missing _ Hh).
      intros (w & h & s & [= <-] & [= <-] & _ & Hpos & _). lia.
  - intros w h Hw Hh Hpos Hsize. rewrite HL, isLowQuality_spec.
    unfold Signed.width, Signed.height, Signed.size.
    cbn [withSignature Signed.photo toPhotoData Photo.width Photo.height Photo.size].
    rewrite Hw, Hh, (orZero_missing _ Hsize), !orZero_nonzero by lia.
    exists w, h, 0%Z. repeat split; try done. left. lia.
  - intros Ht. rewrite HO. unfold isOldUnused, Signed.creationTime.
    cbn [withSignature Signed.photo toPhotoData Photo.creationTime].
    unfold JS.mul. by rewrite Ht.
Qed.

End CallerRecords.

Lemma defaults_of_missing_asset_properties_witness :
  exists o,
    fst (detectDuplicatesAndSimilar Samples.clock
           (Some (map toPhotoData
                    [mkAsset "m1" "file:///DCIM/clip.jpg"
                       JUndefined JUndefined (JInt 900000) (JInt 1700000000)]))
           true) !! 0%nat
    = Some o
    /\ SCREENSHOT ∈ Categorized.categories o.
Proof.
  eexists. split; [vm_compute; reflexivity|].
  destruct (defaults_of_missing_asset_properties Samples.clock
              [mkAsset "m1" "file:///DCIM/clip.jpg"
                 JUndefined JUndefined (JInt 900000) (JInt 1700000000)]
              true 0%nat _ _ eq_refl ltac:(vm_compute; reflexivity))
    as (_ & Hmissing & _).
  apply (Hmissing eq_refl eq_refl).
Defined.

Section CleanupModes.

Variable clock : nat -> Z.
Variable photos : list Photo.t.
Variable onProgress : bool.

Local Abbreviation processedPhotos :=
  (fst (detectDuplicatesAndSimilar clock (Some photos) onProgress)).

(** X19. The ['duplicates'] cleanup mode on the records of the
    pipeline keeps exactly the records that have a duplicate or carry
    the label SIMILAR; a record labelled BURST (three or more similar
    neighbours) is never kept. *)
Theorem duplicates_mode_leaves_bursts_out (o : Categorized.t) :
  o ∈ processedPhotos ->
  (o ∈ duplicatesMode processedPhotos
   <-> (0 < Categorized.duplicateCount o)%nat
       \/ SIMILAR ∈ Categorized.categories o)
  /\ (BURST ∈ Categorized.categories o -> o ∉ duplicatesMode processedPhotos).
Proof.
  intros Ho.
  assert (Hmode : o ∈ duplicatesMode processedPhotos
                  <-> (0 < Categorized.duplicateCount o)%nat
                      \/ SIMILAR ∈ Categorized.categories o).
  { unfold duplicatesMode. rewrite list_elem_of_In, filter_In, <- list_elem_of_In.
    unfold includes. rewrite !orb_true_iff, !bool_decide_eq_true.
    apply list_elem_of_lookup_1 in Ho as Hi. destruct Hi as [i Hi].
    apply detect_record in Hi as (p & Hp & Heq).
    set (pws := map withSignature photos) in *.
    set (sm := groupBySignature pws) in *.
    destruct (categorize_flags (clock i) pws sm i (withSignature p)) as [Hflag Hlabel].
    destruct (categorize_duplicates (clock i) pws sm i (withSignature p)) as [_ Hcount].
    cbv zeta in Hflag, Hlabel. rewrite <- Heq in Hflag, Hlabel, Hcount.
    rewrite Hflag, Hlabel, Hcount, Nat.ltb_lt. tauto. }
  split; [exact Hmode|].
  intros HB. rewrite Hmode.
  apply list_elem_of_lookup_1 in Ho as [i Hi].
  apply detect_record in Hi as (p & Hp & ->).
  set (pws := map withSignature photos) in *.
  set (sm := groupBySignature pws) in *.
  destruct (categorize_similar (clock i) pws sm i (withSignature p)) as [HB' HS'].
  destruct (categorize_duplicates (clock i) pws sm i (withSignature p)) as [_ Hcount].
  cbv zeta in HB', HS'. rewrite Hcount. rewrite HS'. rewrite HB' in HB.
  destruct (length (fst (findDuplicates pws sm i (withSignature p)))) as [|n];
    simpl in *; lia.
Qed.

End CleanupModes.

Lemma duplicates_mode_leaves_bursts_out_witness :
  exists o,
    fst (detectDuplicatesAndSimilar Samples.clock (Some Samples.strip) true) !! 25%nat
    = Some o
    /\ o ∈ duplicatesMode
             (fst (detectDuplicatesAndSimilar Samples.clock (Some Samples.strip) true)).
Proof.
  eexists. split; [vm_compute; reflexivity|].
  apply (proj1 (duplicates_mode_leaves_bursts_out Samples.clock Samples.strip true _
                  ltac:(apply (list_elem_of_lookup_2 _ 25%nat); vm_compute; reflexivity))).
  right. by_evaluation.
Defined.

Section StorageProperties.

Local Open Scope nat_scope.

Lemma ids_of_filtered photoId : forall l : list deletedPhoto,
  map (fun d => Categorized.id (deleted_photo d))
    (List.filter
       (fun p => negb (String.eqb (Categorized.id (deleted_photo p)) photoId)) l)
  = filter (fun x => x <> photoId)
      (map (fun d => Categorized.id (deleted_photo d)) l).
Proof.
  induction l as [|d l IH]; [done|].
  simpl. rewrite filter_cons.
  destruct (String.eqb_spec (Categorized.id (deleted_photo d)) photoId);
    destruct (decide _); simpl; try done; by rewrite IH.
Qed.

Lemma filter_keeps_others photoId : forall l : list deletedPhoto,
  photoId ∉ map (fun d => Categorized.id (deleted_photo d)) l ->
  List.filter
    (fun p => negb (String.eqb (Categorized.id (deleted_photo p)) photoId)) l
  = l.
Proof.
  induction l as [|d l IH]; [done|].
  simpl. rewrite not_elem_of_cons. intros [Hne Hnotin].
  destruct (String.eqb_spec (Categorized.id (deleted_photo d)) photoId); [done|].
  simpl. by rewrite IH.
Qed.

Lemma filter_app_list {A} (f : A -> bool) (l k : list A) :
  List.filter f (l ++ k) = List.filter f l ++ List.filter f k.
Proof. induction l as [|x l IH]; [done|]. simpl. destruct (f x); simpl; by rewrite IH. Qed.

(** X20. Marking a photo as deleted and undoing it, when storage
    answers.  [saveDeletedPhoto] appends an entry without looking for an
    earlier one with the same id, so the count of marked photos goes up
    by one each time.  [restorePhoto] then reports [true] and removes
    every entry with that id, the earlier ones included; if there was
    none before the save, the list is back to what it was.  Favorites
    and history are not touched. *)
Theorem deleted_photos_round_trip (now : Z) (photo : Categorized.t) (st : items) :
  let st1 := saveDeletedPhoto Resolved Resolved now photo st in
  let r := restorePhoto Resolved Resolved (Categorized.id photo) st1 in
  deletedIds st1 = deletedIds st ++ [Categorized.id photo]
  /\ getMarkedDeletionCount Resolved st1 = S (getMarkedDeletionCount Resolved st)
  /\ fst r = true
  /\ deletedIds (snd r)
     = filter (fun x => x <> Categorized.id photo) (deletedIds st)
  /\ (Categorized.id photo ∉ deletedIds st ->
      getDeletedPhotos Resolved (snd r) = getDeletedPhotos Resolved st)
  /\ favoritePhotos (snd r) = favoritePhotos st
  /\ cleanupHistory (snd r) = cleanupHistory st.
Proof.
  cbv zeta. unfold deletedIds, getMarkedDeletionCount, restorePhoto, saveDeletedPhoto,
    getDeletedPhotos. simpl.
  set (l := default [] (deletedPhotos st)).
  split; [by rewrite map_app|].
  split; [rewrite length_app; simpl; lia|].
  split; [done|].
  rewrite filter_app_list. simpl. rewrite String.eqb_refl. simpl.
  rewrite app_nil_r.
  split; [apply ids_of_filtered|].
  split; [apply filter_keeps_others|done].
Qed.

Lemma deleted_photos_round_trip_witness :
  getDeletedPhotos Resolved
    (snd (restorePhoto Resolved Resolved (Categorized.id Samples2.fav1)
            (saveDeletedPhoto Resolved Resolved 1700000000000 Samples2.fav1
               Samples2.noItems)))
  = getDeletedPhotos Resolved Samples2.noItems.
Proof.
  apply (deleted_photos_round_trip 1700000000000 Samples2.fav1 Samples2.noItems).
  by_evaluation.
Defined.

Lemma find_by_id (x : string) : forall l : list Categorized.t,
  (exists p, List.find (fun p => String.eqb (Categorized.id p) x) l = Some p)
  <-> x ∈ map Categorized.id l.
Proof.
  induction l as [|q l IH]; simpl.
  - split; [by intros [? ?]|by intros ?%elem_of_nil].
  - rewrite elem_of_cons. destruct (String.eqb_spec (Categorized.id q) x).
    + split; [by left|eauto].
    + rewrite IH. split; [by right|]. intros [?|?]; [congruence|done].
Qed.

(** X21. Favorites hold one entry per id.  If the stored favorites
    have pairwise distinct ids, they still have after
    [saveFavoritePhoto], whatever storage answers; when storage answers,
    the id of the photo is among them afterwards, saving a photo whose
    id is already there changes nothing, and saving twice is saving
    once. *)
Theorem favorites_hold_one_entry_per_id (read write : outcome)
    (photo : Categorized.t) (st : items) :
  NoDup (favoriteIds st) ->
  NoDup (favoriteIds (saveFavoritePhoto read write photo st))
  /\ Categorized.id photo ∈ favoriteIds (saveFavoritePhoto Resolved Resolved photo st)
  /\ (Categorized.id photo ∈ favoriteIds st ->
      saveFavoritePhoto Resolved write photo st = st)
  /\ saveFavoritePhoto Resolved Resolved photo
       (saveFavoritePhoto Resolved Resolved photo st)
     = saveFavoritePhoto Resolved Resolved photo st.
Proof.
  intros Hnd.
  assert (Hin : Categorized.id photo
                ∈ favoriteIds (saveFavoritePhoto Resolved Resolved photo st)).
  { unfold saveFavoritePhoto, favoriteIds.
    destruct (List.find _ (getFavoritePhotos Resolved st)) as [q|] eqn:Hfind.
    - apply find_by_id. eauto.
    - unfold getFavoritePhotos. simpl. rewrite map_app, elem_of_app. right.
      simpl. by apply list_elem_of_singleton. }
  assert (Hsame : forall w st0,
            Categorized.id photo ∈ favoriteIds st0 ->
            saveFavoritePhoto Resolved w photo st0 = st0).
  { intros w st0 Hin0. apply find_by_id in Hin0 as [q Hq].
    unfold saveFavoritePhoto. by rewrite Hq. }
  split; [|split; [done|split; [apply Hsame|by apply Hsame]]].
  unfold saveFavoritePhoto.
  destruct (List.find _ (getFavoritePhotos read st)) as [q|] eqn:Hfind; [done|].
  destruct write; [|done].
  unfold favoriteIds. unfold getFavoritePhotos at 1. simpl.
  rewrite map_app. apply NoDup_app. split; [|split].
  - destruct read; [done|constructor].
  - intros x Hx. simpl. rewrite list_elem_of_singleton. intros ->.
    apply find_by_id in Hx as [q Hq]. congruence.
  - simpl. apply NoDup_singleton.
Qed.

Lemma favorites_hold_one_entry_per_id_witness :
  NoDup (favoriteIds
           (saveFavoritePhoto Resolved Resolved Samples2.fav1
              (saveFavoritePhoto Resolved Resolved Samples2.fav2
                 (saveFavoritePhoto Resolved Resolved Samples2.fav1 Samples2.noItems)))).
Proof.
  apply (favorites_hold_one_entry_per_id Resolved Resolved Samples2.fav1
           (saveFavoritePhoto Resolved Resolved Samples2.fav2
              (saveFavoritePhoto Resolved Resolved Samples2.fav1 Samples2.noItems))).
  by_evaluation.
Defined.



Lemma lastFifty_snoc {A} (h : list A) (new : A) :
  length (lastFifty (h ++ [new])) = Nat.min 50 (S (length h))
  /\ last (lastFifty (h ++ [new])) = Some new
  /\ lastFifty (h ++ [new]) `suffix_of` (h ++ [new])
  /\ (length h < 50 -> lastFifty (h ++ [new]) = h ++ [new]).
Proof.
  unfold lastFifty.
  assert (Hlen : length (h ++ [new]) = S (length h))
    by (rewrite length_app; cbn [length]; lia).
  rewrite Hlen.
  split; [rewrite length_drop, Hlen; lia|].
  split.
  - rewrite last_lookup, length_drop, lookup_drop, Hlen.
    replace (S (length h) - 50 + pred (S (length h) - (S (length h) - 50)))
      with (length h) by lia.
    by rewrite lookup_app_r, Nat.sub_diag by lia.
  - split; [apply suffix_drop|].
    intros Hlt. by replace (S (length h) - 50) with 0 by lia.
Qed.

(** X22. The cleanup history keeps the last fifty sessions.  After
    [saveCleanupSession], when storage answers, the stored history is
    the old one with the new session appended, cut to its last fifty
    entries: its length is min(50, old length + 1), its last entry is
    the new session, and below fifty nothing is dropped. *)
Theorem history_keeps_last_fifty (now : Z) (s : stats) (st : items) :
  let h := getCleanupHistory Resolved st in
  let h' :=
    getCleanupHistory Resolved (saveCleanupSession Resolved Resolved now s st) in
  length h' = Nat.min 50 (S (length h))
  /\ last h' = Some (mkSession s now)
  /\ h' `suffix_of` (h ++ [mkSession s now])
  /\ (length h < 50 -> h' = h ++ [mkSession s now]).
Proof.
  cbv zeta. unfold saveCleanupSession.
  exact (lastFifty_snoc (getCleanupHistory Resolved st) (mkSession s now)).
Qed.

Lemma history_keeps_last_fifty_witness :
  getCleanupHistory Resolved
    (saveCleanupSession Resolved Resolved 1700000000000 Samples2.session1
       Samples2.noItems)
  = getCleanupHistory Resolved Samples2.noItems
    ++ [mkSession Samples2.session1 1700000000000].
Proof.
  apply (history_keeps_last_fifty 1700000000000 Samples2.session1 Samples2.noItems).
  simpl. lia.
Defined.



(** X24. What a failing storage call does.  A rejected write leaves
    the three items as they were, and only [restorePhoto] reports it, by
    returning [false].  A rejected read followed by a write that goes
    through replaces the item: after [saveDeletedPhoto] the new entry is
    the only one, after [saveCleanupSession] the new session is the only
    one, after [saveFavoritePhoto] the photo is the only favorite, and
    [restorePhoto] reports [true] and leaves no entry at all. *)
Theorem storage_failures (read : outcome) (now : Z) (photo : Categorized.t)
    (s : stats) (photoId : string) (st : items) :
  (saveDeletedPhoto read Rejected now photo st = st
   /\ saveFavoritePhoto read Rejected photo st = st
   /\ saveCleanupSession read Rejected now s st = st
   /\ restorePhoto read Rejected photoId st = (false, st))
  /\ (getDeletedPhotos Resolved (saveDeletedPhoto Rejected Resolved now photo st)
      = [mkDeleted photo now]
      /\ getFavoritePhotos Resolved (saveFavoritePhoto Rejected Resolved photo st)
         = [photo]
      /\ getCleanupHistory Resolved (saveCleanupSession Rejected Resolved now s st)
         = [mkSession s now]
      /\ fst (restorePhoto Rejected Resolved photoId st) = true
      /\ getDeletedPhotos Resolved (snd (restorePhoto Rejected Resolved photoId st))
         = []).
Proof.
  split.
  - repeat split; try done.
    unfold saveFavoritePhoto. by destruct (List.find _ _).
  - done.
Qed.

End StorageProperties.

Section Callback.

Local Open Scope nat_scope.

Variable clock : nat -> Z.



End Callback.
